(** * Strings-Analyzer-Api: analyzer, natural-language filter parser and
      query construction, embedded in Rocq.

    The development follows the JavaScript sources:
    - [utils/analyzer.js]      : [sha256Hex], [charFrequencyMap], [isPalindrome],
                                 [wordCount], [analyze];
    - the natural-language parser ([parseNaturalLanguage], two variants that
      live side by side in the parser source);
    - the controller ([getAllStrings], [filterByNaturalLanguage]) that turns
      filters into a store query.

    JavaScript strings are sequences of UTF-16 code units; they are modelled
    as [list Z], one 16-bit code unit per element.  JavaScript numbers that the
    code manipulates are integer-valued doubles; they are modelled by
    [number], with the rounding of integers that exceed 53 bits written out. *)

From Stdlib Require Import ZArith String Ascii List Bool Lia Sorted Btauto.
From stdpp Require Import gmap list.

Open Scope Z_scope.

(** ** JavaScript strings *)

Abbreviation jsstring := (list Z).

(** A string literal of the source, as its code units (ASCII literals only). *)
Definition js (s : string) : jsstring :=
  map (fun a => Z.of_N (N_of_ascii a)) (list_ascii_of_string s).

(** [a === b] on strings: the same code units. *)
Fixpoint string_eqb (a b : jsstring) : bool :=
  match a, b with
  | [], [] => true
  | x :: a', y :: b' => (x =? y) && string_eqb a' b'
  | _, _ => false
  end.

Module Char.

Definition in_range (lo hi c : Z) : bool := (lo <=? c) && (c <=? hi).

Definition is_digit (c : Z) : bool := in_range 48 57 c.
Definition is_upper (c : Z) : bool := in_range 65 90 c.
Definition is_lower (c : Z) : bool := in_range 97 122 c.

(** [\w] of a non-unicode regular expression: [[A-Za-z0-9_]]. *)
Definition is_word (c : Z) : bool :=
  is_lower c || is_upper c || is_digit c || (c =? 95).

(** [\s], which is also the set removed by [String.prototype.trim]:
    WhiteSpace and LineTerminator of ECMAScript. *)
Definition is_space (c : Z) : bool :=
  existsb (Z.eqb c)
    [0x09; 0x0A; 0x0B; 0x0C; 0x0D; 0x20; 0xA0; 0x1680;
     0x2028; 0x2029; 0x202F; 0x205F; 0x3000; 0xFEFF]
  || in_range 0x2000 0x200A c.

Definition is_high_surrogate (c : Z) : bool := in_range 0xD800 0xDBFF c.
Definition is_low_surrogate (c : Z) : bool := in_range 0xDC00 0xDFFF c.

(** Case mapping of one code unit.  The mapping of the runtime is the
    Unicode one; the model carries its Basic Latin part, which is all the
    sources' patterns and literals touch, and leaves every other code unit
    unchanged.  It is the mapping of the runtime on strings of Basic Latin
    code units; a property that depends on the case of other characters is
    stated for such strings. *)
Definition lower (c : Z) : Z := if is_upper c then c + 32 else c.
Definition upper (c : Z) : Z := if is_lower c then c - 32 else c.

End Char.

(** [String.prototype.toLowerCase]. *)
Definition toLowerCase (s : jsstring) : jsstring := map Char.lower s.

Fixpoint trimStart (s : jsstring) : jsstring :=
  match s with
  | c :: s' => if Char.is_space c then trimStart s' else s
  | [] => []
  end.

Definition trimEnd (s : jsstring) : jsstring := rev (trimStart (rev s)).

(** [String.prototype.trim]. *)
Definition trim (s : jsstring) : jsstring := trimEnd (trimStart s).

(** The string iterator ([for (const ch of value)]): one element per code
    point; a high surrogate followed by a low surrogate is one element of two
    code units, any other code unit (a lone surrogate too) is an element of
    its own. *)
Fixpoint codePoints (s : jsstring) : list jsstring :=
  match s with
  | [] => []
  | h :: t =>
      match t with
      | l :: t' =>
          if Char.is_high_surrogate h && Char.is_low_surrogate l
          then [h; l] :: codePoints t'
          else [h] :: codePoints t
      | [] => [[h]]
      end
  end.

(** Number of surrogate pairs the iterator joins. *)
Fixpoint surrogatePairs (s : jsstring) : nat :=
  match s with
  | [] => 0%nat
  | h :: t =>
      match t with
      | l :: t' =>
          if Char.is_high_surrogate h && Char.is_low_surrogate l
          then S (surrogatePairs t')
          else surrogatePairs t
      | [] => 0%nat
      end
  end.

(** [value.split(separator)] and [parts.join(separator)] for the empty separator. *)
Definition split_empty (s : jsstring) : list jsstring := map (fun c => [c]) s.
Definition join_empty (parts : list jsstring) : jsstring := concat parts.

(** ** JavaScript numbers *)

(** The numbers of the sources are integers held in doubles.  [Num z] is the
    double whose value is the integer [z]. *)
Inductive number : Type :=
| Num (z : Z)
| Infinity (negative : bool)
| NaN.

Module Number.

(** Round a non-negative integer to the nearest double, ties to even;
    integers below 2^53 are exact, integers from 2^1024 - 2^970 on
    overflow. *)
Definition round_nonneg (z : Z) : number :=
  if z <? 2 ^ 53 then Num z
  else
    let e := Z.log2 z - 52 in
    let q := Z.shiftr z e in
    let r := Z.land z (Z.ones e) in
    let half := 2 ^ (e - 1) in
    let q' := if (half <? r) || ((r =? half) && Z.odd q) then q + 1 else q in
    let v := Z.shiftl q' e in
    if 2 ^ 1024 <=? v then Infinity false else Num v.

Definition opp (n : number) : number :=
  match n with
  | Num z => Num (- z)
  | Infinity b => Infinity (negb b)
  | NaN => NaN
  end.

Definition of_Z (z : Z) : number :=
  if z <? 0 then opp (round_nonneg (- z)) else round_nonneg z.

(** [n + k] and [n - k] for an integer literal [k] of the source. *)
Definition add (n : number) (k : Z) : number :=
  match n with
  | Num z => of_Z (z + k)
  | _ => n
  end.

Definition sub (n : number) (k : Z) : number := add n (- k).

Definition isNaN (n : number) : bool :=
  match n with NaN => true | _ => false end.

(** [a <= b] on numbers; false when an operand is NaN. *)
Definition leb (a b : number) : bool :=
  match a, b with
  | NaN, _ | _, NaN => false
  | Infinity true, _ => true
  | _, Infinity false => true
  | Infinity false, _ => false
  | _, Infinity true => false
  | Num x, Num y => x <=? y
  end.

Definition ltb (a b : number) : bool :=
  match a, b with
  | NaN, _ | _, NaN => false
  | Infinity true, Infinity true => false
  | Infinity true, _ => true
  | Infinity false, _ => false
  | Num _, Infinity false => true
  | Num _, Infinity true => false
  | Num x, Num y => x <? y
  end.

Definition eqb (a b : number) : bool :=
  match a, b with
  | Num x, Num y => x =? y
  | Infinity s, Infinity t => Bool.eqb s t
  | _, _ => false
  end.

(** Value of a run of decimal digits, most significant first. *)
Definition digits_value (ds : jsstring) : Z :=
  fold_left (fun acc d => 10 * acc + (d - 48)) ds 0.

Fixpoint take_digits (s : jsstring) : jsstring :=
  match s with
  | c :: s' => if Char.is_digit c then c :: take_digits s' else []
  | [] => []
  end.

(** [parseInt(s, 10)]: leading white space is skipped, one sign is
    accepted, the longest run of decimal digits is read; no digit gives
    NaN.  The value is the double nearest to the integer read (every digit
    is read; the language lets an implementation approximate after the
    twentieth significant digit). *)
Definition parseInt (s : jsstring) : number :=
  let t := trimStart s in
  let negative := match t with c :: _ => c =? 45 | [] => false end in
  let body :=
    match t with
    | c :: t' => if (c =? 45) || (c =? 43) then t' else t
    | [] => t
    end in
  match take_digits body with
  | [] => NaN
  | ds => let v := round_nonneg (digits_value ds) in
          if negative then opp v else v
  end.

End Number.

(** ** Regular expressions

    The fragment of ECMAScript regular expressions the sources use, with the
    backtracking semantics of the language: alternatives are tried left to
    right, quantifiers are greedy, the search takes the leftmost start. *)

(** A character class as a list of inclusive ranges of code units. *)
Abbreviation charclass := (list (Z * Z)).

Module Regex.

Inductive regex : Type :=
| Eps                                (* the empty pattern *)
| Chr (c : Z)                        (* a pattern character *)
| Class (cl : charclass)             (* [...], \d, \w *)
| WordBoundary                       (* \b *)
| Seq (r1 r2 : regex)                (* r1 r2 *)
| Alt (r1 r2 : regex)                (* r1|r2 *)
| Opt (r : regex)                    (* r? *)
| PlusClass (cl : charclass)         (* [...]+, \d+, \s+ *)
| Group (i : nat) (r : regex).       (* the i-th capturing group *)

Definition digit : charclass := [(48, 57)].                          (* \d *)
Definition word : charclass := [(97, 122); (65, 90); (48, 57); (95, 95)]. (* \w *)
Definition space : charclass :=                                       (* \s *)
  [(0x09, 0x0D); (0x20, 0x20); (0xA0, 0xA0); (0x1680, 0x1680);
   (0x2000, 0x200A); (0x2028, 0x2029); (0x202F, 0x202F);
   (0x205F, 0x205F); (0x3000, 0x3000); (0xFEFF, 0xFEFF)].

(** The characters of a literal, in sequence. *)
Definition chars (cs : jsstring) : regex :=
  fold_right (fun c r => Seq (Chr c) r) Eps cs.

Definition str (s : string) : regex := chars (js s).

Definition in_class (cl : charclass) (c : Z) : bool :=
  existsb (fun '(lo, hi) => Char.in_range lo hi c) cl.

(** Canonicalize of a non-unicode pattern: with the [i] flag a code unit
    is compared through its upper-case form. *)
Definition canon (icase : bool) (c : Z) : Z :=
  if icase then Char.upper c else c.

Definition chr_match (icase : bool) (c x : Z) : bool :=
  canon icase x =? canon icase c.

(** With the [i] flag a class accepts [x] when it holds a character with
    the canonical form of [x]. *)
Definition class_match (icase : bool) (cl : charclass) (x : Z) : bool :=
  in_class cl x
  || (icase && (in_class cl (Char.lower x) || in_class cl (Char.upper x))).

Definition is_word_at (c : option Z) : bool :=
  match c with Some x => Char.is_word x | None => false end.

Abbreviation captures := (gmap nat jsstring).

Section Matcher.
Context {A : Type}.

(** A continuation receives the code unit before the current position,
    the rest of the input and the captures so far. *)
Definition cont : Type := option Z -> jsstring -> captures -> option A.

(** Greedy [cl*]: as many code units as possible, one fewer on failure
    of the continuation. *)
Fixpoint star (icase : bool) (cl : charclass) (prev : option Z)
    (s : jsstring) (caps : captures) (k : cont) : option A :=
  match s with
  | x :: s' =>
      if class_match icase cl x then
        match star icase cl (Some x) s' caps k with
        | Some a => Some a
        | None => k prev s caps
        end
      else k prev s caps
  | [] => k prev s caps
  end.

Fixpoint rmatch (icase : bool) (r : regex) (prev : option Z)
    (s : jsstring) (caps : captures) (k : cont) : option A :=
  match r with
  | Eps => k prev s caps
  | Chr c =>
      match s with
      | x :: s' => if chr_match icase c x then k (Some x) s' caps else None
      | [] => None
      end
  | Class cl =>
      match s with
      | x :: s' => if class_match icase cl x then k (Some x) s' caps else None
      | [] => None
      end
  | WordBoundary =>
      if xorb (is_word_at prev) (is_word_at (head s))
      then k prev s caps else None
  | Seq r1 r2 =>
      rmatch icase r1 prev s caps
        (fun prev' s' caps' => rmatch icase r2 prev' s' caps' k)
  | Alt r1 r2 =>
      match rmatch icase r1 prev s caps k with
      | Some a => Some a
      | None => rmatch icase r2 prev s caps k
      end
  | Opt r1 =>
      match rmatch icase r1 prev s caps k with
      | Some a => Some a
      | None => k prev s caps
      end
  | PlusClass cl =>
      match s with
      | x :: s' =>
          if class_match icase cl x
          then star icase cl (Some x) s' caps k else None
      | [] => None
      end
  | Group i r1 =>
      rmatch icase r1 prev s caps
        (fun prev' s' caps' =>
           k prev' s' (<[i := take (length s - length s') s]> caps'))
  end.
End Matcher.

(** A match attempt at the current position: the captures, the code unit
    before the end of the match and the input after it. *)
Definition match_here (icase : bool) (r : regex) (prev : option Z)
    (s : jsstring) : option (captures * option Z * jsstring) :=
  rmatch icase r prev s ∅ (fun prev' s' caps => Some (caps, prev', s')).

(** The leftmost match, searching from the current position on. *)
Fixpoint exec_from (icase : bool) (r : regex) (prev : option Z)
    (s : jsstring) : option captures :=
  match match_here icase r prev s with
  | Some (caps, _, _) => Some caps
  | None =>
      match s with
      | [] => None
      | x :: s' => exec_from icase r (Some x) s'
      end
  end.

(** [s.match(re)] for a pattern without the [g] flag: the captures of the
    leftmost match ([m[i]] is [caps !! i], undefined when absent) or null. *)
Definition exec (icase : bool) (r : regex) (s : jsstring) : option captures :=
  exec_from icase r None s.

(** [re.test(s)]. *)
Definition test (icase : bool) (r : regex) (s : jsstring) : bool :=
  match exec icase r s with Some _ => true | None => false end.

(** [s.replace(re, repl)] for a pattern with the [g] flag and a
    replacement without [$]: scan left to right, replace each match,
    step over one code unit after an empty match.  [fuel] bounds the
    number of steps; [S (length s)] is enough. *)
Fixpoint replace_from (fuel : nat) (icase : bool) (r : regex)
    (repl : jsstring) (prev : option Z) (s : jsstring) : jsstring :=
  match fuel with
  | O => s
  | S fuel' =>
      match match_here icase r prev s with
      | Some (_, prev', s') =>
          if (length s' <? length s)%nat
          then repl ++ replace_from fuel' icase r repl prev' s'
          else
            match s with
            | [] => repl
            | x :: t => repl ++ x :: replace_from fuel' icase r repl (Some x) t
            end
      | None =>
          match s with
          | [] => []
          | x :: t => x :: replace_from fuel' icase r repl (Some x) t
          end
      end
  end.

Definition replaceAll (icase : bool) (r : regex) (repl s : jsstring) : jsstring :=
  replace_from (S (length s)) icase r repl None s.

(** [s.split(/\s+/)]: the pieces between maximal runs of white space; a
    run at either end leaves an empty piece there. *)
Fixpoint split_space_from (piece : jsstring) (in_run : bool) (s : jsstring)
    : list jsstring :=
  match s with
  | [] => [rev piece]
  | x :: s' =>
      if class_match false space x then
        if in_run then split_space_from [] true s'
        else rev piece :: split_space_from [] true s'
      else split_space_from (x :: piece) false s'
  end.

Definition split_space (s : jsstring) : list jsstring :=
  split_space_from [] false s.

End Regex.

(** ** utils/analyzer.js *)

(** *** The digest of [crypto.createHash("sha256").update(value, "utf8")] *)

Module Utf8.

(** The scalar value of an element of the string iterator; a lone
    surrogate is encoded as U+FFFD. *)
Definition scalar (cp : jsstring) : Z :=
  match cp with
  | [h; l] => 0x10000 + Z.shiftl (h - 0xD800) 10 + (l - 0xDC00)
  | [c] => if Char.in_range 0xD800 0xDFFF c then 0xFFFD else c
  | _ => 0xFFFD
  end.

Definition tail_byte (v : Z) (shift : Z) : Z :=
  Z.lor 0x80 (Z.land (Z.shiftr v shift) 0x3F).

Definition encode_scalar (v : Z) : list Z :=
  if v <? 0x80 then [v]
  else if v <? 0x800 then [Z.lor 0xC0 (Z.shiftr v 6); tail_byte v 0]
  else if v <? 0x10000 then
    [Z.lor 0xE0 (Z.shiftr v 12); tail_byte v 6; tail_byte v 0]
  else
    [Z.lor 0xF0 (Z.shiftr v 18); tail_byte v 12; tail_byte v 6; tail_byte v 0].

Definition encode (s : jsstring) : list Z :=
  flat_map (fun cp => encode_scalar (scalar cp)) (codePoints s).

End Utf8.

Module Sha256.

(** 32-bit words are integers in [0, 2^32); sums wrap around. *)
Definition wrap (x : Z) : Z := Z.land x 0xFFFFFFFF.
Definition plus (x y : Z) : Z := wrap (x + y).

Definition rotr (n x : Z) : Z :=
  Z.lor (Z.shiftr x n) (wrap (Z.shiftl x (32 - n))).

Definition choose (e f g : Z) : Z :=
  Z.lxor (Z.land e f) (Z.land (Z.lxor e 0xFFFFFFFF) g).
Definition majority (a b c : Z) : Z :=
  Z.lxor (Z.lxor (Z.land a b) (Z.land a c)) (Z.land b c).

Definition big_sigma0 (x : Z) : Z := Z.lxor (Z.lxor (rotr 2 x) (rotr 13 x)) (rotr 22 x).
Definition big_sigma1 (x : Z) : Z := Z.lxor (Z.lxor (rotr 6 x) (rotr 11 x)) (rotr 25 x).
Definition small_sigma0 (x : Z) : Z := Z.lxor (Z.lxor (rotr 7 x) (rotr 18 x)) (Z.shiftr x 3).
Definition small_sigma1 (x : Z) : Z := Z.lxor (Z.lxor (rotr 17 x) (rotr 19 x)) (Z.shiftr x 10).

Definition round_constants : list Z :=
  [0x428A2F98; 0x71374491; 0xB5C0FBCF; 0xE9B5DBA5;
   0x3956C25B; 0x59F111F1; 0x923F82A4; 0xAB1C5ED5;
   0xD807AA98; 0x12835B01; 0x243185BE; 0x550C7DC3;
   0x72BE5D74; 0x80DEB1FE; 0x9BDC06A7; 0xC19BF174;
   0xE49B69C1; 0xEFBE4786; 0x0FC19DC6; 0x240CA1CC;
   0x2DE92C6F; 0x4A7484AA; 0x5CB0A9DC; 0x76F988DA;
   0x983E5152; 0xA831C66D; 0xB00327C8; 0xBF597FC7;
   0xC6E00BF3; 0xD5A79147; 0x06CA6351; 0x14292967;
   0x27B70A85; 0x2E1B2138; 0x4D2C6DFC; 0x53380D13;
   0x650A7354; 0x766A0ABB; 0x81C2C92E; 0x92722C85;
   0xA2BFE8A1; 0xA81A664B; 0xC24B8B70; 0xC76C51A3;
   0xD192E819; 0xD6990624; 0xF40E3585; 0x106AA070;
   0x19A4C116; 0x1E376C08; 0x2748774C; 0x34B0BCB5;
   0x391C0CB3; 0x4ED8AA4A; 0x5B9CCA4F; 0x682E6FF3;
   0x748F82EE; 0x78A5636F; 0x84C87814; 0x8CC70208;
   0x90BEFFFA; 0xA4506CEB; 0xBEF9A3F7; 0xC67178F2].

Definition initial_hash : list Z :=
  [0x6A09E667; 0xBB67AE85; 0x3C6EF372; 0xA54FF53A;
   0x510E527F; 0x9B05688C; 0x1F83D9AB; 0x5BE0CD19].

(** The message followed by the bit 1, zero bytes up to 56 modulo 64, and
    the length in bits as a 64-bit big-endian integer. *)
Definition be_bytes (count : nat) (x : Z) : list Z :=
  map (fun i => Z.land (Z.shiftr x (8 * Z.of_nat i)) 0xFF) (rev (seq 0 count)).

Definition pad (msg : list Z) : list Z :=
  let n := Z.of_nat (length msg) in
  let zeros := Z.to_nat ((55 - n) mod 64) in
  msg ++ [0x80] ++ repeat 0 zeros ++ be_bytes 8 (8 * n).

Fixpoint be_words (bytes : list Z) : list Z :=
  match bytes with
  | b0 :: b1 :: b2 :: b3 :: rest =>
      (Z.shiftl b0 24 + Z.shiftl b1 16 + Z.shiftl b2 8 + b3) :: be_words rest
  | _ => []
  end.

(** The message schedule, latest word first while it grows. *)
Fixpoint extend (count : nat) (latest_first : list Z) : list Z :=
  match count with
  | O => latest_first
  | S count' =>
      let w i := nth i latest_first 0 in
      extend count'
        (plus (plus (small_sigma1 (w 1%nat)) (w 6%nat))
              (plus (small_sigma0 (w 14%nat)) (w 15%nat)) :: latest_first)
  end.

Definition schedule (block : list Z) : list Z := rev (extend 48 (rev block)).

Definition state : Type := Z * Z * Z * Z * Z * Z * Z * Z.

Definition step (st : state) (kw : Z * Z) : state :=
  let '(a, b, c, d, e, f, g, h) := st in
  let '(k, w) := kw in
  let t1 := plus (plus (plus h (big_sigma1 e)) (plus (choose e f g) k)) w in
  let t2 := plus (big_sigma0 a) (majority a b c) in
  (plus t1 t2, a, b, c, plus d t1, e, f, g).

Definition compress (st : state) (block : list Z) : state :=
  let '(a, b, c, d, e, f, g, h) := st in
  let '(a', b', c', d', e', f', g', h') :=
    fold_left step (combine round_constants (schedule block)) st in
  (plus a a', plus b b', plus c c', plus d d',
   plus e e', plus f f', plus g g', plus h h').

Fixpoint blocks (count : nat) (words : list Z) : list (list Z) :=
  match count with
  | O => []
  | S count' => take 16 words :: blocks count' (drop 16 words)
  end.

Definition digest (msg : list Z) : list Z :=
  let words := be_words (pad msg) in
  let st0 :=
    match initial_hash with
    | [a; b; c; d; e; f; g; h] => (a, b, c, d, e, f, g, h)
    | _ => (0, 0, 0, 0, 0, 0, 0, 0)
    end in
  let '(a, b, c, d, e, f, g, h) :=
    fold_left compress (blocks (length words / 16) words) st0 in
  flat_map (be_bytes 4) [a; b; c; d; e; f; g; h].

Definition hex_digit (d : Z) : Z := if d <? 10 then 48 + d else 87 + d.

(** [digest("hex")]: two lower-case hexadecimal digits per byte. *)
Definition hex (bytes : list Z) : jsstring :=
  flat_map (fun b => [hex_digit (Z.shiftr b 4); hex_digit (Z.land b 15)]) bytes.

End Sha256.

(** [sha256Hex(value)] *)
Definition sha256Hex (value : jsstring) : jsstring :=
  Sha256.hex (Sha256.digest (Utf8.encode value)).

(** *** Values, exceptions *)

(** The JavaScript values the entry points can be handed; [Obj] is an
    object or an array, of which the sources read the type only. *)
Inductive jsvalue : Type :=
| Undefined
| Null
| Boolean (b : bool)
| Number (n : number)
| Str (s : jsstring)
| Obj.

Inductive exn : Type :=
| TypeError (message : string)
| Error (message : string) (code : option string).

(** A call returns or throws. *)
Inductive outcome (A : Type) : Type :=
| Return (a : A)
| Throw (e : exn).
Arguments Return {A} a.
Arguments Throw {A} e.

(** *** The analyzer *)

Record Properties : Type := mkProperties {
  p_length : nat;
  p_is_palindrome : bool;
  p_unique_characters : nat;
  p_word_count : nat;
  p_sha256_hash : jsstring;
  p_character_frequency_map : gmap jsstring nat
}.

(** [charFrequencyMap(value)]: the loop body [map[ch] = (map[ch] || 0) + 1]
    over the string iterator, from the empty object. *)
Definition count_char (map : gmap jsstring nat) (ch : jsstring) : gmap jsstring nat :=
  <[ch := (default 0 (map !! ch) + 1)%nat]> map.

Definition charFrequencyMap (value : jsstring) : gmap jsstring nat :=
  fold_left count_char (codePoints value) ∅.

(** [isPalindrome(value)] *)
Definition isPalindrome (value : jsstring) : bool :=
  let normalized :=
    toLowerCase (Regex.replaceAll false (Regex.PlusClass Regex.space) [] value) in
  let rev := join_empty (rev (split_empty normalized)) in
  string_eqb normalized rev.

(** [wordCount(value)] *)
Definition wordCount (value : jsstring) : nat :=
  if bool_decide (value = []) || bool_decide (trim value = []) then 0%nat
  else length (Regex.split_space (trim value)).

(** [analyze(value)] *)
Definition analyze (value : jsvalue) : outcome Properties :=
  match value with
  | Str value =>
      let hash := sha256Hex value in
      let freq := charFrequencyMap value in
      let unique := size freq in
      let words := wordCount value in
      let pal := isPalindrome value in
      Return {| p_length := length value;
                p_is_palindrome := pal;
                p_unique_characters := unique;
                p_word_count := words;
                p_sha256_hash := hash;
                p_character_frequency_map := freq |}
  | _ => Throw (TypeError "value must be a string")
  end.

(** *** The analyzer on the object store

    [charFrequencyMap] builds its map by mutation: [const map = {}] is a new
    object, [map[ch] = (map[ch] || 0) + 1] reads and writes it, and the
    object is returned inside the result of [analyze].  To state what a call
    reads and writes, the two functions are given once more over an explicit
    store of objects, which a call receives and hands on. *)
Module Objects.

(** An object of the store, by its own properties: the counts of a
    frequency map. *)
Abbreviation object := (gmap jsstring nat).

(** The objects allocated so far; the address of an object is its
    position. *)
Abbreviation heap := (list object).

(** [{}]: a new object, at an address that was not in use. *)
Definition alloc (h : heap) : nat * heap := (length h, h ++ [∅]).

(** [o[k]], undefined when [o] has no such property. *)
Definition get (h : heap) (o : nat) (k : jsstring) : option nat :=
  h !! o ≫= (fun props => props !! k).

(** [o[k] = v] *)
Definition set (h : heap) (o : nat) (k : jsstring) (v : nat) : heap :=
  alter (fun props => <[k := v]> props) o h.

(** [Object.keys(o).length] *)
Definition keys_length (h : heap) (o : nat) : nat :=
  match h !! o with
  | Some props => size props
  | None => 0%nat
  end.

(** [charFrequencyMap(value)]: the address of the new map, and the store
    after the loop. *)
Definition charFrequencyMap (value : jsstring) (h : heap) : nat * heap :=
  let '(map, h) := alloc h in
  (map,
   fold_left (fun h ch => set h map ch (default 0 (get h map ch) + 1)%nat)
     (codePoints value) h).

(** The object [analyze] returns: its scalar fields, and the address of the
    frequency map. *)
Record Result : Type := mkResult {
  r_length : nat;
  r_is_palindrome : bool;
  r_unique_characters : nat;
  r_word_count : nat;
  r_sha256_hash : jsstring;
  r_character_frequency_map : nat
}.

(** [analyze(value)] *)
Definition analyze (value : jsvalue) (h : heap) : outcome Result * heap :=
  match value with
  | Str value =>
      let hash := sha256Hex value in
      let '(freq, h) := charFrequencyMap value h in
      let unique := keys_length h freq in
      let words := wordCount value in
      let pal := isPalindrome value in
      (Return {| r_length := length value;
                 r_is_palindrome := pal;
                 r_unique_characters := unique;
                 r_word_count := words;
                 r_sha256_hash := hash;
                 r_character_frequency_map := freq |}, h)
  | _ => (Throw (TypeError "value must be a string"), h)
  end.

(** What a reader of the result sees in a store: the fields, with the
    properties of the map object. *)
Definition contents (h : heap) (r : Result) : option Properties :=
  match h !! r_character_frequency_map r with
  | Some props =>
      Some {| p_length := r_length r;
              p_is_palindrome := r_is_palindrome r;
              p_unique_characters := r_unique_characters r;
              p_word_count := r_word_count r;
              p_sha256_hash := r_sha256_hash r;
              p_character_frequency_map := props |}
  | None => None
  end.

End Objects.

(** ** The natural-language parser *)

(** The [parsed] object: each key is absent or holds one value. *)
Record FilterSpec : Type := mkFilterSpec {
  word_count : option number;
  is_palindrome : option bool;
  min_length : option number;
  max_length : option number;
  contains_character : option jsstring
}.

Module Parsed.

Definition empty : FilterSpec := mkFilterSpec None None None None None.

Definition set_word_count (n : number) (p : FilterSpec) : FilterSpec :=
  mkFilterSpec (Some n) (is_palindrome p) (min_length p) (max_length p)
    (contains_character p).
Definition set_is_palindrome (b : bool) (p : FilterSpec) : FilterSpec :=
  mkFilterSpec (word_count p) (Some b) (min_length p) (max_length p)
    (contains_character p).
Definition set_min_length (n : number) (p : FilterSpec) : FilterSpec :=
  mkFilterSpec (word_count p) (is_palindrome p) (Some n) (max_length p)
    (contains_character p).
Definition set_max_length (n : number) (p : FilterSpec) : FilterSpec :=
  mkFilterSpec (word_count p) (is_palindrome p) (min_length p) (Some n)
    (contains_character p).
Definition set_contains_character (c : jsstring) (p : FilterSpec) : FilterSpec :=
  mkFilterSpec (word_count p) (is_palindrome p) (min_length p) (max_length p)
    (Some c).

(** [Object.keys(parsed).length === 0] *)
Definition no_keys (p : FilterSpec) : bool :=
  match word_count p, is_palindrome p, min_length p, max_length p,
        contains_character p with
  | None, None, None, None, None => true
  | _, _, _, _, _ => false
  end.

End Parsed.

Definition query_must_be_non_empty : exn :=
  Error "Query must be a non-empty string" None.

Definition unparseable : exn :=
  Error "Unable to parse natural language query" (Some "UNPARSEABLE"%string).

(** [m[i]] of a match result, for a present group; the empty string when the
    group did not take part. *)
Definition capture (caps : gmap nat jsstring) (i : nat) : jsstring :=
  default [] (caps !! i).

Module Rules.
Import Regex.

Definition cat (rs : list regex) : regex := fold_right Seq Eps rs.

Definition dash_or_space : charclass := [(45, 45); (32, 32)].   (* [- ] *)

(** [/longer than (\d+)/] *)
Definition longer_than : regex :=
  cat [str "longer than "; Group 1 (PlusClass digit)].

(** [/shorter than (\d+)/] *)
Definition shorter_than : regex :=
  cat [str "shorter than "; Group 1 (PlusClass digit)].

(** [/\bfirst vowel\b/] *)
Definition first_vowel : regex :=
  cat [WordBoundary; str "first vowel"; WordBoundary].

(** The [min_length] step: [parseInt(m[1], 10)], then [n + 1] unless NaN. *)
Definition apply_longer (m : option (gmap nat jsstring)) (parsed : FilterSpec)
    : FilterSpec :=
  match m with
  | Some caps =>
      let n := Number.parseInt (capture caps 1) in
      if negb (Number.isNaN n)
      then Parsed.set_min_length (Number.add n 1) parsed else parsed
  | None => parsed
  end.

(** The [max_length] step: [parseInt(m[1], 10)], then [n - 1] unless NaN. *)
Definition apply_shorter (m : option (gmap nat jsstring)) (parsed : FilterSpec)
    : FilterSpec :=
  match m with
  | Some caps =>
      let n := Number.parseInt (capture caps 1) in
      if negb (Number.isNaN n)
      then Parsed.set_max_length (Number.sub n 1) parsed else parsed
  | None => parsed
  end.

End Rules.

(** *** First declaration of [parseNaturalLanguage]
    (letters only after "containing"; "first vowel" is a fallback) *)
Module NlParser1.
Import Regex Rules.

(** [/\b(?:single[- ]?word|one[- ]?word)\b/] *)
Definition single_word : regex :=
  cat [WordBoundary;
       Alt (cat [str "single"; Opt (Class dash_or_space); str "word"])
           (cat [str "one"; Opt (Class dash_or_space); str "word"]);
       WordBoundary].

(** [/\bpalindrom(?:e|ic)\b/] *)
Definition palindrome : regex :=
  cat [WordBoundary; str "palindrom"; Alt (str "e") (str "ic"); WordBoundary].

(** [/(?:containing the letter|containing|contains) ([a-z])/i] *)
Definition contains : regex :=
  cat [Alt (str "containing the letter") (Alt (str "containing") (str "contains"));
       Chr 32;
       Group 1 (Class [(97, 122)])].

Definition parseNaturalLanguage (query : jsvalue) : outcome FilterSpec :=
  match query with
  | Str query =>
      if bool_decide (trim query = []) then Throw query_must_be_non_empty
      else
        let q := toLowerCase query in
        let parsed := Parsed.empty in
        let parsed :=
          if test false single_word q
          then Parsed.set_word_count (Num 1) parsed else parsed in
        let parsed :=
          if test false palindrome q
          then Parsed.set_is_palindrome true parsed else parsed in
        let parsed := apply_longer (exec true longer_than q) parsed in
        let parsed := apply_shorter (exec true shorter_than q) parsed in
        let parsed :=
          match exec true contains q with
          | Some caps =>
              Parsed.set_contains_character (toLowerCase (capture caps 1)) parsed
          | None => parsed
          end in
        let parsed :=
          if test false first_vowel q then
            match contains_character parsed with
            | Some (_ :: _) => parsed        (* a non-empty string is truthy *)
            | _ => Parsed.set_contains_character (js "a") parsed
            end
          else parsed in
        if Parsed.no_keys parsed then Throw unparseable else Return parsed
  | _ => Throw query_must_be_non_empty
  end.

End NlParser1.

(** *** Second declaration of [parseNaturalLanguage]
    (any word character after "containing"; "first vowel" overwrites) *)
Module NlParser2.
Import Regex Rules.

(** [/\bsingle[- ]?word\b/] *)
Definition single_word : regex :=
  cat [WordBoundary; str "single"; Opt (Class dash_or_space); str "word";
       WordBoundary].

(** [/\bone[- ]word\b/] *)
Definition one_word : regex :=
  cat [WordBoundary; str "one"; Class dash_or_space; str "word"; WordBoundary].

(** [/\bpalindrom(e|ic|ic strings?)\b/] *)
Definition palindrome : regex :=
  cat [WordBoundary; str "palindrom";
       Group 1 (Alt (str "e")
                 (Alt (str "ic") (cat [str "ic string"; Opt (Chr 115)])));
       WordBoundary].

(** [/\bpalindromic\b/] *)
Definition palindromic : regex :=
  cat [WordBoundary; str "palindromic"; WordBoundary].

(** [/containing the letter (\w)|containing (\w)|contains (\w)/] *)
Definition contains : regex :=
  Alt (cat [str "containing the letter "; Group 1 (Class word)])
      (Alt (cat [str "containing "; Group 2 (Class word)])
           (cat [str "contains "; Group 3 (Class word)])).

(** The loop over [containsMatch[1..3]]: the first non-empty capture. *)
Fixpoint first_capture (caps : gmap nat jsstring) (groups : list nat)
    : option jsstring :=
  match groups with
  | [] => None
  | i :: groups' =>
      match caps !! i with
      | Some (c :: s) => Some (c :: s)
      | _ => first_capture caps groups'
      end
  end.

Definition parseNaturalLanguage (query : jsvalue) : outcome FilterSpec :=
  match query with
  | Str [] => Throw query_must_be_non_empty          (* [!query] *)
  | Str query =>
      let q := toLowerCase query in
      let parsed := Parsed.empty in
      let parsed :=
        if test false single_word q || test false one_word q
        then Parsed.set_word_count (Num 1) parsed else parsed in
      let parsed :=
        if test false palindrome q || test false palindromic q
        then Parsed.set_is_palindrome true parsed else parsed in
      let parsed := apply_longer (exec false longer_than q) parsed in
      let parsed := apply_shorter (exec false shorter_than q) parsed in
      let parsed :=
        match exec false contains q with
        | Some caps =>
            match first_capture caps [1; 2; 3]%nat with
            | Some c => Parsed.set_contains_character c parsed
            | None => parsed
            end
        | None => parsed
        end in
      let parsed :=
        if test false first_vowel q
        then Parsed.set_contains_character (js "a") parsed else parsed in
      if Parsed.no_keys parsed then Throw unparseable else Return parsed
  | _ => Throw query_must_be_non_empty
  end.

End NlParser2.

(** ** The store

    The persistence engine is an external collaborator.  What the controller
    relies on is modelled here: documents, the query objects the controller
    builds, and the evaluation of such a query by [find]. *)

Record Document : Type := mkDocument {
  doc_id : jsstring;
  doc_value : jsstring;
  doc_properties : Properties;
  doc_created_at : Z
}.

Module Store.

(** An operator object such as [{ $exists: true, $gt: 0 }] or
    [{ $gte: n, $lte: m }]. *)
Record operators : Type := mkOperators {
  op_exists : option bool;
  op_gt : option number;
  op_gte : option number;
  op_lte : option number
}.

Definition no_operators : operators := mkOperators None None None None.

(** The value a query object holds under a path. *)
Inductive condition : Type :=
| EqBoolean (b : bool)
| EqNumber (n : number)
| Operators (ops : operators).

(** A query object: dotted paths to conditions, all of which must hold. *)
Abbreviation query := (gmap jsstring condition).

Inductive field : Type :=
| FBoolean (b : bool)
| FNumber (n : number)
| FString (s : jsstring).

(** A path split at its dots. *)
Fixpoint split_dots (piece : jsstring) (path : jsstring) : list jsstring :=
  match path with
  | [] => [rev piece]
  | c :: path' =>
      if c =? 46 then rev piece :: split_dots [] path'
      else split_dots (c :: piece) path'
  end.

Definition of_nat (n : nat) : field := FNumber (Num (Z.of_nat n)).

(** The field of a document under a dotted path. *)
Definition lookup_path (doc : Document) (path : jsstring) : option field :=
  let p := doc_properties doc in
  match split_dots [] path with
  | [top] =>
      if string_eqb top (js "_id") then Some (FString (doc_id doc))
      else if string_eqb top (js "value") then Some (FString (doc_value doc))
      else if string_eqb top (js "created_at")
           then Some (FNumber (Num (doc_created_at doc)))
      else None
  | [top; name] =>
      if string_eqb top (js "properties") then
        if string_eqb name (js "length") then Some (of_nat (p_length p))
        else if string_eqb name (js "is_palindrome")
             then Some (FBoolean (p_is_palindrome p))
        else if string_eqb name (js "unique_characters")
             then Some (of_nat (p_unique_characters p))
        else if string_eqb name (js "word_count")
             then Some (of_nat (p_word_count p))
        else if string_eqb name (js "sha256_hash")
             then Some (FString (p_sha256_hash p))
        else None
      else None
  | [top; name; key] =>
      if string_eqb top (js "properties")
         && string_eqb name (js "character_frequency_map")
      then of_nat <$> p_character_frequency_map p !! key
      else None
  | _ => None
  end.

Definition number_of (f : option field) : option number :=
  match f with Some (FNumber n) => Some n | _ => None end.

(** One comparison operator against a field: a missing or non-numeric
    field fails it. *)
Definition compare (test : number -> number -> bool) (bound : option number)
    (f : option field) : bool :=
  match bound with
  | None => true
  | Some b =>
      match number_of f with Some n => test n b | None => false end
  end.

Definition holds (c : condition) (f : option field) : bool :=
  match c with
  | EqBoolean b =>
      match f with Some (FBoolean b') => Bool.eqb b' b | _ => false end
  | EqNumber n =>
      match f with Some (FNumber n') => Number.eqb n' n | _ => false end
  | Operators ops =>
      match op_exists ops with
      | Some e => Bool.eqb e (match f with Some _ => true | None => false end)
      | None => true
      end
      && compare (fun n b => Number.ltb b n) (op_gt ops) f
      && compare (fun n b => Number.leb b n) (op_gte ops) f
      && compare (fun n b => Number.leb n b) (op_lte ops) f
  end.

(** A document matches a query when every condition holds. *)
Definition matches (q : query) (doc : Document) : bool :=
  bool_decide (map_Forall (fun path c => holds c (lookup_path doc path) = true) q).

(** [.sort({ created_at: -1 })]: newest first. *)
Fixpoint insert_newest (d : Document) (sorted : list Document) : list Document :=
  match sorted with
  | [] => [d]
  | x :: rest =>
      if doc_created_at x <? doc_created_at d then d :: sorted
      else x :: insert_newest d rest
  end.

Definition sort_newest_first (docs : list Document) : list Document :=
  fold_right insert_newest [] docs.

(** [AnalyzedString.find(q).sort({ created_at: -1 })] *)
Definition find (store : list Document) (q : query) : list Document :=
  sort_newest_first (filter (fun doc => matches q doc = true) store).

End Store.

(** ** The controller *)

(** What a handler sends: [res.status(s).json({ error })], or the list
    body with [data] and [count] (the echo of the filters in the body is
    not part of the model). *)
Inductive response : Type :=
| JsonError (status : nat) (error : string)
| JsonList (status : nat) (data : list Document) (count : nat).

(** The query-string parameters of [GET /strings]: each is absent
    ([undefined]) or a string. *)
Record ReqQuery : Type := mkReqQuery {
  q_is_palindrome : option jsstring;
  q_min_length : option jsstring;
  q_max_length : option jsstring;
  q_word_count : option jsstring;
  q_contains_character : option jsstring
}.

(** A handler body runs on, or has returned a response. *)
Inductive step (A : Type) : Type :=
| Continue (a : A)
| Respond (r : response).
Arguments Continue {A} a.
Arguments Respond {A} r.

#[global] Instance step_bind : MBind step := fun A B f m =>
  match m with
  | Continue a => f a
  | Respond r => Respond r
  end.

Module Query.
Import Store.

Definition path_is_palindrome : jsstring := js "properties.is_palindrome".
Definition path_length : jsstring := js "properties.length".
Definition path_word_count : jsstring := js "properties.word_count".

(** [`properties.character_frequency_map.${ch}`] *)
Definition path_frequency (ch : jsstring) : jsstring :=
  js "properties.character_frequency_map." ++ ch.

(** [q[path] || {}] *)
Definition operators_at (q : query) (path : jsstring) : operators :=
  match q !! path with
  | Some (Operators ops) => ops
  | _ => no_operators
  end.

(** [q[path] = Object.assign(q[path] || {}, { $gte: n })] *)
Definition assign_gte (n : number) (path : jsstring) (q : query) : query :=
  let ops := operators_at q path in
  <[path := Operators (mkOperators (op_exists ops) (op_gt ops) (Some n) (op_lte ops))]> q.

(** [q[path] = Object.assign(q[path] || {}, { $lte: n })] *)
Definition assign_lte (n : number) (path : jsstring) (q : query) : query :=
  let ops := operators_at q path in
  <[path := Operators (mkOperators (op_exists ops) (op_gt ops) (op_gte ops) (Some n))]> q.

(** [{ $exists: true, $gt: 0 }] *)
Definition exists_positive : condition :=
  Operators (mkOperators (Some true) (Some (Num 0)) None None).

End Query.

(** *** The collection behind the item handlers *)

(** What an item handler sends: an error body, the conflict body with the
    identifier, a document body [{ id, value, properties, created_at }], no
    body at all, or, from the [catch] block, an error body whose message is
    the one of the validation error the model raised for a path of the
    schema (the text is the persistence library's). *)
Inductive item_response : Type :=
| ItemError (status : nat) (error : string)
| ItemConflict (status : nat) (error : string) (id : jsstring)
| ItemJson (status : nat) (doc : Document)
| ItemEmpty (status : nat)
| ItemInvalid (status : nat) (path : string).

(** [s] between double quotes, as in the messages about the "value" field. *)
Definition quoted (s : string) : string :=
  String "034"%char (s ++ String "034"%char EmptyString).

Module Collection.

(** [AnalyzedString.findById(id)]: the document whose [_id] is [id]. *)
Definition findById (store : list Document) (id : jsstring) : option Document :=
  List.find (fun d => string_eqb (doc_id d) id) store.

(** The validation of the schema in [models/stringModel.js]: every path is
    required.  [createString] sets each of them from [analyze], so the one
    that can fail is [value: { type: String, required: true }]: the required
    validator of a string path refuses the empty string.  The result is the
    path refused, if any. *)
Definition validate (doc : Document) : option string :=
  match doc_value doc with
  | [] => Some "value"%string
  | _ :: _ => None
  end.

(** [AnalyzedString.create(doc)], called for an [_id] the collection does
    not hold: the document is validated, then stored; a document that is
    refused raises the validation error and nothing is stored. *)
Definition create (store : list Document) (doc : Document)
    : string + list Document :=
  match validate doc with
  | Some path => inl path
  | None => inr (store ++ [doc])
  end.

(** The collection without the first document whose [_id] is [id]. *)
Fixpoint remove (id : jsstring) (store : list Document) : list Document :=
  match store with
  | [] => []
  | d :: rest =>
      if string_eqb (doc_id d) id then rest else d :: remove id rest
  end.

(** [AnalyzedString.findByIdAndDelete(id)]: the document found, if any, and
    the collection without it. *)
Definition findByIdAndDelete (store : list Document) (id : jsstring)
    : option Document * list Document :=
  (findById store id, remove id store).

End Collection.

(** *** First copy of the controller (status 422, filter character
    lower-cased) *)
Module Controller.
Import Store Query.

(** The validation and query construction of [getAllStrings], for a
    request whose parameters are strings (each key given once): there
    [typeof contains_character !== "string"] is false and only the length is
    tested.  [RequestController.build_query] below is the same code for any
    request, with that test. *)
Definition build_query (rq : ReqQuery) : step query :=
  q ← Continue (∅ : query);
  q ← match q_is_palindrome rq with
       | Some is_palindrome =>
           if negb (string_eqb is_palindrome (js "true"))
              && negb (string_eqb is_palindrome (js "false"))
           then Respond (JsonError 422 "is_palindrome must be true or false")
           else Continue (<[path_is_palindrome :=
                             EqBoolean (string_eqb is_palindrome (js "true"))]> q)
       | None => Continue q
       end;
  q ← match q_min_length rq with
       | Some min_length =>
           let n := Number.parseInt min_length in
           if Number.isNaN n
           then Respond (JsonError 422 "min_length must be integer")
           else Continue (assign_gte n path_length q)
       | None => Continue q
       end;
  q ← match q_max_length rq with
       | Some max_length =>
           let n := Number.parseInt max_length in
           if Number.isNaN n
           then Respond (JsonError 422 "max_length must be integer")
           else Continue (assign_lte n path_length q)
       | None => Continue q
       end;
  q ← match q_word_count rq with
       | Some word_count =>
           let n := Number.parseInt word_count in
           if Number.isNaN n
           then Respond (JsonError 422 "word_count must be integer")
           else Continue (<[path_word_count := EqNumber n]> q)
       | None => Continue q
       end;
  match q_contains_character rq with
  | Some contains_character =>
      if negb (length contains_character =? 1)%nat
      then Respond (JsonError 422 "contains_character must be a single character")
      else
        let ch := toLowerCase contains_character in
        Continue (<[path_frequency ch := exists_positive]> q)
  | None => Continue q
  end.

(** [getAllStrings(req, res)] *)
Definition getAllStrings (store : list Document) (rq : ReqQuery) : response :=
  match build_query rq with
  | Respond r => r
  | Continue q =>
      let docs := find store q in
      JsonList 200 docs (length docs)
  end.

(** The conversion of [parsed] in [filterByNaturalLanguage]. *)
Definition mongo_query (parsed : FilterSpec) : query :=
  let mongoQuery : query := ∅ in
  let mongoQuery :=
    match is_palindrome parsed with
    | Some b => <[path_is_palindrome := EqBoolean b]> mongoQuery
    | None => mongoQuery
    end in
  let mongoQuery :=
    match min_length parsed with
    | Some n => assign_gte n path_length mongoQuery
    | None => mongoQuery
    end in
  let mongoQuery :=
    match max_length parsed with
    | Some n => assign_lte n path_length mongoQuery
    | None => mongoQuery
    end in
  let mongoQuery :=
    match word_count parsed with
    | Some n => <[path_word_count := EqNumber n]> mongoQuery
    | None => mongoQuery
    end in
  match contains_character parsed with
  | Some c =>
      let ch := toLowerCase c in
      if (length ch =? 1)%nat
      then <[path_frequency ch := exists_positive]> mongoQuery
      else mongoQuery
  | None => mongoQuery
  end.

Section WithParser.
(** The parser the controller imports from the parser module. *)
Variable parseNaturalLanguage : jsvalue -> outcome FilterSpec.

(** [filterByNaturalLanguage(req, res)]; [q] is [req.query.query], absent or
    a string ([RequestController.filterByNaturalLanguage] below takes any
    value). *)
Definition filterByNaturalLanguage (store : list Document)
    (q : option jsstring) : response :=
  match q with
  | None | Some [] => JsonError 422 "query parameter is required"
  | Some q =>
      match parseNaturalLanguage (Str q) with
      | Throw (Error message (Some "UNPARSEABLE"%string)) =>
          JsonError 400 message
      | Throw (Error message _) | Throw (TypeError message) =>
          JsonError 500 message
      | Return parsed =>
          let docs := find store (mongo_query parsed) in
          JsonList 200 docs (length docs)
      end
  end.
End WithParser.

(** [createString(req, res)]; [value] is [req.body.value], [now] the time of
    the call.  The answer and the collection afterwards. *)
Definition createString (store : list Document) (value : jsvalue) (now : Z)
    : item_response * list Document :=
  match value with
  | Undefined | Null =>
      (ItemError 422 (quoted "value" ++ " field is required"), store)
  | Str value =>
      match analyze (Str value) with
      | Return properties =>
          let id := p_sha256_hash properties in
          match Collection.findById store id with
          | Some _ => (ItemConflict 409 "String already exists" id, store)
          | None =>
              let doc := mkDocument id value properties now in
              match Collection.create store doc with
              | inr store' => (ItemJson 201 doc, store')
              | inl path => (ItemInvalid 500 path, store)
              end
          end
      | Throw (TypeError message) | Throw (Error message _) =>
          (ItemError 500 message, store)
      end
  | _ => (ItemError 422 (quoted "value" ++ " must be a string"), store)
  end.

(** [getStringByValue(req, res)]; [raw] is [req.params.string_value], a
    string when present. *)
Definition getStringByValue (store : list Document) (raw : option jsstring)
    : item_response :=
  match raw with
  | None => ItemError 422 "Missing path parameter"
  | Some raw =>
      let id := sha256Hex raw in
      match Collection.findById store id with
      | None => ItemError 404 "String not found"
      | Some doc => ItemJson 200 doc
      end
  end.

(** [deleteString(req, res)] *)
Definition deleteString (store : list Document) (raw : option jsstring)
    : item_response * list Document :=
  match raw with
  | None => (ItemError 422 "Missing path parameter", store)
  | Some raw =>
      let id := sha256Hex raw in
      match Collection.findByIdAndDelete store id with
      | (None, _) => (ItemError 404 "String not found", store)
      | (Some _, store') => (ItemEmpty 204, store')
      end
  end.

End Controller.

(** *** Third copy of the controller (status 400, filter character used
    as given) *)
Module ControllerEarly.
Import Store Query.

Definition build_query (rq : ReqQuery) : step query :=
  q ← Continue (∅ : query);
  q ← match q_is_palindrome rq with
       | Some is_palindrome =>
           if negb (string_eqb is_palindrome (js "true"))
              && negb (string_eqb is_palindrome (js "false"))
           then Respond (JsonError 400 "is_palindrome must be true or false")
           else Continue (<[path_is_palindrome :=
                             EqBoolean (string_eqb is_palindrome (js "true"))]> q)
       | None => Continue q
       end;
  q ← match q_min_length rq with
       | Some min_length =>
           let n := Number.parseInt min_length in
           if Number.isNaN n
           then Respond (JsonError 400 "min_length must be integer")
           else Continue (assign_gte n path_length q)
       | None => Continue q
       end;
  q ← match q_max_length rq with
       | Some max_length =>
           let n := Number.parseInt max_length in
           if Number.isNaN n
           then Respond (JsonError 400 "max_length must be integer")
           else Continue (assign_lte n path_length q)
       | None => Continue q
       end;
  q ← match q_word_count rq with
       | Some word_count =>
           let n := Number.parseInt word_count in
           if Number.isNaN n
           then Respond (JsonError 400 "word_count must be integer")
           else Continue (<[path_word_count := EqNumber n]> q)
       | None => Continue q
       end;
  match q_contains_character rq with
  | Some contains_character =>
      if negb (length contains_character =? 1)%nat
      then Respond (JsonError 400 "contains_character must be a single character")
      else Continue (<[path_frequency contains_character := exists_positive]> q)
  | None => Continue q
  end.

Definition getAllStrings (store : list Document) (rq : ReqQuery) : response :=
  match build_query rq with
  | Respond r => r
  | Continue q =>
      let docs := find store q in
      JsonList 200 docs (length docs)
  end.

Definition mongo_query (parsed : FilterSpec) : query :=
  let mongoQuery : query := ∅ in
  let mongoQuery :=
    match is_palindrome parsed with
    | Some b => <[path_is_palindrome := EqBoolean b]> mongoQuery
    | None => mongoQuery
    end in
  let mongoQuery :=
    match min_length parsed with
    | Some n => assign_gte n path_length mongoQuery
    | None => mongoQuery
    end in
  let mongoQuery :=
    match max_length parsed with
    | Some n => assign_lte n path_length mongoQuery
    | None => mongoQuery
    end in
  let mongoQuery :=
    match word_count parsed with
    | Some n => <[path_word_count := EqNumber n]> mongoQuery
    | None => mongoQuery
    end in
  match contains_character parsed with
  | Some c => <[path_frequency c := exists_positive]> mongoQuery
  | None => mongoQuery
  end.

Section WithParser.
Variable parseNaturalLanguage : jsvalue -> outcome FilterSpec.

Definition filterByNaturalLanguage (store : list Document)
    (q : option jsstring) : response :=
  match q with
  | None | Some [] => JsonError 400 "query parameter is required"
  | Some q =>
      match parseNaturalLanguage (Str q) with
      | Throw (Error message (Some "UNPARSEABLE"%string)) =>
          JsonError 400 message
      | Throw (Error message _) | Throw (TypeError message) =>
          JsonError 500 message
      | Return parsed =>
          let docs := find store (mongo_query parsed) in
          JsonList 200 docs (length docs)
      end
  end.
End WithParser.

End ControllerEarly.

(** ** The handlers on requests as the framework parses them

    [req.query] holds a string under a key that the query string gives
    once; a key given several times, or with brackets, comes as an array or
    an object.  Of such a value the handlers read its type, whether its
    [length] is 1, and its conversion to a string (in [parseInt] and in a
    template literal), which throws a TypeError for an object whose
    [toString] and [valueOf] give no primitive value and is [None] then.
    [Controller] and [ControllerEarly] above are these handlers on string
    parameters. *)
Module Express.

Inductive param : Type :=
| PString (s : jsstring)
| POther (length_is_one : bool) (text : option jsstring).

(** [String(p)] *)
Definition to_string (p : param) : option jsstring :=
  match p with
  | PString s => Some s
  | POther _ text => text
  end.

(** The message of the TypeError of a conversion that fails (the text is
    the engine's); the handlers send it from their [catch] block. *)
Definition conversion_error : string :=
  "Cannot convert object to primitive value".

(** [p === s] for a string literal [s] *)
Definition strict_eq (p : param) (s : jsstring) : bool :=
  match p with
  | PString t => string_eqb t s
  | POther _ _ => false
  end.

(** [p.length !== 1] is false *)
Definition has_length_one (p : param) : bool :=
  match p with
  | PString s => (length s =? 1)%nat
  | POther length_is_one _ => length_is_one
  end.

(** [!p]: of these values the empty string alone is falsy. *)
Definition falsy (p : param) : bool :=
  match p with
  | PString [] => true
  | _ => false
  end.

(** The value as a function handed [p] sees it. *)
Definition to_value (p : param) : jsvalue :=
  match p with
  | PString s => Str s
  | POther _ _ => Obj
  end.

(** The array of the strings given under one key; its conversion to a
    string joins them with commas. *)
Fixpoint join_comma (items : list jsstring) : jsstring :=
  match items with
  | [] => []
  | [x] => x
  | x :: rest => x ++ 44 :: join_comma rest
  end.

Definition array (items : list jsstring) : param :=
  POther (length items =? 1)%nat (Some (join_comma items)).

(** [req.query] of [GET /strings]. *)
Record Query : Type := mkQuery {
  e_is_palindrome : option param;
  e_min_length : option param;
  e_max_length : option param;
  e_word_count : option param;
  e_contains_character : option param
}.

(** A request whose parameters are strings. *)
Definition of_strings (rq : ReqQuery) : Query :=
  {| e_is_palindrome := PString <$> q_is_palindrome rq;
     e_min_length := PString <$> q_min_length rq;
     e_max_length := PString <$> q_max_length rq;
     e_word_count := PString <$> q_word_count rq;
     e_contains_character := PString <$> q_contains_character rq |}.

End Express.

(** *** First copy of the controller *)
Module RequestController.
Import Store Query Express.

Definition build_query (rq : Express.Query) : step query :=
  q ← Continue (∅ : query);
  q ← match e_is_palindrome rq with
       | Some is_palindrome =>
           if negb (strict_eq is_palindrome (js "true"))
              && negb (strict_eq is_palindrome (js "false"))
           then Respond (JsonError 422 "is_palindrome must be true or false")
           else Continue (<[path_is_palindrome :=
                             EqBoolean (strict_eq is_palindrome (js "true"))]> q)
       | None => Continue q
       end;
  q ← match e_min_length rq with
       | Some min_length =>
           match to_string min_length with
           | Some text =>
               let n := Number.parseInt text in
               if Number.isNaN n
               then Respond (JsonError 422 "min_length must be integer")
               else Continue (assign_gte n path_length q)
           | None => Respond (JsonError 500 conversion_error)
           end
       | None => Continue q
       end;
  q ← match e_max_length rq with
       | Some max_length =>
           match to_string max_length with
           | Some text =>
               let n := Number.parseInt text in
               if Number.isNaN n
               then Respond (JsonError 422 "max_length must be integer")
               else Continue (assign_lte n path_length q)
           | None => Respond (JsonError 500 conversion_error)
           end
       | None => Continue q
       end;
  q ← match e_word_count rq with
       | Some word_count =>
           match to_string word_count with
           | Some text =>
               let n := Number.parseInt text in
               if Number.isNaN n
               then Respond (JsonError 422 "word_count must be integer")
               else Continue (<[path_word_count := EqNumber n]> q)
           | None => Respond (JsonError 500 conversion_error)
           end
       | None => Continue q
       end;
  match e_contains_character rq with
  | Some (PString contains_character) =>
      if negb (length contains_character =? 1)%nat
      then Respond (JsonError 422 "contains_character must be a single character")
      else
        let ch := toLowerCase contains_character in
        Continue (<[path_frequency ch := exists_positive]> q)
  | Some (POther _ _) =>     (* [typeof contains_character !== "string"] *)
      Respond (JsonError 422 "contains_character must be a single character")
  | None => Continue q
  end.

(** [getAllStrings(req, res)] *)
Definition getAllStrings (store : list Document) (rq : Express.Query) : response :=
  match build_query rq with
  | Respond r => r
  | Continue q =>
      let docs := find store q in
      JsonList 200 docs (length docs)
  end.

Section WithParser.
Variable parseNaturalLanguage : jsvalue -> outcome FilterSpec.

(** [filterByNaturalLanguage(req, res)]; [q] is [req.query.query]. *)
Definition filterByNaturalLanguage (store : list Document)
    (q : option param) : response :=
  match q with
  | None => JsonError 422 "query parameter is required"
  | Some q =>
      if falsy q then JsonError 422 "query parameter is required"
      else
        match parseNaturalLanguage (to_value q) with
        | Throw (Error message (Some "UNPARSEABLE"%string)) =>
            JsonError 400 message
        | Throw (Error message _) | Throw (TypeError message) =>
            JsonError 500 message
        | Return parsed =>
            let docs := find store (Controller.mongo_query parsed) in
            JsonList 200 docs (length docs)
        end
  end.
End WithParser.

End RequestController.

(** *** Third copy of the controller: no test of the type of
    [contains_character], which goes into the path as it converts to a
    string *)
Module RequestControllerEarly.
Import Store Query Express.

Definition build_query (rq : Express.Query) : step query :=
  q ← Continue (∅ : query);
  q ← match e_is_palindrome rq with
       | Some is_palindrome =>
           if negb (strict_eq is_palindrome (js "true"))
              && negb (strict_eq is_palindrome (js "false"))
           then Respond (JsonError 400 "is_palindrome must be true or false")
           else Continue (<[path_is_palindrome :=
                             EqBoolean (strict_eq is_palindrome (js "true"))]> q)
       | None => Continue q
       end;
  q ← match e_min_length rq with
       | Some min_length =>
           match to_string min_length with
           | Some text =>
               let n := Number.parseInt text in
               if Number.isNaN n
               then Respond (JsonError 400 "min_length must be integer")
               else Continue (assign_gte n path_length q)
           | None => Respond (JsonError 500 conversion_error)
           end
       | None => Continue q
       end;
  q ← match e_max_length rq with
       | Some max_length =>
           match to_string max_length with
           | Some text =>
               let n := Number.parseInt text in
               if Number.isNaN n
               then Respond (JsonError 400 "max_length must be integer")
               else Continue (assign_lte n path_length q)
           | None => Respond (JsonError 500 conversion_error)
           end
       | None => Continue q
       end;
  q ← match e_word_count rq with
       | Some word_count =>
           match to_string word_count with
           | Some text =>
               let n := Number.parseInt text in
               if Number.isNaN n
               then Respond (JsonError 400 "word_count must be integer")
               else Continue (<[path_word_count := EqNumber n]> q)
           | None => Respond (JsonError 500 conversion_error)
           end
       | None => Continue q
       end;
  match e_contains_character rq with
  | Some contains_character =>
      if negb (has_length_one contains_character)
      then Respond (JsonError 400 "contains_character must be a single character")
      else
        match to_string contains_character with
        | Some text => Continue (<[path_frequency text := exists_positive]> q)
        | None => Respond (JsonError 500 conversion_error)
        end
  | None => Continue q
  end.

Definition getAllStrings (store : list Document) (rq : Express.Query) : response :=
  match build_query rq with
  | Respond r => r
  | Continue q =>
      let docs := find store q in
      JsonList 200 docs (length docs)
  end.

Section WithParser.
Variable parseNaturalLanguage : jsvalue -> outcome FilterSpec.

Definition filterByNaturalLanguage (store : list Document)
    (q : option param) : response :=
  match q with
  | None => JsonError 400 "query parameter is required"
  | Some q =>
      if falsy q then JsonError 400 "query parameter is required"
      else
        match parseNaturalLanguage (to_value q) with
        | Throw (Error message (Some "UNPARSEABLE"%string)) =>
            JsonError 400 message
        | Throw (Error message _) | Throw (TypeError message) =>
            JsonError 500 message
        | Return parsed =>
            let docs := find store (ControllerEarly.mongo_query parsed) in
            JsonList 200 docs (length docs)
        end
  end.
End WithParser.

End RequestControllerEarly.

(** ** Notions used to state the properties *)

(** The sum of the counts of a frequency map. *)
Definition total_count (m : gmap jsstring nat) : nat :=
  map_fold (fun _ n acc => (n + acc)%nat) 0%nat m.

(** The number of elements of the string iterator equal to [ch]. *)
Definition occurrences (ch : jsstring) (value : jsstring) : nat :=
  length (filter (fun x => x = ch) (codePoints value)).

(** The palindrome property in the words of the specification: remove every
    white-space character, lower-case, compare with the reversal. *)
Definition strip_whitespace (value : jsstring) : jsstring :=
  filter (fun c => Char.is_space c = false) value.

Definition palindrome_normal_form (value : jsstring) : jsstring :=
  toLowerCase (strip_whitespace value).

Definition reads_same_backwards (value : jsstring) : Prop :=
  palindrome_normal_form value = rev (palindrome_normal_form value).

(** The code unit before the position reached after reading [s]. *)
Definition last_of (prev : option Z) (s : jsstring) : option Z :=
  fold_left (fun _ x => Some x) s prev.

(** Some match of [r] starts inside [pre], when [pre ++ rest] is searched. *)
Fixpoint matches_within (icase : bool) (r : Regex.regex) (prev : option Z)
    (pre rest : jsstring) : bool :=
  match pre with
  | [] => false
  | x :: pre' =>
      match Regex.match_here icase r prev (pre ++ rest) with
      | Some _ => true
      | None => matches_within icase r (Some x) pre' rest
      end
  end.

(** A non-empty run of decimal digits. *)
Definition decimal (ds : jsstring) : Prop :=
  ds ≠ [] ∧ Forall (fun c => Char.is_digit c = true) ds.

(** The rest of a sentence does not go on with a digit. *)
Definition no_digit_ahead (post : jsstring) : Prop :=
  match post with
  | c :: _ => Char.is_digit c = false
  | [] => True
  end.

(** Every count of a frequency map is strictly positive. *)
Definition positive_counts (m : gmap jsstring nat) : Prop :=
  forall k n, m !! k = Some n -> (0 < n)%nat.

(** The input after a maximal run of characters of a class. *)
Fixpoint skip_class (icase : bool) (cl : charclass) (s : jsstring) : jsstring :=
  match s with
  | x :: s' => if Regex.class_match icase cl x then skip_class icase cl s' else s
  | [] => []
  end.

(** *** The fields a sentence sets, rule by rule *)

Module Fields.
Import Regex Rules.

(** The number a "longer than" or "shorter than" rule reads, after [step]. *)
Definition number_after (icase : bool) (r : regex) (q : jsstring)
    (step : number -> number) : option number :=
  match exec icase r q with
  | Some caps => Some (step (Number.parseInt (capture caps 1)))
  | None => None
  end.

(** Some rule of the first parser matches the lower-cased sentence. *)
Definition recognized1 (q : jsstring) : bool :=
  test false NlParser1.single_word q || test false NlParser1.palindrome q
  || test true longer_than q || test true shorter_than q
  || test true NlParser1.contains q || test false first_vowel q.

(** The fields the first parser sets for a lower-cased sentence. *)
Definition fields1 (q : jsstring) : FilterSpec :=
  {| word_count := if test false NlParser1.single_word q then Some (Num 1) else None;
     is_palindrome := if test false NlParser1.palindrome q then Some true else None;
     min_length := number_after true longer_than q (fun n => Number.add n 1);
     max_length := number_after true shorter_than q (fun n => Number.sub n 1);
     contains_character :=
       match exec true NlParser1.contains q with
       | Some caps => Some (toLowerCase (capture caps 1))
       | None => if test false first_vowel q then Some (js "a") else None
       end |}.

(** Some rule of the second parser matches the lower-cased sentence. *)
Definition recognized2 (q : jsstring) : bool :=
  test false NlParser2.single_word q || test false NlParser2.one_word q
  || test false NlParser2.palindrome q || test false NlParser2.palindromic q
  || test false longer_than q || test false shorter_than q
  || test false NlParser2.contains q || test false first_vowel q.

(** The fields the second parser sets for a lower-cased sentence. *)
Definition fields2 (q : jsstring) : FilterSpec :=
  {| word_count :=
       if test false NlParser2.single_word q || test false NlParser2.one_word q
       then Some (Num 1) else None;
     is_palindrome :=
       if test false NlParser2.palindrome q || test false NlParser2.palindromic q
       then Some true else None;
     min_length := number_after false longer_than q (fun n => Number.add n 1);
     max_length := number_after false shorter_than q (fun n => Number.sub n 1);
     contains_character :=
       if test false first_vowel q then Some (js "a")
       else
         match exec false NlParser2.contains q with
         | Some caps => NlParser2.first_capture caps [1; 2; 3]%nat
         | None => None
         end |}.

End Fields.

(** [analyze(s).is_palindrome] is [b]. *)
Definition palindrome_of (s : jsstring) (b : bool) : Prop :=
  exists p, analyze (Str s) = Return p /\ p_is_palindrome p = b.

(** The three phrasings of the "containing" rule, up to the character. *)
Definition containing_phrases : list jsstring :=
  [js "containing the letter "; js "containing "; js "contains "].

(** The lower-case letters and the decimal digits, listed. *)
Definition lower_letters : list Z := map Z.of_nat (seq 97 26).
Definition decimal_digits : list Z := map Z.of_nat (seq 48 10).

(** The document [createString] stores for [value] at time [now]:
    [{ _id: id, value, properties, created_at }] with
    [properties = analyze(value)] and [id = properties.sha256_hash]. *)
Definition stored_document (value : jsstring) (now : Z) : option Document :=
  match analyze (Str value) with
  | Return properties => Some (mkDocument (p_sha256_hash properties) value properties now)
  | Throw _ => None
  end.

(** The request and the filter that set [contains_character] alone. *)
Definition only_contains (ch : jsstring) : ReqQuery :=
  mkReqQuery None None None None (Some ch).

Definition filter_contains (ch : jsstring) : FilterSpec :=
  mkFilterSpec None None None None (Some ch).

(** The frequency map of a document has a strictly positive count under
    the key [ch]. *)
Definition positive_entry (doc : Document) (ch : jsstring) : Prop :=
  exists n, p_character_frequency_map (doc_properties doc) !! ch = Some n /\ (0 < n)%nat.

(** Query-string parameters that carry the field values of a filter: the
    same fields are present, a boolean is written "true" or "false", a number
    parameter parses to the number of the filter, the character is the same. *)
Definition same_fields (rq : ReqQuery) (fs : FilterSpec) : Prop :=
  q_is_palindrome rq
    = (fun b : bool => if b then js "true" else js "false") <$> is_palindrome fs
  /\ Number.parseInt <$> q_min_length rq = min_length fs
  /\ Number.parseInt <$> q_max_length rq = max_length fs
  /\ Number.parseInt <$> q_word_count rq = word_count fs
  /\ q_contains_character rq = contains_character fs.

(** What the parsers guarantee of the filters they return: no number is
    NaN and the character is one code unit. *)
Definition well_formed (fs : FilterSpec) : Prop :=
  (forall n, word_count fs = Some n -> Number.isNaN n = false)
  /\ (forall n, min_length fs = Some n -> Number.isNaN n = false)
  /\ (forall n, max_length fs = Some n -> Number.isNaN n = false)
  /\ (forall c, contains_character fs = Some c -> length c = 1%nat).

(** *** Notions for the further properties *)

(** The number of words of a string: the positions where a character that
    is not white space follows white space or starts the string.
    [after_space] tells which of the two the previous position was. *)
Fixpoint word_starts_from (after_space : bool) (s : jsstring) : nat :=
  match s with
  | [] => 0%nat
  | c :: s' =>
      if Char.is_space c then word_starts_from true s'
      else ((if after_space then 1 else 0) + word_starts_from false s')%nat
  end.

Definition word_starts (s : jsstring) : nat := word_starts_from true s.

(** The starts of white-space runs, the way [split] meets them. *)
Fixpoint run_starts_from (in_run : bool) (s : jsstring) : nat :=
  match s with
  | [] => 0%nat
  | c :: s' =>
      if Char.is_space c
      then ((if in_run then 0 else 1) + run_starts_from true s')%nat
      else run_starts_from false s'
  end.

(** A lower-case hexadecimal digit. *)
Definition is_hex_lower (c : Z) : bool :=
  Char.is_digit c || Char.in_range 97 102 c.

(** A filter against the properties of a record, field by field: every
    constraint that is present must hold; the character is looked up in its
    lower-case form. *)
Definition satisfies (fs : FilterSpec) (p : Properties) : bool :=
  match is_palindrome fs with
  | Some b => Bool.eqb (p_is_palindrome p) b
  | None => true
  end
  && match min_length fs with
     | Some n => Number.leb n (Num (Z.of_nat (p_length p)))
     | None => true
     end
  && match max_length fs with
     | Some n => Number.leb (Num (Z.of_nat (p_length p))) n
     | None => true
     end
  && match word_count fs with
     | Some n => Number.eqb (Num (Z.of_nat (p_word_count p))) n
     | None => true
     end
  && match contains_character fs with
     | Some c =>
         match p_character_frequency_map p !! toLowerCase c with
         | Some n => (0 <? n)%nat
         | None => false
         end
     | None => true
     end.

(** A character that is an ordinary key of a store path: one Basic Latin
    code unit, neither the separator [.] nor [$]. *)
Definition plain_key (c : jsstring) : Prop :=
  exists x, c = [x] /\ 0 <= x < 128 /\ x <> 46 /\ x <> 36.

(** The filter that query-string parameters ask for. *)
Definition requested (rq : ReqQuery) : FilterSpec :=
  {| word_count := Number.parseInt <$> q_word_count rq;
     is_palindrome := (fun s => string_eqb s (js "true")) <$> q_is_palindrome rq;
     min_length := Number.parseInt <$> q_min_length rq;
     max_length := Number.parseInt <$> q_max_length rq;
     contains_character := q_contains_character rq |}.

Definition numeric (param : option jsstring) : bool :=
  match param with
  | Some s => negb (Number.isNaN (Number.parseInt s))
  | None => true
  end.

(** The parameters [getAllStrings] accepts. *)
Definition valid_request (rq : ReqQuery) : bool :=
  match q_is_palindrome rq with
  | Some s => string_eqb s (js "true") || string_eqb s (js "false")
  | None => true
  end
  && numeric (q_min_length rq) && numeric (q_max_length rq)
  && numeric (q_word_count rq)
  && match q_contains_character rq with
     | Some c => (length c =? 1)%nat
     | None => true
     end.

(** A numeric parameter as Express hands it: absent, or a value that
    converts to a string from which [parseInt] reads a number. *)
Definition numeric_param (param : option Express.param) : bool :=
  match param with
  | Some p =>
      match Express.to_string p with
      | Some text => negb (Number.isNaN (Number.parseInt text))
      | None => false
      end
  | None => true
  end.

(** The requests a copy of [getAllStrings] accepts; [typed] tells whether
    the copy tests that [contains_character] is a string. *)
Definition accepts (typed : bool) (rq : Express.Query) : bool :=
  match Express.e_is_palindrome rq with
  | Some p => Express.strict_eq p (js "true") || Express.strict_eq p (js "false")
  | None => true
  end
  && numeric_param (Express.e_min_length rq)
  && numeric_param (Express.e_max_length rq)
  && numeric_param (Express.e_word_count rq)
  && match Express.e_contains_character rq with
     | Some (Express.PString s) => (length s =? 1)%nat
     | Some (Express.POther length_is_one text) =>
         negb typed && length_is_one
         && match text with Some _ => true | None => false end
     | None => true
     end.

(** Newest first. *)
Definition newer_or_equal (a b : Document) : Prop :=
  doc_created_at b <= doc_created_at a.

(** The list body of a handler holds exactly the documents of [store] that
    [keep] accepts, newest first, with their number. *)
Definition lists (r : response) (store : list Document) (keep : Document -> bool)
    : Prop :=
  exists data,
    r = JsonList 200 data (length data)
    /\ Permutation data (filter (fun d => keep d = true) store)
    /\ StronglySorted newer_or_equal data.





(** No code unit of the string is an upper-case letter, as after
    [toLowerCase]. *)
Definition lowered (s : jsstring) : Prop :=
  Forall (fun c => Char.is_upper c = false) s.

(** A string of Basic Latin code units, on which the case mapping of the
    runtime is the letter-by-letter one of [Char.lower]. *)
Definition basic_latin (s : jsstring) : Prop :=
  Forall (fun c => 0 <= c < 128) s.

(** The same with any white space between: white-space characters have no
    case, so the runtime leaves them as [Char.lower] does. *)
Definition basic_latin_or_space (s : jsstring) : Prop :=
  Forall (fun c => 0 <= c < 128 \/ Char.is_space c = true) s.


(** The phrasings of the two keyword rules that both declarations know. *)
Definition single_word_phrases : list jsstring :=
  [js "single word"; js "single-word"; js "singleword"; js "one word"; js "one-word"].

Definition palindrome_phrases : list jsstring :=
  [js "palindrome"; js "palindromic"].

(** A phrase between [pre] and [post] stands as a word of its own: no word
    character touches it on either side. *)
Definition stands_alone (pre post : jsstring) : Prop :=
  Regex.is_word_at (last_of None pre) = false
  /\ Regex.is_word_at (head post) = false.

(** ** Properties of the string primitives *)

Lemma string_eqb_eq (a b : jsstring) : string_eqb a b = true <-> a = b.
Proof.
  revert b. induction a as [|x a IH]; intros [|y b]; cbn [string_eqb];
    try (split; [discriminate | discriminate]); [split; reflexivity|].
  rewrite andb_true_iff, Z.eqb_eq, IH. split.
  - intros [-> ->]. reflexivity.
  - intros [= -> ->]. split; reflexivity.
Qed.

(** Induction that follows the string iterator: one or two code units at a
    time. *)
Lemma iterator_ind (P : jsstring -> Prop) :
  P [] ->
  (forall h, P [h]) ->
  (forall h l t, P t -> P (l :: t) -> P (h :: l :: t)) ->
  forall s, P s.
Proof.
  intros H0 H1 H2 s.
  assert (P s /\ forall h, P (h :: s)) as [Hs _]; [|exact Hs].
  induction s as [|l t [IHt IHlt]]; split; auto.
Qed.

Lemma codePoints_step h l t :
  codePoints (h :: l :: t) =
  if Char.is_high_surrogate h && Char.is_low_surrogate l
  then [h; l] :: codePoints t else [h] :: codePoints (l :: t).
Proof. reflexivity. Qed.

Lemma surrogatePairs_step h l t :
  surrogatePairs (h :: l :: t) =
  if Char.is_high_surrogate h && Char.is_low_surrogate l
  then S (surrogatePairs t) else surrogatePairs (l :: t).
Proof. reflexivity. Qed.

Lemma codePoints_units (s : jsstring) :
  length s = (length (codePoints s) + surrogatePairs s)%nat.
Proof.
  induction s as [|h|h l t IHt IHlt] using iterator_ind; try reflexivity.
  rewrite codePoints_step, surrogatePairs_step.
  destruct (Char.is_high_surrogate h && Char.is_low_surrogate l).
  - cbn [length] in *. lia.
  - cbn [length] in *. lia.
Qed.

Lemma codePoints_concat (s : jsstring) : concat (codePoints s) = s.
Proof.
  induction s as [|h|h l t IHt IHlt] using iterator_ind; try reflexivity.
  rewrite codePoints_step.
  destruct (Char.is_high_surrogate h && Char.is_low_surrogate l);
    cbn [concat app]; congruence.
Qed.

Lemma surrogatePairs_none (s : jsstring) :
  Forall (fun c => Char.is_high_surrogate c = false) s ->
  surrogatePairs s = 0%nat.
Proof.
  induction s as [|h|h l t IHt IHlt] using iterator_ind; try reflexivity.
  intros Hs. rewrite surrogatePairs_step.
  inversion Hs as [|? ? Hh Ht]; subst. rewrite Hh. apply IHlt, Ht.
Qed.

(** ** Properties of [charFrequencyMap] *)

Lemma total_count_empty : total_count ∅ = 0%nat.
Proof. unfold total_count. apply map_fold_empty. Qed.

Lemma total_count_insert_fresh (m : gmap jsstring nat) ch n :
  m !! ch = None -> total_count (<[ch := n]> m) = (n + total_count m)%nat.
Proof.
  intros Hm. unfold total_count.
  rewrite map_fold_insert_L; [reflexivity | intros; lia | assumption].
Qed.

Lemma total_count_count_char (m : gmap jsstring nat) ch :
  total_count (count_char m ch) = S (total_count m).
Proof.
  unfold count_char. destruct (m !! ch) as [n|] eqn:Hm; simpl.
  - rewrite <- insert_delete_eq.
    rewrite total_count_insert_fresh by apply lookup_delete_eq.
    rewrite <- (insert_delete_id m ch n Hm) at 2.
    rewrite total_count_insert_fresh by apply lookup_delete_eq. lia.
  - rewrite total_count_insert_fresh by assumption. lia.
Qed.

Lemma total_count_fold (l : list jsstring) (m : gmap jsstring nat) :
  total_count (fold_left count_char l m) = (length l + total_count m)%nat.
Proof.
  revert m. induction l as [|ch l IH]; intros m; simpl; [reflexivity|].
  rewrite IH, total_count_count_char. lia.
Qed.

Lemma count_char_lookup (m : gmap jsstring nat) ch k :
  default 0%nat (count_char m ch !! k) =
  ((if bool_decide (ch = k) then 1 else 0) + default 0%nat (m !! k))%nat.
Proof.
  unfold count_char. case_bool_decide as Hk.
  - subst. rewrite lookup_insert_eq. simpl. lia.
  - rewrite lookup_insert_ne by assumption. reflexivity.
Qed.

Lemma count_char_positive (m : gmap jsstring nat) ch :
  positive_counts m -> positive_counts (count_char m ch).
Proof.
  intros Hm k n. unfold count_char.
  destruct (decide (ch = k)) as [->|Hk].
  - rewrite lookup_insert_eq. intros [= <-]. lia.
  - rewrite lookup_insert_ne by assumption. apply Hm.
Qed.

Lemma fold_count_char_positive (l : list jsstring) (m : gmap jsstring nat) :
  positive_counts m -> positive_counts (fold_left count_char l m).
Proof.
  revert m. induction l as [|ch l IH]; intros m Hm; simpl; [assumption|].
  apply IH, count_char_positive, Hm.
Qed.

Lemma fold_count_char_lookup (l : list jsstring) (m : gmap jsstring nat) k :
  default 0%nat (fold_left count_char l m !! k) =
  (length (filter (fun x => x = k) l) + default 0%nat (m !! k))%nat.
Proof.
  revert m. induction l as [|ch l IH]; intros m; simpl; [reflexivity|].
  rewrite IH, count_char_lookup. rewrite filter_cons.
  destruct (decide (ch = k)) as [->|Hk].
  - rewrite bool_decide_eq_true_2 by reflexivity. simpl. lia.
  - rewrite bool_decide_eq_false_2 by assumption. simpl. lia.
Qed.

Lemma charFrequencyMap_lookup (value : jsstring) (ch : jsstring) :
  charFrequencyMap value !! ch =
  match occurrences ch value with
  | O => None
  | S n => Some (S n)
  end.
Proof.
  unfold charFrequencyMap, occurrences.
  pose proof (fold_count_char_lookup (codePoints value) ∅ ch) as Hc.
  pose proof (fold_count_char_positive (codePoints value) ∅) as Hp.
  rewrite lookup_empty in Hc. simpl in Hc. rewrite Nat.add_0_r in Hc.
  destruct (fold_left count_char (codePoints value) ∅ !! ch) as [n|] eqn:Hl;
    simpl in Hc; rewrite <- Hc.
  - assert (0 < n)%nat by (eapply Hp; [intros ? ?; rewrite lookup_empty; discriminate | eassumption]).
    destruct n; [lia | reflexivity].
  - reflexivity.
Qed.

(** ** Properties of [trim] and [toLowerCase] *)

Lemma trimStart_head s :
  match trimStart s with c :: _ => Char.is_space c = false | [] => True end.
Proof.
  induction s as [|c s IH]; simpl; [exact I|].
  destruct (Char.is_space c) eqn:Hc; [exact IH | exact Hc].
Qed.

Lemma trimStart_nil s :
  trimStart s = [] -> Forall (fun c => Char.is_space c = true) s.
Proof.
  induction s as [|c s IH]; simpl; [constructor|].
  destruct (Char.is_space c) eqn:Hc; [|discriminate].
  intros H. constructor; auto.
Qed.

Lemma trim_nil s : trim s = [] -> Forall (fun c => Char.is_space c = true) s.
Proof.
  unfold trim, trimEnd. intros H.
  apply (f_equal (@rev Z)) in H. rewrite rev_involutive in H. cbn [rev] in H.
  apply trimStart_nil in H. apply Forall_rev in H. rewrite rev_involutive in H.
  pose proof (trimStart_head s) as Hh.
  destruct (trimStart s) as [|c t] eqn:Ht.
  - apply trimStart_nil, Ht.
  - inversion H; congruence.
Qed.

Lemma lower_space c : Char.is_space (Char.lower c) = Char.is_space c.
Proof.
  unfold Char.lower, Char.is_upper, Char.in_range.
  destruct (Z.leb_spec 65 c); [|reflexivity].
  destruct (Z.leb_spec c 90); [|reflexivity]. cbn [andb].
  unfold Char.is_space, Char.in_range. cbn [existsb].
  repeat match goal with
         | |- context [?a =? ?k] =>
             replace (a =? k) with false by (symmetry; apply Z.eqb_neq; lia)
         end.
  cbn [orb].
  replace (8192 <=? c + 32) with false by (symmetry; apply Z.leb_gt; lia).
  replace (8192 <=? c) with false by (symmetry; apply Z.leb_gt; lia).
  reflexivity.
Qed.

(** A sentence whose lower-case form holds a character that is not white
    space is not empty after trimming. *)
Lemma not_blank (s : jsstring) (x : Z) :
  In x (toLowerCase s) -> Char.is_space x = false -> trim s <> [].
Proof.
  intros Hin Hx Ht. apply trim_nil in Ht.
  unfold toLowerCase in Hin. apply in_map_iff in Hin as (y & <- & Hy).
  rewrite Forall_forall in Ht. apply list_elem_of_In in Hy.
  specialize (Ht y Hy). rewrite lower_space in Hx. congruence.
Qed.

(** ** Properties of the matcher *)

Lemma class_match_space (c : Z) :
  Regex.class_match false Regex.space c = Char.is_space c.
Proof.
  unfold Regex.class_match, Regex.in_class, Regex.space, Char.is_space,
    Char.in_range. cbn [existsb andb orb].
  rewrite !orb_false_r.
  apply eq_true_iff_eq.
  rewrite ?orb_true_iff, ?andb_true_iff, ?Z.leb_le, ?Z.eqb_eq. lia.
Qed.

Lemma class_match_digit (icase : bool) (c : Z) :
  Regex.class_match icase Regex.digit c = Char.is_digit c.
Proof.
  unfold Regex.class_match, Regex.in_class, Regex.digit, Char.is_digit,
    Char.lower, Char.upper, Char.is_upper, Char.is_lower, Char.in_range.
  cbn [existsb]. rewrite !orb_false_r.
  destruct icase; cbn [andb orb]; [|apply orb_false_r].
  apply eq_true_iff_eq.
  destruct (Z.leb_spec 65 c), (Z.leb_spec c 90), (Z.leb_spec 97 c),
    (Z.leb_spec c 122); cbn [andb];
    rewrite ?orb_true_iff, ?andb_true_iff, ?Z.leb_le; lia.
Qed.

Lemma skip_class_length icase cl s :
  (length (skip_class icase cl s) <= length s)%nat.
Proof.
  induction s as [|x s IH]; simpl; [lia|].
  destruct (Regex.class_match icase cl x); simpl; lia.
Qed.

(** On the final continuation the greedy loop stops after the whole run. *)
Lemma star_final icase cl prev s caps :
  exists prev',
    Regex.star icase cl prev s caps (fun p s' c => Some (c, p, s')) =
    Some (caps, prev', skip_class icase cl s).
Proof.
  revert prev. induction s as [|x s IH]; intros prev; simpl.
  - eauto.
  - destruct (Regex.class_match icase cl x); [|eauto].
    destruct (IH (Some x)) as [p' ->]. eauto.
Qed.

Lemma strip_whitespace_skip s :
  strip_whitespace (skip_class false Regex.space s) = strip_whitespace s.
Proof.
  unfold strip_whitespace.
  induction s as [|x s IH]; simpl; [reflexivity|].
  destruct (Regex.class_match false Regex.space x) eqn:Hx; [|reflexivity].
  rewrite class_match_space in Hx.
  rewrite IH, filter_cons_False; [reflexivity | congruence].
Qed.

Lemma replace_from_space fuel prev s :
  (length s < fuel)%nat ->
  Regex.replace_from fuel false (Regex.PlusClass Regex.space) [] prev s =
  strip_whitespace s.
Proof.
  revert prev s. induction fuel as [|fuel IH]; intros prev s Hfuel; [lia|].
  destruct s as [|x s]; [reflexivity|].
  cbn [Regex.replace_from Regex.match_here Regex.rmatch].
  pose proof (class_match_space x) as Hsp.
  destruct (Regex.class_match false Regex.space x) eqn:Hx.
  - destruct (star_final false Regex.space (Some x) s ∅) as [p' ->].
    pose proof (skip_class_length false Regex.space s) as Hlen.
    replace (length (skip_class false Regex.space s) <? length (x :: s))%nat
      with true by (symmetry; apply Nat.ltb_lt; simpl; lia).
    rewrite IH by (simpl in Hfuel; lia).
    rewrite strip_whitespace_skip. unfold strip_whitespace.
    rewrite filter_cons_False; [reflexivity | congruence].
  - rewrite IH by (simpl in Hfuel; lia). unfold strip_whitespace.
    rewrite filter_cons_True; [reflexivity | congruence].
Qed.

Lemma replaceAll_space s :
  Regex.replaceAll false (Regex.PlusClass Regex.space) [] s = strip_whitespace s.
Proof. apply replace_from_space. lia. Qed.

Lemma join_rev_split s : join_empty (rev (split_empty s)) = rev s.
Proof.
  unfold join_empty, split_empty.
  induction s as [|c s IH]; [reflexivity|].
  cbn [map rev]. rewrite concat_app, IH. reflexivity.
Qed.

Lemma isPalindrome_spec (value : jsstring) :
  isPalindrome value = true <-> reads_same_backwards value.
Proof.
  unfold isPalindrome, reads_same_backwards, palindrome_normal_form.
  rewrite replaceAll_space, join_rev_split. apply string_eqb_eq.
Qed.

(** ** Properties of [parseInt] on a run of digits *)

Lemma digit_not_space c : Char.is_digit c = true -> Char.is_space c = false.
Proof.
  unfold Char.is_digit, Char.is_space, Char.in_range. cbn [existsb].
  rewrite andb_true_iff, !Z.leb_le. intros [? ?].
  repeat match goal with
         | |- context [c =? ?k] => replace (c =? k) with false by (symmetry; apply Z.eqb_neq; lia)
         end.
  cbn [orb]. apply andb_false_iff. left. apply Z.leb_gt. lia.
Qed.

Lemma take_digits_all ds :
  Forall (fun c => Char.is_digit c = true) ds -> Number.take_digits ds = ds.
Proof.
  induction 1 as [|c ds Hc _ IH]; simpl; [reflexivity|].
  rewrite Hc, IH. reflexivity.
Qed.

Lemma parseInt_decimal ds :
  decimal ds -> Number.parseInt ds = Number.round_nonneg (Number.digits_value ds).
Proof.
  intros [Hne Hds]. destruct ds as [|c ds]; [congruence|].
  inversion Hds as [|? ? Hc Hrest]; subst.
  unfold Number.parseInt. cbn [trimStart].
  rewrite (digit_not_space c Hc).
  assert (((c =? 45) = false) /\ ((c =? 43) = false)) as [-> ->].
  { unfold Char.is_digit, Char.in_range in Hc.
    apply andb_true_iff in Hc as [?%Z.leb_le ?%Z.leb_le].
    split; apply Z.eqb_neq; lia. }
  cbn [orb]. rewrite (take_digits_all (c :: ds) Hds). reflexivity.
Qed.

Lemma round_nonneg_not_NaN z : Number.isNaN (Number.round_nonneg z) = false.
Proof.
  unfold Number.round_nonneg. destruct (z <? 2 ^ 53); [reflexivity|].
  cbv zeta. match goal with |- context [if ?b then Infinity false else _] => destruct b end;
    reflexivity.
Qed.

Lemma round_nonneg_exact z : z < 2 ^ 53 -> Number.round_nonneg z = Num z.
Proof.
  intros Hz. unfold Number.round_nonneg.
  replace (z <? 2 ^ 53) with true by (symmetry; apply Z.ltb_lt; exact Hz).
  reflexivity.
Qed.

Lemma digits_value_nonneg_from ds acc :
  Forall (fun c => Char.is_digit c = true) ds -> 0 <= acc ->
  0 <= fold_left (fun a d => 10 * a + (d - 48)) ds acc.
Proof.
  intros Hds. revert acc. induction Hds as [|c ds Hc _ IH]; intros acc Hacc; simpl.
  - exact Hacc.
  - apply IH. unfold Char.is_digit, Char.in_range in Hc.
    apply andb_true_iff in Hc as [?%Z.leb_le ?%Z.leb_le]. lia.
Qed.

Lemma digits_value_nonneg ds : decimal ds -> 0 <= Number.digits_value ds.
Proof. intros [_ Hds]. apply digits_value_nonneg_from; [exact Hds | lia]. Qed.

Lemma add_not_NaN n k : Number.isNaN n = false -> Number.isNaN (Number.add n k) = false.
Proof.
  destruct n as [z| |]; simpl; try congruence. intros _.
  unfold Number.of_Z. destruct (z + k <? 0).
  - pose proof (round_nonneg_not_NaN (- (z + k))).
    destruct (Number.round_nonneg (- (z + k))); simpl in *; congruence.
  - apply round_nonneg_not_NaN.
Qed.

(** Within the exactly representable range the steps [n + 1] and [n - 1]
    are the integer ones. *)
Lemma add_one_exact z : 0 <= z < 2 ^ 53 -> Number.add (Num z) 1 = Num (z + 1).
Proof.
  intros Hz. simpl. unfold Number.of_Z.
  replace (z + 1 <? 0) with false by (symmetry; apply Z.ltb_ge; lia).
  destruct (Z.eq_dec (z + 1) (2 ^ 53)) as [->|Hne]; [reflexivity|].
  apply round_nonneg_exact. lia.
Qed.

Lemma sub_one_exact z : 0 <= z < 2 ^ 53 -> Number.sub (Num z) 1 = Num (z - 1).
Proof.
  intros Hz. unfold Number.sub, Number.add, Number.of_Z.
  destruct (Z.eq_dec z 0) as [->|Hne]; [reflexivity|].
  replace (z + - (1) <? 0) with false by (symmetry; apply Z.ltb_ge; lia).
  rewrite round_nonneg_exact by lia. f_equal.
Qed.

(** ** Properties of the matcher on the patterns of the parser *)

Section MatcherFacts.
Import Regex Rules.

Lemma chr_match_refl icase c : chr_match icase c c = true.
Proof. apply Z.eqb_refl. Qed.

(** A literal in front of the input is read through. *)
Lemma rmatch_chars_app {A} icase cs prev rest caps (k : @cont A) :
  rmatch icase (chars cs) prev (cs ++ rest) caps k = k (last_of prev cs) rest caps.
Proof.
  revert prev. induction cs as [|c cs IH]; intros prev; [reflexivity|].
  cbn [chars fold_right rmatch app]. rewrite chr_match_refl. apply IH.
Qed.

(** A literal leaves the captures alone. *)
Lemma rmatch_chars_inv {A} icase cs prev s caps (k : @cont A) a :
  rmatch icase (chars cs) prev s caps k = Some a ->
  exists prev' s', k prev' s' caps = Some a.
Proof.
  revert prev s. induction cs as [|c cs IH]; intros prev s; cbn [chars fold_right rmatch].
  - eauto.
  - destruct s as [|x s]; [discriminate|].
    destruct (chr_match icase c x); [apply IH | discriminate].
Qed.

Lemma star_inv {A} icase cl prev s caps (k : @cont A) a :
  star icase cl prev s caps k = Some a ->
  exists run rest prev',
    s = run ++ rest
    /\ Forall (fun c => class_match icase cl c = true) run
    /\ k prev' rest caps = Some a.
Proof.
  revert prev. induction s as [|x s IH]; intros prev; cbn [star].
  - intros Hk. exists [], [], prev. auto.
  - destruct (class_match icase cl x) eqn:Hx.
    + destruct (star icase cl (Some x) s caps k) as [a'|] eqn:Hs.
      * intros [= <-]. destruct (IH _ Hs) as (run & rest & p' & -> & Hrun & Hk).
        exists (x :: run), rest, p'. auto.
      * intros Hk. exists [], (x :: s), prev. auto.
    + intros Hk. exists [], (x :: s), prev. auto.
Qed.

(** The greedy loop reads a whole run when the continuation accepts what
    follows it. *)
Lemma star_app {A} icase cl prev run rest caps (k : @cont A) :
  Forall (fun c => class_match icase cl c = true) run ->
  match rest with c :: _ => class_match icase cl c = false | [] => True end ->
  is_Some (k (last_of prev run) rest caps) ->
  star icase cl prev (run ++ rest) caps k = k (last_of prev run) rest caps.
Proof.
  intros Hrun Hrest. revert prev.
  induction Hrun as [|x run Hx _ IH]; intros prev Hk.
  - destruct rest as [|c rest]; cbn [app star]; [reflexivity|].
    rewrite Hrest. reflexivity.
  - cbn [app star]. rewrite Hx.
    change (last_of prev (x :: run)) with (last_of (Some x) run) in *.
    rewrite IH by exact Hk.
    destruct Hk as [a Ha]. rewrite Ha. reflexivity.
Qed.

Lemma take_captured (run rest : jsstring) :
  take (length (run ++ rest) - length rest) (run ++ rest) = run.
Proof.
  rewrite length_app. replace (length run + length rest - length rest)%nat
    with (length run) by lia.
  apply take_app_length.
Qed.

(** A match of a literal followed by [(\d+)] captures a decimal. *)
Lemma match_here_number icase cs prev s caps prev' s' :
  match_here icase (cat [chars cs; Group 1 (PlusClass digit)]) prev s
    = Some (caps, prev', s') ->
  exists ds, caps = <[1%nat := ds]> ∅ /\ decimal ds.
Proof.
  unfold match_here. cbn [cat fold_right rmatch].
  intros H. apply rmatch_chars_inv in H as (p1 & s1 & H).
  destruct s1 as [|x s1]; [discriminate|].
  destruct (class_match icase digit x) eqn:Hx; [|discriminate].
  apply star_inv in H as (run & rest & p2 & -> & Hrun & H).
  injection H as <- _ _.
  exists (x :: run). split.
  - f_equal. apply (take_captured (x :: run) rest).
  - split; [discriminate|]. constructor.
    + rewrite class_match_digit in Hx. exact Hx.
    + eapply Forall_impl; [exact Hrun|]. intros c Hc. cbv beta in Hc.
      rewrite class_match_digit in Hc. exact Hc.
Qed.

(** The search stops at a match of some position. *)
Lemma exec_from_inv icase r prev s caps :
  exec_from icase r prev s = Some caps ->
  exists prev0 s0 prev' s', match_here icase r prev0 s0 = Some (caps, prev', s').
Proof.
  revert prev. induction s as [|x s IH]; intros prev; cbn [exec_from].
  - destruct (match_here icase r prev []) as [[[c p] t]|] eqn:Hm; [|discriminate].
    intros [= <-]. eauto.
  - destruct (match_here icase r prev (x :: s)) as [[[c p] t]|] eqn:Hm.
    + intros [= <-]. eauto.
    + apply IH.
Qed.

(** The search skips a prefix in which no match starts. *)
Lemma exec_from_skip icase r prev pre rest :
  matches_within icase r prev pre rest = false ->
  exec_from icase r prev (pre ++ rest) = exec_from icase r (last_of prev pre) rest.
Proof.
  revert prev. induction pre as [|x pre IH]; intros prev; [reflexivity|].
  cbn [matches_within]. change ((x :: pre) ++ rest) with (x :: pre ++ rest).
  cbn [exec_from].
  destruct (match_here icase r prev (x :: pre ++ rest)); [discriminate|].
  apply IH.
Qed.

Lemma exec_number icase cs s caps :
  exec icase (cat [chars cs; Group 1 (PlusClass digit)]) s = Some caps ->
  exists ds, capture caps 1 = ds /\ decimal ds.
Proof.
  intros H. apply exec_from_inv in H as (p0 & s0 & p' & s' & H).
  apply match_here_number in H as (ds & -> & Hds).
  exists ds. split; [|exact Hds].
  unfold capture. rewrite lookup_insert_eq. reflexivity.
Qed.

(** At a literal followed by a decimal and no further digit, the match
    captures the decimal. *)
Lemma match_here_number_at icase cs prev ds post :
  decimal ds -> no_digit_ahead post ->
  exists prev',
    match_here icase (cat [chars cs; Group 1 (PlusClass digit)]) prev
      (cs ++ ds ++ post) = Some (<[1%nat := ds]> ∅, prev', post).
Proof.
  intros [Hne Hds] Hpost. destruct ds as [|d ds]; [congruence|].
  inversion Hds as [|? ? Hd Hrest]; subst.
  unfold match_here. cbn [cat fold_right rmatch].
  rewrite rmatch_chars_app. cbn [app].
  rewrite class_match_digit, Hd.
  rewrite star_app.
  - eexists. cbv beta.
    change (d :: ds ++ post) with ((d :: ds) ++ post).
    rewrite take_captured. reflexivity.
  - eapply Forall_impl; [exact Hrest|]. intros c Hc. cbv beta in Hc |- *.
    rewrite class_match_digit. exact Hc.
  - destruct post; [exact I|]. rewrite class_match_digit. exact Hpost.
  - eexists. reflexivity.
Qed.

End MatcherFacts.

Section ContainsFacts.
Import Regex Rules.

Lemma one_captured (x : Z) (s : jsstring) :
  take (length (x :: s) - length s) (x :: s) = [x].
Proof.
  cbn [length]. replace (S (length s) - length s)%nat with 1%nat by lia.
  reflexivity.
Qed.

Lemma rmatch_Seq {A} icase r1 r2 prev s caps (k : @cont A) :
  rmatch icase (Seq r1 r2) prev s caps k =
  rmatch icase r1 prev s caps (fun p s' c => rmatch icase r2 p s' c k).
Proof. reflexivity. Qed.

Lemma rmatch_Alt_inv {A} icase r1 r2 prev s caps (k : @cont A) a :
  rmatch icase (Alt r1 r2) prev s caps k = Some a ->
  rmatch icase r1 prev s caps k = Some a \/ rmatch icase r2 prev s caps k = Some a.
Proof.
  cbn [rmatch]. destruct (rmatch icase r1 prev s caps k); [left | right]; assumption.
Qed.

(** A capturing group around one class, at the end of a pattern. *)
Lemma group_class_inv icase i cl prev s caps caps' prev' s' :
  rmatch icase (cat [Group i (Class cl)]) prev s caps
    (fun p t c => Some (c, p, t)) = Some (caps', prev', s') ->
  exists c, caps' = <[i := [c]]> caps /\ class_match icase cl c = true
            /\ s = c :: s'.
Proof.
  cbn [cat fold_right rmatch].
  destruct s as [|x s]; [discriminate|].
  destruct (class_match icase cl x) eqn:Hx; [|discriminate].
  intros [= <- _ <-]. exists x.
  change (length (x :: s)) with (S (length s)).
  replace (S (length s) - length s)%nat with 1%nat by lia. auto.
Qed.

(** A match of the first parser's "containing" pattern captures one
    letter. *)
Lemma match_here_contains1 icase prev s caps prev' s' :
  match_here icase NlParser1.contains prev s = Some (caps, prev', s') ->
  exists c, caps = <[1%nat := [c]]> ∅ /\ class_match icase [(97, 122)] c = true.
Proof.
  unfold match_here, NlParser1.contains, str.
  change (cat [?a; Chr 32; ?g]) with (Seq a (Seq (Chr 32) (cat [g]))).
  rewrite rmatch_Seq. intros H.
  assert (exists p1 s1,
    rmatch icase (Seq (Chr 32) (cat [Group 1 (Class [(97, 122)])])) p1 s1 ∅
      (fun p t c => Some (c, p, t)) = Some (caps, prev', s')) as (p1 & s1 & H1).
  { apply rmatch_Alt_inv in H as [H|H]; [|apply rmatch_Alt_inv in H as [H|H]];
      apply rmatch_chars_inv in H as (p1 & s1 & H); eauto. }
  rewrite rmatch_Seq in H1. cbn [rmatch] in H1.
  destruct s1 as [|x s1]; [discriminate|].
  destruct (chr_match icase 32 x); [|discriminate].
  apply group_class_inv in H1 as (c & -> & Hc & _). eauto.
Qed.

(** A match of the second parser's "containing" pattern fills one of its
    three groups with one word character. *)
Lemma match_here_contains2 icase prev s caps prev' s' :
  match_here icase NlParser2.contains prev s = Some (caps, prev', s') ->
  exists i c, (i = 1 \/ i = 2 \/ i = 3)%nat
              /\ caps = <[i := [c]]> ∅ /\ class_match icase word c = true.
Proof.
  unfold match_here, NlParser2.contains, str.
  change (cat [?a; ?g]) with (Seq a (cat [g])).
  intros H.
  apply rmatch_Alt_inv in H as [H|H]; [|apply rmatch_Alt_inv in H as [H|H]];
    rewrite rmatch_Seq in H;
    apply rmatch_chars_inv in H as (p1 & s1 & H);
    apply group_class_inv in H as (c & -> & Hc & _);
    [exists 1%nat, c | exists 2%nat, c | exists 3%nat, c]; auto.
Qed.

Lemma exec_contains1 icase s caps :
  exec icase NlParser1.contains s = Some caps ->
  exists c, capture caps 1 = [c] /\ class_match icase [(97, 122)] c = true.
Proof.
  intros H. apply exec_from_inv in H as (p0 & s0 & p' & s' & H).
  apply match_here_contains1 in H as (c & -> & Hc).
  exists c. unfold capture. rewrite lookup_insert_eq. auto.
Qed.

Lemma exec_contains2 icase s caps :
  exec icase NlParser2.contains s = Some caps ->
  exists c, NlParser2.first_capture caps [1; 2; 3]%nat = Some [c]
            /\ class_match icase word c = true.
Proof.
  intros H. apply exec_from_inv in H as (p0 & s0 & p' & s' & H).
  apply match_here_contains2 in H as (i & c & Hi & -> & Hc).
  exists c. split; [|exact Hc].
  destruct Hi as [-> | [-> | ->]]; cbn [NlParser2.first_capture];
    repeat (rewrite lookup_insert_eq || rewrite lookup_insert_ne by lia
            || rewrite lookup_empty); reflexivity.
Qed.

End ContainsFacts.

(** ** The parsers, rule by rule *)

Section ParserFacts.
Import Regex Rules Fields.

Lemma apply_longer_Some icase q caps parsed :
  exec icase longer_than q = Some caps ->
  apply_longer (Some caps) parsed =
  Parsed.set_min_length (Number.add (Number.parseInt (capture caps 1)) 1) parsed.
Proof.
  intros H. apply exec_number in H as (ds & Hcap & Hds).
  unfold apply_longer. rewrite Hcap, (parseInt_decimal ds Hds).
  rewrite round_nonneg_not_NaN. reflexivity.
Qed.

Lemma apply_shorter_Some icase q caps parsed :
  exec icase shorter_than q = Some caps ->
  apply_shorter (Some caps) parsed =
  Parsed.set_max_length (Number.sub (Number.parseInt (capture caps 1)) 1) parsed.
Proof.
  intros H. apply exec_number in H as (ds & Hcap & Hds).
  unfold apply_shorter. rewrite Hcap, (parseInt_decimal ds Hds).
  rewrite round_nonneg_not_NaN. reflexivity.
Qed.

(** The first parser: its guard, then the fields of the rules that match,
    then the test for an empty object. *)
Lemma parse1_unfold (sentence : jsstring) :
  NlParser1.parseNaturalLanguage (Str sentence) =
  if bool_decide (trim sentence = []) then Throw query_must_be_non_empty
  else if Parsed.no_keys (fields1 (toLowerCase sentence)) then Throw unparseable
  else Return (fields1 (toLowerCase sentence)).
Proof.
  unfold NlParser1.parseNaturalLanguage.
  destruct (bool_decide (trim sentence = [])); [reflexivity|].
  cbv zeta. unfold fields1, number_after.
  generalize (toLowerCase sentence) as q. intros q.
  destruct (exec true longer_than q) as [cl|] eqn:El;
    [rewrite (apply_longer_Some _ _ _ _ El) | cbn [apply_longer]];
  (destruct (exec true shorter_than q) as [cs|] eqn:Es;
    [rewrite (apply_shorter_Some _ _ _ _ Es) | cbn [apply_shorter]]);
  (destruct (exec true NlParser1.contains q) as [cc|] eqn:Ec;
    [destruct (exec_contains1 _ _ _ Ec) as (c & -> & _) |]);
  destruct (test false NlParser1.single_word q),
    (test false NlParser1.palindrome q), (test false first_vowel q);
  reflexivity.
Qed.

Lemma parse2_unfold (sentence : jsstring) :
  NlParser2.parseNaturalLanguage (Str sentence) =
  if bool_decide (sentence = []) then Throw query_must_be_non_empty
  else if Parsed.no_keys (fields2 (toLowerCase sentence)) then Throw unparseable
  else Return (fields2 (toLowerCase sentence)).
Proof.
  destruct sentence as [|c0 sentence]; [reflexivity|].
  rewrite bool_decide_eq_false_2 by discriminate.
  unfold NlParser2.parseNaturalLanguage.
  cbv zeta. unfold fields2, number_after.
  generalize (toLowerCase (c0 :: sentence)) as q. intros q.
  destruct (exec false longer_than q) as [cl|] eqn:El;
    [rewrite (apply_longer_Some _ _ _ _ El) | cbn [apply_longer]];
  (destruct (exec false shorter_than q) as [cs|] eqn:Es;
    [rewrite (apply_shorter_Some _ _ _ _ Es) | cbn [apply_shorter]]);
  (destruct (exec false NlParser2.contains q) as [cc|] eqn:Ec;
    [destruct (exec_contains2 _ _ _ Ec) as (c & -> & _) |]);
  destruct (test false NlParser2.single_word q), (test false NlParser2.one_word q),
    (test false NlParser2.palindrome q), (test false NlParser2.palindromic q),
    (test false first_vowel q);
  reflexivity.
Qed.

Lemma no_keys_fields1 q : Parsed.no_keys (fields1 q) = negb (recognized1 q).
Proof.
  unfold fields1, recognized1, number_after, Parsed.no_keys, test.
  cbn [word_count is_palindrome min_length max_length contains_character].
  destruct (exec false NlParser1.single_word q), (exec false NlParser1.palindrome q),
    (exec true longer_than q), (exec true shorter_than q),
    (exec true NlParser1.contains q), (exec false first_vowel q); reflexivity.
Qed.

Lemma no_keys_fields2 q : Parsed.no_keys (fields2 q) = negb (recognized2 q).
Proof.
  unfold fields2, recognized2, number_after, Parsed.no_keys, test.
  cbn [word_count is_palindrome min_length max_length contains_character].
  destruct (exec false NlParser2.contains q) as [cc|] eqn:Ec;
    [destruct (exec_contains2 _ _ _ Ec) as (c & -> & _) |];
  destruct (exec false NlParser2.single_word q), (exec false NlParser2.one_word q),
    (exec false NlParser2.palindrome q), (exec false NlParser2.palindromic q),
    (exec false longer_than q), (exec false shorter_than q),
    (exec false first_vowel q); reflexivity.
Qed.

End ParserFacts.

(** ** Worked examples *)

(** The digest of the empty string and of "abc" (FIPS 180-4 test vectors). *)
Example sha256Hex_empty :
  sha256Hex [] = js "e3b0c44298fc1c149afbf4c8996fb92427ae41e4649b934ca495991b7852b855".
Proof. vm_compute. reflexivity. Qed.

Example sha256Hex_abc :
  sha256Hex (js "abc")
  = js "ba7816bf8f01cfea414140de5dae2223b00361a396177a9cb410ff61f20015ad".
Proof. vm_compute. reflexivity. Qed.

(** The identifier has 64 characters. *)
Lemma sha256Hex_length (value : jsstring) : length (sha256Hex value) = 64%nat.
Proof.
  unfold sha256Hex, Sha256.digest.
  destruct (fold_left Sha256.compress _ _) as [[[[[[[a b] c] d] e] f] g] h].
  reflexivity.
Qed.

Example wordCount_examples :
  wordCount [] = 0%nat /\ wordCount (js "   ") = 0%nat
  /\ wordCount (js "one  two   three") = 3%nat.
Proof. repeat split; vm_compute; reflexivity. Qed.

Example charFrequencyMap_Aa :
  charFrequencyMap (js "Aa") = <[js "A" := 1%nat]> (<[js "a" := 1%nat]> ∅)
  /\ size (charFrequencyMap (js "Aa")) = 2%nat.
Proof. split; vm_compute; reflexivity. Qed.

Example parse_single_word :
  NlParser1.parseNaturalLanguage (Str (js "single word strings"))
  = Return (mkFilterSpec (Some (Num 1)) None None None None)
  /\ NlParser2.parseNaturalLanguage (Str (js "single word strings"))
     = Return (mkFilterSpec (Some (Num 1)) None None None None).
Proof. split; vm_compute; reflexivity. Qed.

Example parse_shorter_containing :
  NlParser1.parseNaturalLanguage
    (Str (js "strings shorter than 10 containing the letter a"))
  = Return (mkFilterSpec None None None (Some (Num 9)) (Some (js "a")))
  /\ NlParser2.parseNaturalLanguage
       (Str (js "strings shorter than 10 containing the letter a"))
     = Return (mkFilterSpec None None None (Some (Num 9)) (Some (js "a"))).
Proof. split; vm_compute; reflexivity. Qed.

Example parse_banana :
  NlParser1.parseNaturalLanguage (Str (js "banana")) = Throw unparseable
  /\ NlParser2.parseNaturalLanguage (Str (js "banana")) = Throw unparseable.
Proof. split; vm_compute; reflexivity. Qed.

(** ** The analyzer: claims *)

(** C10.  The properties [analyze] returns for a string are consistent with
    each other: [unique_characters] is the number of keys of
    [character_frequency_map], the keys are exactly the elements of the string
    iterator (the code points of the string), every count is strictly
    positive, and the counts add up to the number of code points. *)
Theorem analyze_frequency_consistent (s : jsstring) :
  exists p,
    analyze (Str s) = Return p
    /\ p_unique_characters p = size (dom (p_character_frequency_map p))
    /\ (forall ch, ch ∈ dom (p_character_frequency_map p) <-> In ch (codePoints s))
    /\ positive_counts (p_character_frequency_map p)
    /\ total_count (p_character_frequency_map p) = length (codePoints s).
Proof.
  eexists. split; [reflexivity|].
  cbn [p_unique_characters p_character_frequency_map].
  split; [symmetry; apply size_dom|]. split; [|split].
  - intros ch. rewrite elem_of_dom, charFrequencyMap_lookup. unfold occurrences.
    rewrite <- list_elem_of_In.
    destruct (filter (fun x => x = ch) (codePoints s)) as [|y l] eqn:Hf; cbn [length].
    + split; [intros [? ?]; discriminate|].
      intros Hin. exfalso.
      assert (ch ∈ filter (fun x => x = ch) (codePoints s)) as Hc
        by (apply list_elem_of_filter; auto).
      rewrite Hf in Hc. inversion Hc.
    + split; [intros _ | eauto].
      assert (y ∈ filter (fun x => x = ch) (codePoints s)) as Hc
        by (rewrite Hf; left).
      apply list_elem_of_filter in Hc as [-> Hc]. exact Hc.
  - apply fold_count_char_positive. intros k n. rewrite lookup_empty. discriminate.
  - unfold charFrequencyMap. rewrite total_count_fold, total_count_empty. lia.
Qed.

(** C8 (as the code has it).  [analyze(s).length] is the number of UTF-16
    code units of [s]: the number of code points plus one for every surrogate
    pair.  It is the number of code points exactly when [s] holds no
    surrogate pair. *)
Theorem analyze_length_code_units (s : jsstring) :
  exists p,
    analyze (Str s) = Return p
    /\ p_length p = length s
    /\ p_length p = (length (codePoints s) + surrogatePairs s)%nat
    /\ (p_length p = length (codePoints s) <-> surrogatePairs s = 0%nat).
Proof.
  eexists. split; [reflexivity|]. cbn [p_length].
  pose proof (codePoints_units s). repeat split; lia.
Qed.

(** C8, counterexample to the wording of the specification: the string of the one code point U+1F600
    has length 2. *)
Lemma analyze_length_astral :
  exists p,
    analyze (Str [0xD83D; 0xDE00]) = Return p
    /\ p_length p = 2%nat
    /\ length (codePoints [0xD83D; 0xDE00]) = 1%nat
    /\ p_length p <> length (codePoints [0xD83D; 0xDE00]).
Proof.
  eexists. split; [reflexivity|]. cbn. repeat split. discriminate.
Qed.

(** C6 (with the first example as the code has it).  For a string of Basic
    Latin characters and white space, [is_palindrome] holds exactly when the
    string without its white-space characters, lower-cased, equals its
    reversal; nothing but white space is removed.  "A man a man" is not a
    palindrome ("amanaman"), "Hello" is not, the empty string is; "ab, a" is
    not, the comma being kept. *)
Theorem analyze_is_palindrome (s : jsstring) :
  (basic_latin_or_space s ->
   exists p, analyze (Str s) = Return p
             /\ (p_is_palindrome p = true <-> reads_same_backwards s))
  /\ palindrome_of (js "A man a man") false
  /\ palindrome_of (js "Hello") false
  /\ palindrome_of [] true
  /\ palindrome_of (js "ab, a") false.
Proof.
  split.
  - intros _. eexists. split; [reflexivity|]. apply isPalindrome_spec.
  - repeat split; (eexists; split; [reflexivity | vm_compute; reflexivity]).
Qed.

Lemma analyze_is_palindrome_witness :
  basic_latin_or_space (js "Never odd" ++ [0xA0] ++ js "or even")
  /\ exists p,
       analyze (Str (js "Never odd" ++ [0xA0] ++ js "or even")) = Return p
       /\ (p_is_palindrome p = true
           <-> reads_same_backwards (js "Never odd" ++ [0xA0] ++ js "or even")).
Proof.
  assert (basic_latin_or_space (js "Never odd" ++ [0xA0] ++ js "or even")) as Hb.
  { unfold basic_latin_or_space.
    repeat (constructor;
            [first [left; split; [discriminate | reflexivity] | right; reflexivity]|]).
    constructor. }
  split; [exact Hb|].
  destruct (analyze_is_palindrome (js "Never odd" ++ [0xA0] ++ js "or even")) as [H _].
  exact (H Hb).
Defined.

(** C6, counterexample to the first example of the specification. *)
Lemma a_man_a_man_is_no_palindrome :
  exists p,
    analyze (Str (js "A man a man")) = Return p /\ p_is_palindrome p = false.
Proof. eexists. split; [reflexivity | vm_compute; reflexivity]. Qed.

Section ObjectStore.

Lemma get_new (h : Objects.heap) (props : Objects.object) (k : jsstring) :
  Objects.get (h ++ [props]) (length h) k = props !! k.
Proof.
  unfold Objects.get. rewrite lookup_app_r by lia.
  replace (length h - length h)%nat with 0%nat by lia. reflexivity.
Qed.

Lemma set_new (h : Objects.heap) (props : Objects.object) (k : jsstring) (v : nat) :
  Objects.set (h ++ [props]) (length h) k v = h ++ [<[k := v]> props].
Proof.
  unfold Objects.set. induction h as [|x h IH]; [reflexivity|].
  cbn [app length]. cbn. f_equal. exact IH.
Qed.

(** The loop writes to the new object alone, and leaves in it the map of
    [charFrequencyMap]. *)
Lemma loop_new (l : list jsstring) (h : Objects.heap) (props : Objects.object) :
  fold_left
    (fun h' ch =>
       Objects.set h' (length h) ch (default 0 (Objects.get h' (length h) ch) + 1)%nat)
    l (h ++ [props])
  = h ++ [fold_left count_char l props].
Proof.
  revert props. induction l as [|ch l IH]; intros props; [reflexivity|].
  cbn [fold_left]. rewrite get_new, set_new. apply IH.
Qed.

Lemma charFrequencyMap_store (value : jsstring) (h : Objects.heap) :
  Objects.charFrequencyMap value h = (length h, h ++ [charFrequencyMap value]).
Proof.
  unfold Objects.charFrequencyMap, Objects.alloc. f_equal. apply loop_new.
Qed.

Lemma lookup_new (h : Objects.heap) (props : Objects.object) :
  (h ++ [props]) !! length h = Some props.
Proof.
  rewrite lookup_app_r by lia.
  replace (length h - length h)%nat with 0%nat by lia. reflexivity.
Qed.

(** [analyze] on a store: the fields of [analyze], and one more Objects.object. *)
Lemma analyze_store (value : jsstring) (h : Objects.heap) :
  Objects.analyze (Str value) h
  = (Return {| Objects.r_length := length value;
               Objects.r_is_palindrome := isPalindrome value;
               Objects.r_unique_characters := size (charFrequencyMap value);
               Objects.r_word_count := wordCount value;
               Objects.r_sha256_hash := sha256Hex value;
               Objects.r_character_frequency_map := length h |},
     h ++ [charFrequencyMap value]).
Proof.
  unfold Objects.analyze. rewrite charFrequencyMap_store.
  unfold Objects.keys_length. rewrite lookup_new. reflexivity.
Qed.

End ObjectStore.

(** C9.  [analyze] reads nothing but its argument and writes nothing but the
    object it creates.  In every store of objects, a call on a string
    returns the fields and the frequency map that the argument alone
    determines; the map is a new object, and every object of the store is
    left as it was.  A second call returns identical output, in a map of its
    own: the first result reads the same after it, and a later write to the
    first map does not reach the second.  The identifier reported is
    [sha256Hex] of the argument in both. *)
Theorem analyze_deterministic (s : jsstring) (h : Objects.heap) :
  exists p r1 r2 h1 h2,
    analyze (Str s) = Return p
    /\ Objects.analyze (Str s) h = (Return r1, h1)
    /\ Objects.analyze (Str s) h1 = (Return r2, h2)
    /\ Objects.contents h1 r1 = Some p
    /\ Objects.contents h2 r2 = Some p
    /\ Objects.contents h2 r1 = Some p
    /\ h !! Objects.r_character_frequency_map r1 = None
    /\ Objects.r_character_frequency_map r2 <> Objects.r_character_frequency_map r1
    /\ (forall o props,
          h !! o = Some props -> h1 !! o = Some props /\ h2 !! o = Some props)
    /\ (forall k v,
          Objects.contents
            (Objects.set h2 (Objects.r_character_frequency_map r1) k v) r2
          = Some p)
    /\ Objects.r_sha256_hash r1 = sha256Hex s
    /\ Objects.r_sha256_hash r2 = sha256Hex s.
Proof.
  do 5 eexists.
  split; [reflexivity|]. split; [apply analyze_store|]. split; [apply analyze_store|].
  unfold Objects.contents. cbn [Objects.r_character_frequency_map Objects.r_length
    Objects.r_is_palindrome Objects.r_unique_characters Objects.r_word_count
    Objects.r_sha256_hash].
  split; [rewrite lookup_new; reflexivity|].
  split; [rewrite lookup_new; reflexivity|].
  split; [rewrite lookup_app_l by (rewrite length_app; cbn; lia);
          rewrite lookup_new; reflexivity|].
  split; [apply lookup_ge_None; lia|].
  split; [rewrite length_app; cbn; lia|].
  split.
  - intros o props Ho. pose proof (lookup_lt_Some _ _ _ Ho) as Hlt.
    split; [|rewrite lookup_app_l by (rewrite length_app; lia)];
      rewrite lookup_app_l by lia; exact Ho.
  - split; [|split; reflexivity].
    intros k v. unfold Objects.set.
    rewrite list_lookup_alter_ne by (rewrite length_app; cbn; lia).
    rewrite lookup_new. reflexivity.
Qed.

(** ** The natural-language parser: claims *)

(** Closes the routine cases of a case analysis on outcomes. *)
Ltac outcome_cases :=
  repeat split; intros;
  repeat match goal with
         | H : _ /\ _ |- _ => destruct H
         | H : ex _ |- _ => destruct H
         end;
  try congruence; eauto.

Section ParserClaims.
Import Regex Rules Fields.

Lemma errors_differ : query_must_be_non_empty <> unparseable.
Proof. discriminate. Qed.


End ParserClaims.

(** The first parser: a sentence that is empty after trimming meets its
    guard. *)
Lemma parse_outcomes_first (sentence : jsstring) :
  (NlParser1.parseNaturalLanguage (Str sentence) = Throw query_must_be_non_empty
   <-> trim sentence = [])
  /\ (NlParser1.parseNaturalLanguage (Str sentence) = Throw unparseable
      <-> trim sentence <> [] /\ Fields.recognized1 (toLowerCase sentence) = false)
  /\ ((exists fs, NlParser1.parseNaturalLanguage (Str sentence) = Return fs)
      <-> trim sentence <> [] /\ Fields.recognized1 (toLowerCase sentence) = true)
  /\ (forall fs, NlParser1.parseNaturalLanguage (Str sentence) = Return fs ->
                 Parsed.no_keys fs = false)
  /\ query_must_be_non_empty <> unparseable.
Proof.
  rewrite parse1_unfold, no_keys_fields1.
  pose proof errors_differ as Hd.
  destruct (bool_decide (trim sentence = [])) eqn:Ht.
  - apply bool_decide_eq_true in Ht. outcome_cases.
  - apply bool_decide_eq_false in Ht.
    destruct (Fields.recognized1 (toLowerCase sentence)) eqn:Hr; cbn [negb].
    + outcome_cases.
      match goal with H : Return _ = Return _ |- _ => injection H as <- end.
      rewrite no_keys_fields1, Hr. reflexivity.
    + outcome_cases.
Qed.

(** The second parser: only the empty string meets its guard. *)
Lemma parse_outcomes_second (sentence : jsstring) :
  (NlParser2.parseNaturalLanguage (Str sentence) = Throw query_must_be_non_empty
   <-> sentence = [])
  /\ (NlParser2.parseNaturalLanguage (Str sentence) = Throw unparseable
      <-> sentence <> [] /\ Fields.recognized2 (toLowerCase sentence) = false)
  /\ ((exists fs, NlParser2.parseNaturalLanguage (Str sentence) = Return fs)
      <-> sentence <> [] /\ Fields.recognized2 (toLowerCase sentence) = true)
  /\ (forall fs, NlParser2.parseNaturalLanguage (Str sentence) = Return fs ->
                 Parsed.no_keys fs = false).
Proof.
  rewrite parse2_unfold, no_keys_fields2.
  pose proof errors_differ as Hd.
  destruct (bool_decide (sentence = [])) eqn:Ht.
  - apply bool_decide_eq_true in Ht. outcome_cases.
  - apply bool_decide_eq_false in Ht.
    destruct (Fields.recognized2 (toLowerCase sentence)) eqn:Hr; cbn [negb].
    + outcome_cases.
      match goal with H : Return _ = Return _ |- _ => injection H as <- end.
      rewrite no_keys_fields2, Hr. reflexivity.
    + outcome_cases.
Qed.

Section BlankSentences.
Import Regex Rules.

Lemma space_not_word (c : Z) : Char.is_space c = true -> Char.is_word c = false.
Proof.
  intros Hs. destruct (Char.is_word c) eqn:Hw; [|reflexivity].
  assert (Char.is_space c = false) as Hn; [|congruence].
  unfold Char.is_word, Char.is_lower, Char.is_upper, Char.is_digit, Char.in_range in Hw.
  unfold Char.is_space, Char.in_range. cbn [existsb].
  rewrite !orb_true_iff, !andb_true_iff, !Z.leb_le, Z.eqb_eq in Hw.
  repeat match goal with
         | |- context [c =? ?k] =>
             replace (c =? k) with false by (symmetry; apply Z.eqb_neq; lia)
         end.
  cbn [orb]. apply andb_false_iff. left. apply Z.leb_gt. lia.
Qed.

Lemma blank_head (s : jsstring) :
  Forall (fun c => Char.is_space c = true) s -> is_word_at (head s) = false.
Proof.
  intros Hs. destruct Hs as [|c rest Hc _]; [reflexivity|].
  cbn [head is_word_at]. apply space_not_word, Hc.
Qed.

(** In white space no word boundary is met. *)
Lemma no_match_boundary {A} icase r prev s caps (k : @cont A) :
  is_word_at prev = false ->
  Forall (fun c => Char.is_space c = true) s ->
  rmatch icase (Seq WordBoundary r) prev s caps k = None.
Proof.
  intros Hp Hs. cbn [rmatch]. rewrite Hp, (blank_head s Hs). reflexivity.
Qed.

(** In white space no literal that starts with another character is read. *)
Lemma no_match_literal {A} c cs prev s caps (k : @cont A) :
  Char.is_space c = false ->
  Forall (fun c => Char.is_space c = true) s ->
  rmatch false (chars (c :: cs)) prev s caps k = None.
Proof.
  intros Hc Hs. cbn [chars fold_right rmatch].
  destruct Hs as [|x rest Hx _]; [reflexivity|].
  unfold chr_match, canon.
  destruct (Z.eqb_spec x c) as [->|]; [congruence | reflexivity].
Qed.

Lemma exec_from_blank icase r :
  (forall prev s,
     is_word_at prev = false -> Forall (fun c => Char.is_space c = true) s ->
     match_here icase r prev s = None) ->
  forall prev s,
    is_word_at prev = false -> Forall (fun c => Char.is_space c = true) s ->
    exec_from icase r prev s = None.
Proof.
  intros Hm prev s Hp Hs. revert prev Hp.
  induction Hs as [|x rest Hx Hs IH]; intros prev Hp; cbn [exec_from].
  - rewrite Hm by (assumption || constructor). reflexivity.
  - rewrite Hm by (assumption || (constructor; assumption)).
    apply IH. cbn [is_word_at]. apply space_not_word, Hx.
Qed.

Lemma test_blank icase r s :
  (forall prev s,
     is_word_at prev = false -> Forall (fun c => Char.is_space c = true) s ->
     match_here icase r prev s = None) ->
  Forall (fun c => Char.is_space c = true) s ->
  test icase r s = false.
Proof.
  intros Hm Hs. unfold test, exec.
  rewrite (exec_from_blank icase r Hm None s eq_refl Hs). reflexivity.
Qed.

(** No rule of the second declaration matches in white space. *)
Lemma recognized2_blank (q : jsstring) :
  Forall (fun c => Char.is_space c = true) q -> Fields.recognized2 q = false.
Proof.
  intros Hq. unfold Fields.recognized2.
  rewrite (test_blank false NlParser2.single_word q); [|intros prev s Hp Hs|exact Hq].
  2: { apply no_match_boundary; assumption. }
  rewrite (test_blank false NlParser2.one_word q); [|intros prev s Hp Hs|exact Hq].
  2: { apply no_match_boundary; assumption. }
  rewrite (test_blank false NlParser2.palindrome q); [|intros prev s Hp Hs|exact Hq].
  2: { apply no_match_boundary; assumption. }
  rewrite (test_blank false NlParser2.palindromic q); [|intros prev s Hp Hs|exact Hq].
  2: { apply no_match_boundary; assumption. }
  rewrite (test_blank false longer_than q); [|intros prev s Hp Hs|exact Hq].
  2: { unfold match_here, longer_than. cbn [cat fold_right]. rewrite rmatch_Seq.
       apply (no_match_literal 108 (js "onger than ")); [reflexivity | exact Hs]. }
  rewrite (test_blank false shorter_than q); [|intros prev s Hp Hs|exact Hq].
  2: { unfold match_here, shorter_than. cbn [cat fold_right]. rewrite rmatch_Seq.
       apply (no_match_literal 115 (js "horter than ")); [reflexivity | exact Hs]. }
  rewrite (test_blank false NlParser2.contains q); [|intros prev s Hp Hs|exact Hq].
  2: { unfold match_here, NlParser2.contains. cbn [cat fold_right].
       cbn [rmatch].
       rewrite (no_match_literal 99 (js "ontaining the letter "))
         by (reflexivity || exact Hs).
       rewrite (no_match_literal 99 (js "ontaining ")) by (reflexivity || exact Hs).
       apply (no_match_literal 99 (js "ontains ")); [reflexivity | exact Hs]. }
  rewrite (test_blank false first_vowel q); [|intros prev s Hp Hs|exact Hq].
  2: { apply no_match_boundary; assumption. }
  reflexivity.
Qed.

Lemma toLowerCase_blank (s : jsstring) :
  Forall (fun c => Char.is_space c = true) s ->
  Forall (fun c => Char.is_space c = true) (toLowerCase s).
Proof.
  unfold toLowerCase. induction 1 as [|c s Hc _ IH]; cbn [map]; constructor;
    [rewrite lower_space; exact Hc | exact IH].
Qed.

End BlankSentences.

(** C3 (as the code has it).  The first declaration of the parser fails
    with the untyped error "Query must be a non-empty string" exactly for
    a sentence that is empty after trimming, the second declaration
    exactly for the empty sentence; neither ever returns an empty filter.
    In the second declaration a sentence of white space only matches no rule
    and fails with the error coded UNPARSEABLE.  For a sentence of Basic
    Latin characters, each declaration fails with the error coded
    UNPARSEABLE exactly when the sentence passes its guard and no rule
    matches the lower-case form, and returns a filter, with at least one
    field set, in every other case that passes the guard. *)
Theorem parse_outcomes (sentence : jsstring) :
  (NlParser1.parseNaturalLanguage (Str sentence) = Throw query_must_be_non_empty
   <-> trim sentence = [])
  /\ (NlParser2.parseNaturalLanguage (Str sentence) = Throw query_must_be_non_empty
      <-> sentence = [])
  /\ query_must_be_non_empty <> unparseable
  /\ (forall fs, NlParser1.parseNaturalLanguage (Str sentence) = Return fs ->
                 Parsed.no_keys fs = false)
  /\ (forall fs, NlParser2.parseNaturalLanguage (Str sentence) = Return fs ->
                 Parsed.no_keys fs = false)
  /\ (sentence <> [] -> Forall (fun c => Char.is_space c = true) sentence ->
      NlParser2.parseNaturalLanguage (Str sentence) = Throw unparseable)
  /\ (basic_latin sentence ->
      (NlParser1.parseNaturalLanguage (Str sentence) = Throw unparseable
       <-> trim sentence <> [] /\ Fields.recognized1 (toLowerCase sentence) = false)
      /\ ((exists fs, NlParser1.parseNaturalLanguage (Str sentence) = Return fs)
          <-> trim sentence <> [] /\ Fields.recognized1 (toLowerCase sentence) = true)
      /\ (NlParser2.parseNaturalLanguage (Str sentence) = Throw unparseable
          <-> sentence <> [] /\ Fields.recognized2 (toLowerCase sentence) = false)
      /\ ((exists fs, NlParser2.parseNaturalLanguage (Str sentence) = Return fs)
          <-> sentence <> [] /\ Fields.recognized2 (toLowerCase sentence) = true)).
Proof.
  destruct (parse_outcomes_first sentence) as (G1 & U1 & R1 & N1 & D).
  destruct (parse_outcomes_second sentence) as (G2 & U2 & R2 & N2).
  repeat (split; [assumption|]).
  split; [|intros _; repeat (split; [assumption|]); assumption].
  intros Hne Hblank. apply U2. split; [exact Hne|].
  apply recognized2_blank, toLowerCase_blank, Hblank.
Qed.

Lemma parse_outcomes_witness :
  js "   " <> [] /\ Forall (fun c => Char.is_space c = true) (js "   ")
  /\ basic_latin (js "tell me a joke")
  /\ NlParser2.parseNaturalLanguage (Str (js "   ")) = Throw unparseable
  /\ (NlParser1.parseNaturalLanguage (Str (js "tell me a joke")) = Throw unparseable
      <-> trim (js "tell me a joke") <> []
          /\ Fields.recognized1 (toLowerCase (js "tell me a joke")) = false).
Proof.
  assert (js "   " <> []) as Hne by discriminate.
  assert (Forall (fun c => Char.is_space c = true) (js "   ")) as Hblank
    by (repeat constructor).
  assert (basic_latin (js "tell me a joke")) as Hb
    by (repeat constructor; discriminate).
  split; [exact Hne|]. split; [exact Hblank|]. split; [exact Hb|]. split.
  - destruct (parse_outcomes (js "   ")) as (_ & _ & _ & _ & _ & H & _).
    exact (H Hne Hblank).
  - destruct (parse_outcomes (js "tell me a joke")) as (_ & _ & _ & _ & _ & _ & H).
    destruct (H Hb) as (H1 & _). exact H1.
Defined.

(** C3, counterexample to the wording of the specification: for the empty sentence (both
    declarations), and for one of white space only (first declaration), the
    error is not the one coded UNPARSEABLE. *)
Lemma blank_sentence_error_is_untyped :
  NlParser1.parseNaturalLanguage (Str [])
  = Throw (Error "Query must be a non-empty string" None)
  /\ NlParser1.parseNaturalLanguage (Str (js "   "))
     = Throw (Error "Query must be a non-empty string" None)
  /\ NlParser2.parseNaturalLanguage (Str [])
     = Throw (Error "Query must be a non-empty string" None)
  /\ NlParser1.parseNaturalLanguage (Str []) <> Throw unparseable
  /\ NlParser1.parseNaturalLanguage (Str (js "   ")) <> Throw unparseable
  /\ NlParser2.parseNaturalLanguage (Str []) <> Throw unparseable.
Proof. repeat split; try reflexivity; vm_compute; discriminate. Qed.

Section NumberRules.
Import Regex Rules Fields.

Lemma capture_insert (caps : gmap nat jsstring) i s : capture (<[i := s]> caps) i = s.
Proof. unfold capture. rewrite lookup_insert_eq. reflexivity. Qed.

Lemma exec_from_here icase r prev s caps prev' s' :
  match_here icase r prev s = Some (caps, prev', s') ->
  exec_from icase r prev s = Some caps.
Proof. intros H. destruct s; cbn [exec_from]; rewrite H; reflexivity. Qed.

(** The search finds the first literal that a decimal follows. *)
Lemma exec_number_at icase cs pre ds post :
  decimal ds -> no_digit_ahead post ->
  matches_within icase (cat [chars cs; Group 1 (PlusClass digit)]) None pre
    (cs ++ ds ++ post) = false ->
  exec icase (cat [chars cs; Group 1 (PlusClass digit)]) (pre ++ cs ++ ds ++ post)
  = Some (<[1%nat := ds]> ∅).
Proof.
  intros Hds Hpost Hpre. unfold exec. rewrite exec_from_skip by exact Hpre.
  destruct (match_here_number_at icase cs (last_of None pre) ds post Hds Hpost)
    as [p' H].
  eapply exec_from_here, H.
Qed.

Lemma number_after_at icase cs pre ds post step :
  decimal ds -> no_digit_ahead post ->
  matches_within icase (cat [chars cs; Group 1 (PlusClass digit)]) None pre
    (cs ++ ds ++ post) = false ->
  number_after icase (cat [chars cs; Group 1 (PlusClass digit)])
    (pre ++ cs ++ ds ++ post) step
  = Some (step (Number.round_nonneg (Number.digits_value ds))).
Proof.
  intros Hds Hpost Hpre. unfold number_after.
  rewrite (exec_number_at icase cs pre ds post Hds Hpost Hpre).
  rewrite capture_insert, (parseInt_decimal ds Hds). reflexivity.
Qed.

Lemma no_keys_fields (p : FilterSpec) :
  Parsed.no_keys p = true ->
  word_count p = None /\ is_palindrome p = None /\ min_length p = None
  /\ max_length p = None /\ contains_character p = None.
Proof.
  unfold Parsed.no_keys.
  destruct (word_count p), (is_palindrome p), (min_length p), (max_length p),
    (contains_character p); intros H; try discriminate; auto.
Qed.

(** A sentence that sets some field is returned with its fields. *)
Lemma parse1_returns sentence x :
  In x (toLowerCase sentence) -> Char.is_space x = false ->
  Parsed.no_keys (fields1 (toLowerCase sentence)) = false ->
  NlParser1.parseNaturalLanguage (Str sentence) = Return (fields1 (toLowerCase sentence)).
Proof.
  intros Hin Hx Hk. rewrite parse1_unfold, Hk.
  rewrite bool_decide_eq_false_2 by (eapply not_blank; eassumption).
  reflexivity.
Qed.

Lemma parse2_returns sentence :
  toLowerCase sentence <> [] ->
  Parsed.no_keys (fields2 (toLowerCase sentence)) = false ->
  NlParser2.parseNaturalLanguage (Str sentence) = Return (fields2 (toLowerCase sentence)).
Proof.
  intros Hne Hk. rewrite parse2_unfold, Hk.
  rewrite bool_decide_eq_false_2; [reflexivity|].
  intros ->. apply Hne. reflexivity.
Qed.

End NumberRules.

(** C7 (as the code has it).  Let the lower-case form of a sentence be
    [pre ++ "longer than " ++ ds ++ post], where [ds] is a run of decimal
    digits of value [N < 2^53] that no digit follows and no match of the rule
    starts inside [pre] (the rule reads its first match).  Then the parser
    (either declaration) returns a filter with [min_length = N + 1].
    Likewise "shorter than" gives [max_length = N - 1].  In particular
    "palindromic strings longer than 5" gives
    [{is_palindrome: true, min_length: 6}]. *)
Theorem longer_shorter_rules (sentence pre ds post : jsstring) :
  decimal ds -> no_digit_ahead post -> Number.digits_value ds < 2 ^ 53 ->
  (toLowerCase sentence = pre ++ js "longer than " ++ ds ++ post ->
   (matches_within true Rules.longer_than None pre
      (js "longer than " ++ ds ++ post) = false ->
    exists fs,
      NlParser1.parseNaturalLanguage (Str sentence) = Return fs
      /\ min_length fs = Some (Num (Number.digits_value ds + 1)))
   /\ (matches_within false Rules.longer_than None pre
         (js "longer than " ++ ds ++ post) = false ->
       exists fs,
         NlParser2.parseNaturalLanguage (Str sentence) = Return fs
         /\ min_length fs = Some (Num (Number.digits_value ds + 1))))
  /\ (toLowerCase sentence = pre ++ js "shorter than " ++ ds ++ post ->
      (matches_within true Rules.shorter_than None pre
         (js "shorter than " ++ ds ++ post) = false ->
       exists fs,
         NlParser1.parseNaturalLanguage (Str sentence) = Return fs
         /\ max_length fs = Some (Num (Number.digits_value ds - 1)))
      /\ (matches_within false Rules.shorter_than None pre
            (js "shorter than " ++ ds ++ post) = false ->
          exists fs,
            NlParser2.parseNaturalLanguage (Str sentence) = Return fs
            /\ max_length fs = Some (Num (Number.digits_value ds - 1))))
  /\ NlParser1.parseNaturalLanguage (Str (js "palindromic strings longer than 5"))
     = Return (mkFilterSpec None (Some true) (Some (Num 6)) None None)
  /\ NlParser2.parseNaturalLanguage (Str (js "palindromic strings longer than 5"))
     = Return (mkFilterSpec None (Some true) (Some (Num 6)) None None).
Proof.
  intros Hds Hpost Hbound.
  pose proof (digits_value_nonneg ds Hds) as H0.
  split; [|split; [|split; vm_compute; reflexivity]].
  - intros Hq. split; intros Hpre.
    + assert (min_length (Fields.fields1 (toLowerCase sentence))
              = Some (Num (Number.digits_value ds + 1))) as Hmin.
      { rewrite Hq. cbn [Fields.fields1 min_length].
        unfold Rules.longer_than, Regex.str in *.
        rewrite number_after_at by assumption.
        rewrite round_nonneg_exact by assumption.
        rewrite add_one_exact by lia. reflexivity. }
      exists (Fields.fields1 (toLowerCase sentence)). split; [|exact Hmin].
      apply (parse1_returns sentence 108).
      * rewrite Hq. apply in_or_app. right. left. reflexivity.
      * reflexivity.
      * destruct (Parsed.no_keys (Fields.fields1 (toLowerCase sentence))) eqn:Hk;
          [|reflexivity].
        apply no_keys_fields in Hk as (_ & _ & Hk & _). congruence.
    + assert (min_length (Fields.fields2 (toLowerCase sentence))
              = Some (Num (Number.digits_value ds + 1))) as Hmin.
      { rewrite Hq. cbn [Fields.fields2 min_length].
        unfold Rules.longer_than, Regex.str in *.
        rewrite number_after_at by assumption.
        rewrite round_nonneg_exact by assumption.
        rewrite add_one_exact by lia. reflexivity. }
      exists (Fields.fields2 (toLowerCase sentence)). split; [|exact Hmin].
      apply parse2_returns.
      * rewrite Hq. destruct pre; discriminate.
      * destruct (Parsed.no_keys (Fields.fields2 (toLowerCase sentence))) eqn:Hk;
          [|reflexivity].
        apply no_keys_fields in Hk as (_ & _ & Hk & _). congruence.
  - intros Hq. split; intros Hpre.
    + assert (max_length (Fields.fields1 (toLowerCase sentence))
              = Some (Num (Number.digits_value ds - 1))) as Hmax.
      { rewrite Hq. cbn [Fields.fields1 max_length].
        unfold Rules.shorter_than, Regex.str in *.
        rewrite number_after_at by assumption.
        rewrite round_nonneg_exact by assumption.
        rewrite sub_one_exact by lia. reflexivity. }
      exists (Fields.fields1 (toLowerCase sentence)). split; [|exact Hmax].
      apply (parse1_returns sentence 115).
      * rewrite Hq. apply in_or_app. right. left. reflexivity.
      * reflexivity.
      * destruct (Parsed.no_keys (Fields.fields1 (toLowerCase sentence))) eqn:Hk;
          [|reflexivity].
        apply no_keys_fields in Hk as (_ & _ & _ & Hk & _). congruence.
    + assert (max_length (Fields.fields2 (toLowerCase sentence))
              = Some (Num (Number.digits_value ds - 1))) as Hmax.
      { rewrite Hq. cbn [Fields.fields2 max_length].
        unfold Rules.shorter_than, Regex.str in *.
        rewrite number_after_at by assumption.
        rewrite round_nonneg_exact by assumption.
        rewrite sub_one_exact by lia. reflexivity. }
      exists (Fields.fields2 (toLowerCase sentence)). split; [|exact Hmax].
      apply parse2_returns.
      * rewrite Hq. destruct pre; discriminate.
      * destruct (Parsed.no_keys (Fields.fields2 (toLowerCase sentence))) eqn:Hk;
          [|reflexivity].
        apply no_keys_fields in Hk as (_ & _ & _ & Hk & _). congruence.
Qed.

Lemma longer_shorter_rules_witness :
  decimal (js "12") /\ no_digit_ahead (js " or so")
  /\ Number.digits_value (js "12") < 2 ^ 53
  /\ (exists fs,
        NlParser1.parseNaturalLanguage (Str (js "Strings LONGER than 12 or so"))
        = Return fs
        /\ min_length fs = Some (Num (Number.digits_value (js "12") + 1)))
  /\ (exists fs,
        NlParser2.parseNaturalLanguage (Str (js "shorter than 12 or so")) = Return fs
        /\ max_length fs = Some (Num (Number.digits_value (js "12") - 1))).
Proof.
  assert (decimal (js "12")) as Hds by (split; [discriminate | repeat constructor]).
  assert (no_digit_ahead (js " or so")) as Hpost by reflexivity.
  assert (Number.digits_value (js "12") < 2 ^ 53) as Hbound by reflexivity.
  split; [exact Hds|]. split; [exact Hpost|]. split; [exact Hbound|]. split.
  - destruct (longer_shorter_rules (js "Strings LONGER than 12 or so")
                (js "strings ") (js "12") (js " or so") Hds Hpost Hbound)
      as (Hlonger & _).
    destruct (Hlonger eq_refl) as [H1 _]. apply H1. reflexivity.
  - destruct (longer_shorter_rules (js "shorter than 12 or so")
                [] (js "12") (js " or so") Hds Hpost Hbound)
      as (_ & Hshorter & _).
    destruct (Hshorter eq_refl) as [_ H2]. apply H2. reflexivity.
Defined.

(** C7, counterexample to the wording of the specification (in both
    declarations): beyond 2^53 the
    sum [n + 1] is rounded, and a sentence that holds "longer than 5" after an
    earlier match of the rule takes the number of the earlier match. *)
Lemma longer_than_not_always_plus_one :
  Number.digits_value (js "9007199254740992") = 9007199254740992
  /\ (exists fs,
        NlParser1.parseNaturalLanguage (Str (js "longer than 9007199254740992"))
        = Return fs
        /\ min_length fs = Some (Num 9007199254740992)
        /\ min_length fs <> Some (Num (9007199254740992 + 1)))
  /\ (exists fs,
        NlParser2.parseNaturalLanguage (Str (js "longer than 9007199254740992"))
        = Return fs
        /\ min_length fs = Some (Num 9007199254740992)
        /\ min_length fs <> Some (Num (9007199254740992 + 1)))
  /\ (exists fs,
        NlParser1.parseNaturalLanguage (Str (js "longer than 3 or longer than 5"))
        = Return fs
        /\ min_length fs = Some (Num 4)
        /\ min_length fs <> Some (Num (5 + 1)))
  /\ (exists fs,
        NlParser2.parseNaturalLanguage (Str (js "longer than 3 or longer than 5"))
        = Return fs
        /\ min_length fs = Some (Num 4)
        /\ min_length fs <> Some (Num (5 + 1))).
Proof.
  split; [vm_compute; reflexivity|].
  repeat split;
    (eexists; split; [vm_compute; reflexivity|]; cbn [min_length];
     split; [reflexivity | discriminate]).
Qed.

Section ContainsRule.
Import Regex Rules Fields.

Lemma range_listed (lo n : nat) (x : Z) :
  Z.of_nat lo <= x < Z.of_nat (lo + n) -> In x (map Z.of_nat (seq lo n)).
Proof.
  intros Hx. apply in_map_iff. exists (Z.to_nat x). split; [lia|].
  apply in_seq. lia.
Qed.

Lemma lower_letter_listed X :
  Char.is_upper X || Char.is_lower X = true -> In (Char.lower X) lower_letters.
Proof.
  unfold Char.lower, Char.is_upper, Char.is_lower, Char.in_range.
  intros H. apply orb_true_iff in H.
  rewrite !andb_true_iff, !Z.leb_le in H.
  apply range_listed.
  destruct (Z.leb_spec 65 X), (Z.leb_spec X 90); cbn [andb]; lia.
Qed.

Lemma digit_listed X :
  Char.is_digit X = true -> Char.lower X = X /\ In X decimal_digits.
Proof.
  unfold Char.lower, Char.is_upper, Char.is_digit, Char.in_range.
  rewrite andb_true_iff, !Z.leb_le. intros [? ?].
  replace (65 <=? X) with false by (symmetry; apply Z.leb_gt; lia).
  split; [reflexivity|]. apply range_listed. lia.
Qed.

(** The rule on every phrasing and every captured character, by
    evaluation. *)
Lemma contains_table1 :
  forallb (fun phrase =>
    forallb (fun x =>
      bool_decide (contains_character (fields1 (phrase ++ [x])) = Some [x]))
      lower_letters
    && forallb (fun x =>
         if bool_decide (phrase = js "containing the letter ")
         then bool_decide (contains_character (fields1 (phrase ++ [x])) = Some (js "t"))
         else Parsed.no_keys (fields1 (phrase ++ [x]))) decimal_digits)
    containing_phrases = true.
Proof. vm_compute. reflexivity. Qed.

Lemma contains_table2 :
  forallb (fun phrase =>
    forallb (fun x =>
      bool_decide (contains_character (fields2 (phrase ++ [x])) = Some [x]))
      (lower_letters ++ decimal_digits))
    containing_phrases = true.
Proof. vm_compute. reflexivity. Qed.

Lemma contains_fields1 phrase x :
  In phrase containing_phrases -> In x lower_letters ->
  contains_character (fields1 (phrase ++ [x])) = Some [x].
Proof.
  intros Hp Hx. pose proof contains_table1 as T.
  rewrite forallb_forall in T. specialize (T phrase Hp).
  apply andb_true_iff in T as [T _].
  rewrite forallb_forall in T. specialize (T x Hx).
  apply bool_decide_eq_true in T. exact T.
Qed.

Lemma contains_fields1_digit phrase x :
  In phrase containing_phrases -> In x decimal_digits ->
  if bool_decide (phrase = js "containing the letter ")
  then contains_character (fields1 (phrase ++ [x])) = Some (js "t")
  else Parsed.no_keys (fields1 (phrase ++ [x])) = true.
Proof.
  intros Hp Hx. pose proof contains_table1 as T.
  rewrite forallb_forall in T. specialize (T phrase Hp).
  apply andb_true_iff in T as [_ T].
  rewrite forallb_forall in T. specialize (T x Hx).
  destruct (bool_decide (phrase = js "containing the letter "));
    [apply bool_decide_eq_true in T|]; exact T.
Qed.

Lemma contains_fields2 phrase x :
  In phrase containing_phrases -> In x (lower_letters ++ decimal_digits) ->
  contains_character (fields2 (phrase ++ [x])) = Some [x].
Proof.
  intros Hp Hx. pose proof contains_table2 as T.
  rewrite forallb_forall in T. specialize (T phrase Hp).
  rewrite forallb_forall in T. specialize (T x Hx).
  apply bool_decide_eq_true in T. exact T.
Qed.

Lemma listed_not_space x :
  In x (lower_letters ++ decimal_digits) -> Char.is_space x = false.
Proof.
  intros H.
  assert (forallb (fun c => negb (Char.is_space c)) (lower_letters ++ decimal_digits)
          = true) as T by (vm_compute; reflexivity).
  rewrite forallb_forall in T. specialize (T x H).
  apply negb_true_iff in T. exact T.
Qed.

Lemma toLowerCase_snoc head X :
  toLowerCase (head ++ [X]) = toLowerCase head ++ [Char.lower X].
Proof. unfold toLowerCase. rewrite map_app. reflexivity. Qed.

End ContainsRule.

(** C5 (as the code has it).  For a sentence made of one of the phrasings
    "containing the letter ", "containing ", "contains " (in any case) and
    one character X: when X is a letter, both parsers return a filter with
    [contains_character = lowercase(X)], the phrasing satisfied first winning
    ("containing the letter x" gives "x", not the "t" of "containing t");
    when X is a decimal digit, the parser whose pattern captures [\w] does so
    too. *)
Theorem contains_rule (head phrase : jsstring) (X : Z) :
  In phrase containing_phrases ->
  toLowerCase head = phrase ->
  (Char.is_upper X || Char.is_lower X = true ->
   exists fs,
     NlParser1.parseNaturalLanguage (Str (head ++ [X])) = Return fs
     /\ contains_character fs = Some (toLowerCase [X]))
  /\ (Char.is_upper X || Char.is_lower X || Char.is_digit X = true ->
      exists fs,
        NlParser2.parseNaturalLanguage (Str (head ++ [X])) = Return fs
        /\ contains_character fs = Some (toLowerCase [X])).
Proof.
  intros Hp Hhead.
  assert (toLowerCase (head ++ [X]) = phrase ++ [Char.lower X]) as Hq
    by (rewrite toLowerCase_snoc, Hhead; reflexivity).
  assert (In (Char.lower X) (toLowerCase (head ++ [X]))) as Hin
    by (rewrite Hq; apply in_or_app; right; left; reflexivity).
  split.
  - intros HX. apply lower_letter_listed in HX.
    pose proof (contains_fields1 phrase _ Hp HX) as Hc.
    exists (Fields.fields1 (toLowerCase (head ++ [X]))). rewrite Hq. split; [|exact Hc].
    rewrite <- Hq. apply (parse1_returns _ (Char.lower X) Hin).
    + apply listed_not_space, in_or_app. left. exact HX.
    + rewrite Hq. destruct (Parsed.no_keys _) eqn:Hk; [|reflexivity].
      apply no_keys_fields in Hk as (_ & _ & _ & _ & Hk). congruence.
  - intros HX.
    assert (In (Char.lower X) (lower_letters ++ decimal_digits)) as Hl.
    { apply orb_true_iff in HX as [HX|HX]; apply in_or_app.
      - left. apply lower_letter_listed, HX.
      - right. destruct (digit_listed X HX) as [-> H]. exact H. }
    pose proof (contains_fields2 phrase _ Hp Hl) as Hc.
    exists (Fields.fields2 (toLowerCase (head ++ [X]))). rewrite Hq. split; [|exact Hc].
    rewrite <- Hq. apply parse2_returns.
    + rewrite Hq. destruct phrase; discriminate.
    + rewrite Hq. destruct (Parsed.no_keys _) eqn:Hk; [|reflexivity].
      apply no_keys_fields in Hk as (_ & _ & _ & _ & Hk). congruence.
Qed.

(** A digit under the parser whose pattern captures [[a-z]]: "containing
    the letter 5" falls back to the phrasing "containing t", the two other
    phrasings match nothing. *)
Lemma contains_rule_digit_first_parser (head phrase : jsstring) (X : Z) :
  In phrase containing_phrases ->
  toLowerCase head = phrase ->
  Char.is_digit X = true ->
  if bool_decide (phrase = js "containing the letter ")
  then exists fs,
         NlParser1.parseNaturalLanguage (Str (head ++ [X])) = Return fs
         /\ contains_character fs = Some (js "t")
  else NlParser1.parseNaturalLanguage (Str (head ++ [X])) = Throw unparseable.
Proof.
  intros Hp Hhead HX.
  assert (toLowerCase (head ++ [X]) = phrase ++ [Char.lower X]) as Hq
    by (rewrite toLowerCase_snoc, Hhead; reflexivity).
  assert (In (Char.lower X) (toLowerCase (head ++ [X]))) as Hin
    by (rewrite Hq; apply in_or_app; right; left; reflexivity).
  destruct (digit_listed X HX) as [HlX Hd].
  rewrite HlX in Hq, Hin.
  pose proof (digit_not_space X HX) as Hsp.
  pose proof (contains_fields1_digit phrase X Hp Hd) as Hc.
  destruct (bool_decide (phrase = js "containing the letter ")).
  - exists (Fields.fields1 (toLowerCase (head ++ [X]))). split.
    + apply (parse1_returns _ X Hin Hsp).
      rewrite Hq. destruct (Parsed.no_keys _) eqn:Hk; [|reflexivity].
      apply no_keys_fields in Hk as (_ & _ & _ & _ & Hk). congruence.
    + rewrite Hq. exact Hc.
  - rewrite parse1_unfold, Hq, Hc.
    rewrite bool_decide_eq_false_2; [reflexivity|].
    apply (not_blank _ X Hin Hsp).
Qed.

Lemma contains_rule_witness :
  In (js "containing the letter ") containing_phrases
  /\ toLowerCase (js "Containing the letter ") = js "containing the letter "
  /\ Char.is_upper 90 || Char.is_lower 90 = true
  /\ (exists fs,
        NlParser1.parseNaturalLanguage (Str (js "Containing the letter " ++ [90]))
        = Return fs
        /\ contains_character fs = Some (toLowerCase [90]))
  /\ (exists fs,
        NlParser2.parseNaturalLanguage (Str (js "Containing the letter " ++ [90]))
        = Return fs
        /\ contains_character fs = Some (toLowerCase [90])).
Proof.
  assert (In (js "containing the letter ") containing_phrases) as Hp
    by (left; reflexivity).
  split; [exact Hp|]. split; [reflexivity|]. split; [reflexivity|].
  destruct (contains_rule (js "Containing the letter ") (js "containing the letter ")
              90 Hp eq_refl) as [H1 H2].
  split; [apply H1 | apply H2]; reflexivity.
Defined.

(** C5, counterexample to the wording of the specification, on the parser
    whose pattern captures
    [[a-z]]: a digit is alphanumeric, "containing 5" sets no field and
    "containing the letter 5" sets "t". *)
Lemma containing_digit_not_captured :
  Char.is_digit 53 = true
  /\ NlParser1.parseNaturalLanguage (Str (js "containing 5")) = Throw unparseable
  /\ NlParser1.parseNaturalLanguage (Str (js "containing the letter 5"))
     = Return (mkFilterSpec None None None None (Some (js "t")))
  /\ js "t" <> toLowerCase (js "5").
Proof. repeat split; try (vm_compute; reflexivity). discriminate. Qed.

(** C2.  On a sentence that matches both the "containing" rule and the
    "first vowel" rule the second parser returns the fixed "a", not the
    captured character; the first parser returns the captured character. *)
Theorem first_vowel_overwrites_captured :
  NlParser2.parseNaturalLanguage
    (Str (js "strings containing the letter z and the first vowel"))
  = Return (mkFilterSpec None None None None (Some (js "a")))
  /\ NlParser1.parseNaturalLanguage
       (Str (js "strings containing the letter z and the first vowel"))
     = Return (mkFilterSpec None None None None (Some (js "z"))).
Proof. split; vm_compute; reflexivity. Qed.

(** The first parser keeps the captured character whenever the "containing"
    rule matches. *)
Lemma first_parser_keeps_captured (sentence : jsstring) (fs : FilterSpec)
    (caps : gmap nat jsstring) :
  NlParser1.parseNaturalLanguage (Str sentence) = Return fs ->
  Regex.exec true NlParser1.contains (toLowerCase sentence) = Some caps ->
  contains_character fs = Some (toLowerCase (capture caps 1)).
Proof.
  rewrite parse1_unfold. intros H Hc.
  destruct (bool_decide (trim sentence = [])); [discriminate|].
  destruct (Parsed.no_keys _); [discriminate|]. injection H as <-.
  cbn [Fields.fields1 contains_character]. rewrite Hc. reflexivity.
Qed.

(** The second parser returns "a" whenever the "first vowel" rule matches. *)
Lemma second_parser_first_vowel_wins (sentence : jsstring) (fs : FilterSpec) :
  NlParser2.parseNaturalLanguage (Str sentence) = Return fs ->
  Regex.test false Rules.first_vowel (toLowerCase sentence) = true ->
  contains_character fs = Some (js "a").
Proof.
  rewrite parse2_unfold. intros H Hv.
  destruct (bool_decide (sentence = [])); [discriminate|].
  destruct (Parsed.no_keys _); [discriminate|]. injection H as <-.
  cbn [Fields.fields2 contains_character]. rewrite Hv. reflexivity.
Qed.

(** ** The controller: claims *)

Section QueryFacts.
Import Store Query Regex Rules Fields.

Lemma lower_of_lower c : Char.is_lower c = true -> Char.lower c = c /\ c <> 46.
Proof.
  unfold Char.lower, Char.is_lower, Char.is_upper, Char.in_range.
  rewrite andb_true_iff, !Z.leb_le. intros [? ?].
  replace (c <=? 90) with false by (symmetry; apply Z.leb_gt; lia).
  rewrite andb_false_r. split; [reflexivity | lia].
Qed.

Lemma split_dots_plain piece s :
  forallb (fun c => negb (c =? 46)) s = true ->
  split_dots piece s = [rev piece ++ s].
Proof.
  revert piece. induction s as [|c s IH]; intros piece; cbn [forallb split_dots].
  - intros _. rewrite app_nil_r. reflexivity.
  - intros [Hc Hs]%andb_true_iff. apply negb_true_iff in Hc. rewrite Hc.
    rewrite IH by exact Hs. cbn [rev]. rewrite <- app_assoc. reflexivity.
Qed.

Lemma split_dots_dot piece s rest :
  forallb (fun c => negb (c =? 46)) s = true ->
  split_dots piece (s ++ 46 :: rest) = (rev piece ++ s) :: split_dots [] rest.
Proof.
  revert piece. induction s as [|c s IH]; intros piece; cbn [forallb split_dots app].
  - intros _. rewrite app_nil_r. reflexivity.
  - intros [Hc Hs]%andb_true_iff. apply negb_true_iff in Hc. rewrite Hc.
    rewrite IH by exact Hs. cbn [rev]. rewrite <- app_assoc. reflexivity.
Qed.

Lemma split_frequency c :
  c <> 46 ->
  split_dots [] (path_frequency [c])
  = [js "properties"; js "character_frequency_map"; [c]].
Proof.
  intros Hc. unfold path_frequency.
  change (js "properties.character_frequency_map." ++ [c])
    with (js "properties" ++ 46 :: (js "character_frequency_map" ++ 46 :: [c])).
  rewrite split_dots_dot by reflexivity.
  rewrite split_dots_dot by reflexivity.
  rewrite split_dots_plain.
  - reflexivity.
  - cbn [forallb]. apply Z.eqb_neq in Hc. rewrite Hc. reflexivity.
Qed.
(** The path of a frequency entry resolves to the entry of the map. *)
Lemma lookup_path_frequency doc c :
  c <> 46 ->
  lookup_path doc (path_frequency [c])
  = of_nat <$> p_character_frequency_map (doc_properties doc) !! [c].
Proof.
  intros Hc. unfold lookup_path. rewrite (split_frequency c Hc). reflexivity.
Qed.

Lemma holds_exists_positive (o : option nat) :
  holds exists_positive (of_nat <$> o) = true <->
  exists n, o = Some n /\ (0 < n)%nat.
Proof.
  destruct o as [n|]; cbn.
  - rewrite !andb_true_r. rewrite Z.ltb_lt. split.
    + intros H. exists n. split; [reflexivity | lia].
    + intros (m & [= <-] & H). lia.
  - split; [discriminate | intros (m & H & _); discriminate].
Qed.

Lemma matches_singleton path c doc :
  matches (<[path := c]> ∅) doc = true <-> holds c (lookup_path doc path) = true.
Proof.
  unfold matches. rewrite bool_decide_eq_true.
  rewrite map_Forall_insert by apply lookup_empty.
  split; [intros [H _]; exact H | intros H; split; [exact H | apply map_Forall_empty]].
Qed.

Lemma contains_query_matches doc c :
  c <> 46 ->
  matches (<[path_frequency [c] := exists_positive]> ∅) doc = true <->
  positive_entry doc [c].
Proof.
  intros Hc. rewrite matches_singleton, lookup_path_frequency by exact Hc.
  apply holds_exists_positive.
Qed.

End QueryFacts.

(** C1 (as the code has it).  For a stored document and a filter that sets
    [contains_character] alone, to a lower-case letter [c], the query of the
    explicit path, the query of the natural-language path and the query of
    the earlier copy of the controller each select the document exactly when
    the case-sensitive [character_frequency_map] has a strictly positive
    count under the key [c] itself. *)
Theorem contains_character_query (doc : Document) (c : Z) :
  Char.is_lower c = true ->
  (exists q, Controller.build_query (only_contains [c]) = Continue q
             /\ (Store.matches q doc = true <-> positive_entry doc [c]))
  /\ (Store.matches (Controller.mongo_query (filter_contains [c])) doc = true
      <-> positive_entry doc [c])
  /\ (exists q, ControllerEarly.build_query (only_contains [c]) = Continue q
                /\ (Store.matches q doc = true <-> positive_entry doc [c]))
  /\ (Store.matches (ControllerEarly.mongo_query (filter_contains [c])) doc = true
      <-> positive_entry doc [c]).
Proof.
  intros Hc. destruct (lower_of_lower c Hc) as [Hl Hdot].
  pose proof (contains_query_matches doc c Hdot) as H.
  repeat split.
  - eexists. split; [reflexivity|]. cbn [toLowerCase map]. rewrite Hl. exact H.
  - unfold Controller.mongo_query, filter_contains.
    cbn [is_palindrome min_length max_length word_count contains_character
         toLowerCase map length Nat.eqb]. rewrite Hl. apply H.
  - unfold Controller.mongo_query, filter_contains.
    cbn [is_palindrome min_length max_length word_count contains_character
         toLowerCase map length Nat.eqb]. rewrite Hl. apply H.
  - eexists. split; [reflexivity|]. exact H.
  - apply H.
  - apply H.
Qed.

Lemma contains_character_query_witness :
  Char.is_lower 110 = true
  /\ exists doc,
       stored_document (js "banana") 0 = Some doc
       /\ (Store.matches (Controller.mongo_query (filter_contains [110])) doc = true
           <-> positive_entry doc [110]).
Proof.
  split; [reflexivity|].
  eexists. split; [reflexivity|].
  apply (contains_character_query _ 110). reflexivity.
Defined.

(** C1, counterexample to the wording of the specification: the stored "A"
    has a positive count
    under the upper-case key, and the filter "a" does not select it. *)
Lemma uppercase_entry_not_matched :
  exists doc q,
    stored_document (js "A") 0 = Some doc
    /\ Controller.build_query (only_contains (js "a")) = Continue q
    /\ p_character_frequency_map (doc_properties doc) !! [Char.upper 97] = Some 1%nat
    /\ Store.matches q doc = false
    /\ Store.matches (Controller.mongo_query (filter_contains (js "a"))) doc = false.
Proof.
  eexists. eexists. split; [reflexivity|]. split; [reflexivity|].
  repeat split; vm_compute; reflexivity.
Qed.

Section Agreement.
Import Store Query Regex Rules Fields.

Lemma number_after_not_NaN icase cs q k n :
  number_after icase (cat [chars cs; Group 1 (PlusClass digit)]) q
    (fun m => Number.add m k) = Some n ->
  Number.isNaN n = false.
Proof.
  unfold number_after.
  destruct (exec icase _ q) as [caps|] eqn:He; [|discriminate].
  intros [= <-]. apply exec_number in He as (ds & -> & Hds).
  rewrite (parseInt_decimal ds Hds). apply add_not_NaN, round_nonneg_not_NaN.
Qed.

Lemma well_formed_fields1 q : well_formed (fields1 q).
Proof.
  unfold well_formed, fields1.
  cbn [word_count min_length max_length contains_character].
  repeat split.
  - intros n. destruct (test false NlParser1.single_word q); intros [= <-]. reflexivity.
  - intros n. apply number_after_not_NaN.
  - intros n. apply (number_after_not_NaN true _ q (-1)).
  - intros c. destruct (exec true NlParser1.contains q) as [caps|] eqn:He.
    + apply exec_contains1 in He as (x & -> & _). intros [= <-]. reflexivity.
    + destruct (test false first_vowel q); intros [= <-]. reflexivity.
Qed.

Lemma well_formed_fields2 q : well_formed (fields2 q).
Proof.
  unfold well_formed, fields2.
  cbn [word_count min_length max_length contains_character].
  repeat split.
  - intros n. destruct (_ || _); intros [= <-]. reflexivity.
  - intros n. apply number_after_not_NaN.
  - intros n. apply (number_after_not_NaN false _ q (-1)).
  - intros c. destruct (test false first_vowel q); [intros [= <-]; reflexivity|].
    destruct (exec false NlParser2.contains q) as [caps|] eqn:He; [|discriminate].
    apply exec_contains2 in He as (x & -> & _). intros [= <-]. reflexivity.
Qed.

Lemma parse1_well_formed sentence fs :
  NlParser1.parseNaturalLanguage (Str sentence) = Return fs -> well_formed fs.
Proof.
  rewrite parse1_unfold.
  destruct (bool_decide _); [discriminate|].
  destruct (Parsed.no_keys _); [discriminate|].
  intros [= <-]. apply well_formed_fields1.
Qed.

Lemma parse2_well_formed sentence fs :
  NlParser2.parseNaturalLanguage (Str sentence) = Return fs -> well_formed fs.
Proof.
  rewrite parse2_unfold.
  destruct (bool_decide _); [discriminate|].
  destruct (Parsed.no_keys _); [discriminate|].
  intros [= <-]. apply well_formed_fields2.
Qed.

(** The validation of the explicit path passes on the field values of a
    well-formed filter, and the two constructions give the same query. *)
Lemma queries_agree rq fs :
  well_formed fs -> same_fields rq fs ->
  Controller.build_query rq = Continue (Controller.mongo_query fs).
Proof.
  intros (Hw & Hmin & Hmax & Hc) (Hp & Hn & Hx & Hwc & Hch).
  destruct rq as [rp rmin rmax rwc rch], fs as [fwc fp fmin fmax fch].
  cbn [q_is_palindrome q_min_length q_max_length q_word_count q_contains_character
       word_count is_palindrome min_length max_length contains_character] in *.
  subst rp rch.
  unfold Controller.build_query, Controller.mongo_query.
  cbn [q_is_palindrome q_min_length q_max_length q_word_count q_contains_character
       word_count is_palindrome min_length max_length contains_character
       mbind step_bind].
  assert (forall (r : option jsstring) (f : option number),
            Number.parseInt <$> r = f ->
            (forall n, f = Some n -> Number.isNaN n = false) ->
            match r with
            | Some s => f = Some (Number.parseInt s)
                        /\ Number.isNaN (Number.parseInt s) = false
            | None => f = None
            end) as Hnum.
  { intros [s|] f; cbn; intros <- Hf; [split; auto | reflexivity]. }
  apply Hnum in Hn, Hx, Hwc; try assumption.
  destruct fp as [[|]|]; cbn [fmap option_fmap option_map string_eqb negb andb mbind step_bind];
    (destruct rmin as [smin|]; [destruct Hn as [-> ->] | subst fmin]);
    (destruct rmax as [smax|]; [destruct Hx as [-> ->] | subst fmax]);
    (destruct rwc as [swc|]; [destruct Hwc as [-> ->] | subst fwc]);
    (destruct fch as [ch|];
     [rewrite (Hc ch eq_refl); unfold toLowerCase; rewrite length_map, (Hc ch eq_refl) |]);
    reflexivity.
Qed.

Lemma agreement_for (parse : jsvalue -> outcome FilterSpec) store sentence fs rq :
  parse (Str []) <> Return fs ->
  well_formed fs -> same_fields rq fs ->
  parse (Str sentence) = Return fs ->
  Controller.build_query rq = Continue (Controller.mongo_query fs)
  /\ Controller.getAllStrings store rq
     = JsonList 200 (find store (Controller.mongo_query fs))
         (length (find store (Controller.mongo_query fs)))
  /\ Controller.filterByNaturalLanguage parse store (Some sentence)
     = Controller.getAllStrings store rq.
Proof.
  intros Hnil Hwf Hsame Hparse.
  pose proof (queries_agree rq fs Hwf Hsame) as Hq.
  unfold Controller.getAllStrings, Controller.filterByNaturalLanguage.
  rewrite Hq. destruct sentence as [|c sentence]; [congruence|].
  rewrite Hparse. auto.
Qed.

(** The same for the earlier copy of the controller. *)
Lemma queries_agree_early rq fs :
  well_formed fs -> same_fields rq fs ->
  ControllerEarly.build_query rq = Continue (ControllerEarly.mongo_query fs).
Proof.
  intros (Hw & Hmin & Hmax & Hc) (Hp & Hn & Hx & Hwc & Hch).
  destruct rq as [rp rmin rmax rwc rch], fs as [fwc fp fmin fmax fch].
  cbn [q_is_palindrome q_min_length q_max_length q_word_count q_contains_character
       word_count is_palindrome min_length max_length contains_character] in *.
  subst rp rch.
  unfold ControllerEarly.build_query, ControllerEarly.mongo_query.
  cbn [q_is_palindrome q_min_length q_max_length q_word_count q_contains_character
       word_count is_palindrome min_length max_length contains_character
       mbind step_bind].
  assert (forall (r : option jsstring) (f : option number),
            Number.parseInt <$> r = f ->
            (forall n, f = Some n -> Number.isNaN n = false) ->
            match r with
            | Some s => f = Some (Number.parseInt s)
                        /\ Number.isNaN (Number.parseInt s) = false
            | None => f = None
            end) as Hnum.
  { intros [s|] f; cbn; intros <- Hf; [split; auto | reflexivity]. }
  apply Hnum in Hn, Hx, Hwc; try assumption.
  destruct fp as [[|]|]; cbn [fmap option_fmap option_map string_eqb negb andb mbind step_bind];
    (destruct rmin as [smin|]; [destruct Hn as [-> ->] | subst fmin]);
    (destruct rmax as [smax|]; [destruct Hx as [-> ->] | subst fmax]);
    (destruct rwc as [swc|]; [destruct Hwc as [-> ->] | subst fwc]);
    (destruct fch as [ch|]; [rewrite (Hc ch eq_refl) |]);
    reflexivity.
Qed.

Lemma agreement_early_for (parse : jsvalue -> outcome FilterSpec) store sentence fs rq :
  parse (Str []) <> Return fs ->
  well_formed fs -> same_fields rq fs ->
  parse (Str sentence) = Return fs ->
  ControllerEarly.filterByNaturalLanguage parse store (Some sentence)
  = ControllerEarly.getAllStrings store rq.
Proof.
  intros Hnil Hwf Hsame Hparse.
  pose proof (queries_agree_early rq fs Hwf Hsame) as Hq.
  unfold ControllerEarly.getAllStrings, ControllerEarly.filterByNaturalLanguage.
  rewrite Hq. destruct sentence as [|c sentence]; [congruence|].
  rewrite Hparse. reflexivity.
Qed.

End Agreement.

(** C4.  Let the query-string parameters [rq] carry the field values of a
    filter [fs].  When [fs] is of the kind the parsers return (no number is
    NaN, the character is one Basic Latin code unit), the explicit path
    accepts [rq], builds the query that the natural-language path builds
    from [fs], and answers with the documents that query selects.  When a
    parser (either declaration) returns [fs] for a sentence of Basic Latin
    characters, [getAllStrings] on [rq] and [filterByNaturalLanguage] on the
    sentence answer with the same documents in the same order, for every
    store. *)
Theorem paths_select_the_same (store : list Document) (sentence : jsstring)
    (fs : FilterSpec) (rq : ReqQuery) :
  same_fields rq fs ->
  (well_formed fs ->
   (forall c, contains_character fs = Some c -> basic_latin c) ->
   Controller.build_query rq = Continue (Controller.mongo_query fs)
   /\ Controller.getAllStrings store rq
      = JsonList 200 (Store.find store (Controller.mongo_query fs))
          (length (Store.find store (Controller.mongo_query fs))))
  /\ (basic_latin sentence ->
      (NlParser1.parseNaturalLanguage (Str sentence) = Return fs ->
       Controller.build_query rq = Continue (Controller.mongo_query fs)
       /\ Controller.getAllStrings store rq
          = JsonList 200 (Store.find store (Controller.mongo_query fs))
              (length (Store.find store (Controller.mongo_query fs)))
       /\ Controller.filterByNaturalLanguage NlParser1.parseNaturalLanguage store
            (Some sentence)
          = Controller.getAllStrings store rq)
      /\ (NlParser2.parseNaturalLanguage (Str sentence) = Return fs ->
          Controller.build_query rq = Continue (Controller.mongo_query fs)
          /\ Controller.getAllStrings store rq
             = JsonList 200 (Store.find store (Controller.mongo_query fs))
                 (length (Store.find store (Controller.mongo_query fs)))
          /\ Controller.filterByNaturalLanguage NlParser2.parseNaturalLanguage store
               (Some sentence)
             = Controller.getAllStrings store rq)).
Proof.
  intros Hsame. split.
  - intros Hwf _. pose proof (queries_agree rq fs Hwf Hsame) as Hq.
    split; [exact Hq|]. unfold Controller.getAllStrings. rewrite Hq. reflexivity.
  - intros _. split; intros Hparse.
    + apply agreement_for; try assumption; [discriminate|].
      eapply parse1_well_formed, Hparse.
    + apply agreement_for; try assumption; [discriminate|].
      eapply parse2_well_formed, Hparse.
Qed.

(** The earlier copy of the controller agrees with itself in the same way. *)
Lemma paths_select_the_same_early (store : list Document) (sentence : jsstring)
    (fs : FilterSpec) (rq : ReqQuery) :
  same_fields rq fs ->
  basic_latin sentence ->
  (NlParser1.parseNaturalLanguage (Str sentence) = Return fs ->
   ControllerEarly.filterByNaturalLanguage NlParser1.parseNaturalLanguage store
     (Some sentence)
   = ControllerEarly.getAllStrings store rq)
  /\ (NlParser2.parseNaturalLanguage (Str sentence) = Return fs ->
      ControllerEarly.filterByNaturalLanguage NlParser2.parseNaturalLanguage store
        (Some sentence)
      = ControllerEarly.getAllStrings store rq).
Proof.
  intros Hsame _. split; intros Hparse.
  - apply agreement_early_for with (fs := fs); try assumption; [discriminate|].
    eapply parse1_well_formed, Hparse.
  - apply agreement_early_for with (fs := fs); try assumption; [discriminate|].
    eapply parse2_well_formed, Hparse.
Qed.

Lemma paths_select_the_same_witness :
  same_fields (mkReqQuery (Some (js "true")) (Some (js "6")) None None None)
    (mkFilterSpec None (Some true) (Some (Num 6)) None None)
  /\ basic_latin (js "palindromic strings longer than 5")
  /\ NlParser1.parseNaturalLanguage (Str (js "palindromic strings longer than 5"))
     = Return (mkFilterSpec None (Some true) (Some (Num 6)) None None)
  /\ Controller.filterByNaturalLanguage NlParser1.parseNaturalLanguage
       [mkDocument (js "id1") (js "racecar")
          (mkProperties 7 true 4 1 (js "id1") ∅) 1;
        mkDocument (js "id2") (js "hello")
          (mkProperties 5 false 4 1 (js "id2") ∅) 2]
       (Some (js "palindromic strings longer than 5"))
     = Controller.getAllStrings
         [mkDocument (js "id1") (js "racecar")
            (mkProperties 7 true 4 1 (js "id1") ∅) 1;
          mkDocument (js "id2") (js "hello")
            (mkProperties 5 false 4 1 (js "id2") ∅) 2]
         (mkReqQuery (Some (js "true")) (Some (js "6")) None None None).
Proof.
  assert (same_fields (mkReqQuery (Some (js "true")) (Some (js "6")) None None None)
            (mkFilterSpec None (Some true) (Some (Num 6)) None None)) as Hsame
    by (repeat split; reflexivity).
  assert (basic_latin (js "palindromic strings longer than 5")) as Hb
    by (repeat constructor; discriminate).
  assert (NlParser1.parseNaturalLanguage (Str (js "palindromic strings longer than 5"))
          = Return (mkFilterSpec None (Some true) (Some (Num 6)) None None)) as Hparse
    by (vm_compute; reflexivity).
  split; [exact Hsame|]. split; [exact Hb|]. split; [exact Hparse|].
  destruct (paths_select_the_same
              [mkDocument (js "id1") (js "racecar")
                 (mkProperties 7 true 4 1 (js "id1") ∅) 1;
               mkDocument (js "id2") (js "hello")
                 (mkProperties 5 false 4 1 (js "id2") ∅) 2]
              (js "palindromic strings longer than 5") _ _ Hsame) as [_ H].
  destruct (H Hb) as [H1 _].
  destruct (H1 Hparse) as (_ & _ & H3). exact H3.
Defined.

(** ** Further properties of the analyzer *)

Lemma trimStart_split (s : jsstring) :
  exists ws, s = ws ++ trimStart s /\ Forall (fun c => Char.is_space c = true) ws.
Proof.
  induction s as [|c s (ws & Hs & Hws)]; [exists []; split; [reflexivity | constructor]|].
  cbn [trimStart]. destruct (Char.is_space c) eqn:Hc.
  - exists (c :: ws). split; [cbn; congruence | constructor; assumption].
  - exists []. split; [reflexivity | constructor].
Qed.

Lemma trimEnd_split (s : jsstring) :
  exists ws, s = trimEnd s ++ ws /\ Forall (fun c => Char.is_space c = true) ws.
Proof.
  unfold trimEnd. destruct (trimStart_split (rev s)) as (ws & Hs & Hws).
  exists (rev ws). split; [|apply Forall_rev, Hws].
  rewrite <- rev_app_distr, <- Hs, rev_involutive. reflexivity.
Qed.

Lemma trimEnd_last (s : jsstring) :
  trimEnd s = [] \/ exists u c, trimEnd s = u ++ [c] /\ Char.is_space c = false.
Proof.
  unfold trimEnd. pose proof (trimStart_head (rev s)) as Hh.
  destruct (trimStart (rev s)) as [|c r]; [left; reflexivity|].
  right. exists (rev r), c. split; [reflexivity | exact Hh].
Qed.

Lemma trim_all_space (s : jsstring) :
  Forall (fun c => Char.is_space c = true) s -> trim s = [].
Proof.
  intros Hs. unfold trim.
  assert (trimStart s = []) as ->; [|reflexivity].
  induction Hs as [|c s Hc _ IH]; [reflexivity|]. cbn [trimStart]. rewrite Hc. exact IH.
Qed.

Lemma split_space_length (piece : jsstring) (in_run : bool) (s : jsstring) :
  length (Regex.split_space_from piece in_run s) = S (run_starts_from in_run s).
Proof.
  revert piece in_run. induction s as [|c s IH]; intros piece in_run; [reflexivity|].
  cbn [Regex.split_space_from run_starts_from].
  rewrite class_match_space. destruct (Char.is_space c).
  - destruct in_run; cbn [length]; rewrite IH; reflexivity.
  - apply IH.
Qed.

Lemma word_starts_spaces (b : bool) (ws s : jsstring) :
  Forall (fun c => Char.is_space c = true) ws ->
  word_starts_from b (ws ++ s) = word_starts_from true s
  \/ (ws = [] /\ word_starts_from b (ws ++ s) = word_starts_from b s).
Proof.
  intros Hws. destruct Hws as [|c ws Hc Hws]; [right; auto|]. left.
  cbn [app word_starts_from]. rewrite Hc. clear c Hc.
  induction Hws as [|c ws Hc _ IH]; [reflexivity|].
  cbn [app word_starts_from]. rewrite Hc. exact IH.
Qed.

Lemma word_starts_trailing (b : bool) (s ws : jsstring) :
  Forall (fun c => Char.is_space c = true) ws ->
  word_starts_from b (s ++ ws) = word_starts_from b s.
Proof.
  intros Hws. revert b. induction s as [|c s IH]; intros b.
  - cbn [app]. clear -Hws. revert b.
    induction Hws as [|c ws Hc _ IH]; intros b; [reflexivity|].
    cbn [word_starts_from]. rewrite Hc. apply IH.
  - cbn [app word_starts_from]. destruct (Char.is_space c); rewrite IH; reflexivity.
Qed.

(** Between a state and the end of a string that ends in a word, words and
    white-space runs alternate. *)
Lemma words_and_runs (b : bool) (u : jsstring) (c : Z) :
  Char.is_space c = false ->
  (word_starts_from b (u ++ [c]) + (if b then 0 else 1) =
   run_starts_from b (u ++ [c]) + 1)%nat.
Proof.
  intros Hc. revert b. induction u as [|x u IH]; intros b.
  - cbn [app word_starts_from run_starts_from]. rewrite Hc. destruct b; reflexivity.
  - cbn [app word_starts_from run_starts_from]. destruct (Char.is_space x).
    + specialize (IH true). destruct b; cbv iota in *; lia.
    + specialize (IH false). destruct b; cbv iota in *; lia.
Qed.

Lemma run_starts_head (b : bool) (c : Z) (s : jsstring) :
  Char.is_space c = false ->
  run_starts_from b (c :: s) = run_starts_from false (c :: s).
Proof. intros Hc. cbn [run_starts_from]. rewrite Hc. reflexivity. Qed.

Lemma wordCount_word_starts (value : jsstring) : wordCount value = word_starts value.
Proof.
  unfold wordCount, word_starts.
  destruct (bool_decide (value = [])) eqn:Hv.
  { apply bool_decide_eq_true in Hv. subst. reflexivity. }
  cbn [orb]. destruct (bool_decide (trim value = [])) eqn:Ht.
  { apply bool_decide_eq_true in Ht. apply trim_nil in Ht.
    rewrite <- (app_nil_r value).
    destruct (word_starts_spaces true value [] Ht) as [H | [_ H]]; rewrite H; reflexivity. }
  apply bool_decide_eq_false in Ht.
  unfold Regex.split_space. rewrite split_space_length.
  destruct (trimStart_split value) as (ws1 & Hv1 & Hws1).
  unfold trim in *.
  destruct (trimEnd_split (trimStart value)) as (ws2 & Hv2 & Hws2).
  destruct (trimEnd_last (trimStart value)) as [Hnil | (u & c & Ht' & Hc)]; [congruence|].
  pose proof (trimStart_head value) as Hhead.
  rewrite Hv1 at 2.
  assert (word_starts_from true (ws1 ++ trimStart value)
          = word_starts_from true (trimStart value)) as ->.
  { destruct (word_starts_spaces true ws1 (trimStart value) Hws1) as [H | [_ H]];
      rewrite H; reflexivity. }
  rewrite Hv2 at 2. rewrite word_starts_trailing by exact Hws2.
  rewrite Ht'. pose proof (words_and_runs true u c Hc) as Hbal.
  assert (run_starts_from false (u ++ [c]) = run_starts_from true (u ++ [c])) as ->.
  { rewrite Hv2, Ht' in Hhead. destruct u as [|x u]; cbn [app] in *.
    - cbn [run_starts_from]. rewrite Hc. reflexivity.
    - symmetry. apply run_starts_head. exact Hhead. }
  cbv iota in Hbal. lia.
Qed.

Lemma word_starts_zero (s : jsstring) :
  word_starts_from true s = 0%nat <-> Forall (fun c => Char.is_space c = true) s.
Proof.
  split.
  - induction s as [|c s IH]; [constructor|].
    cbn [word_starts_from]. destruct (Char.is_space c) eqn:Hc; [|discriminate].
    intros H. constructor; auto.
  - intros Hs. rewrite <- (app_nil_r s).
    destruct (word_starts_spaces true s [] Hs) as [H | [_ H]]; rewrite H; reflexivity.
Qed.

Lemma word_starts_separated (b : bool) (a : jsstring) (sp : Z) (s : jsstring) :
  Char.is_space sp = true ->
  word_starts_from b (a ++ sp :: s)
  = (word_starts_from b a + word_starts_from true s)%nat.
Proof.
  intros Hsp. revert b. induction a as [|c a IH]; intros b.
  - cbn [app word_starts_from]. rewrite Hsp. reflexivity.
  - cbn [app word_starts_from]. destruct (Char.is_space c); rewrite IH; lia.
Qed.

(** X1.  [word_count] is the number of words: the number of positions of the
    string where a character that is not white space starts the string or
    follows a white-space character.  The empty string and strings of white
    space have none. *)
Theorem wordCount_counts_words (value : jsstring) :
  (exists p, analyze (Str value) = Return p /\ p_word_count p = word_starts value)
  /\ (wordCount value = 0%nat <-> Forall (fun c => Char.is_space c = true) value).
Proof.
  split.
  - eexists. split; [reflexivity|]. apply wordCount_word_starts.
  - rewrite wordCount_word_starts. apply word_starts_zero.
Qed.

(** X2.  Word counts add up across a white-space character, and white space
    around a string does not change its count. *)
Theorem wordCount_composes (a b : jsstring) (sp : Z) :
  Char.is_space sp = true ->
  wordCount (a ++ sp :: b) = (wordCount a + wordCount b)%nat
  /\ wordCount (sp :: a) = wordCount a
  /\ wordCount (a ++ [sp]) = wordCount a
  /\ wordCount (trim a) = wordCount a.
Proof.
  intros Hsp. rewrite !wordCount_word_starts. unfold word_starts.
  split; [apply word_starts_separated, Hsp|]. split; [|split].
  - cbn [word_starts_from]. rewrite Hsp. reflexivity.
  - apply word_starts_trailing. constructor; [exact Hsp | constructor].
  - unfold trim.
    destruct (trimStart_split a) as (ws1 & Ha1 & Hws1).
    destruct (trimEnd_split (trimStart a)) as (ws2 & Ha2 & Hws2).
    rewrite Ha1 at 2.
    assert (word_starts_from true (ws1 ++ trimStart a)
            = word_starts_from true (trimStart a)) as ->.
    { destruct (word_starts_spaces true ws1 (trimStart a) Hws1) as [H | [_ H]];
        rewrite H; reflexivity. }
    rewrite Ha2 at 2. rewrite word_starts_trailing by exact Hws2. reflexivity.
Qed.

Lemma wordCount_composes_witness :
  Char.is_space 32 = true
  /\ wordCount (js "one two" ++ 32 :: js "three")
     = (wordCount (js "one two") + wordCount (js "three"))%nat.
Proof.
  split; [reflexivity|].
  apply (wordCount_composes (js "one two") (js "three") 32). reflexivity.
Defined.

Lemma occurrences_permutation (ch : jsstring) (l1 l2 : list jsstring) :
  Permutation l1 l2 ->
  length (filter (fun x => x = ch) l1) = length (filter (fun x => x = ch) l2).
Proof.
  intros H. induction H as [|x l1 l2 _ IH|x y l|l1 l2 l3 _ IH1 _ IH2].
  - reflexivity.
  - rewrite !filter_cons. destruct (decide (x = ch)); cbn [length]; congruence.
  - rewrite !filter_cons. destruct (decide (x = ch)), (decide (y = ch)); reflexivity.
  - congruence.
Qed.

(** X3.  Every count of the frequency map is the number of times the
    character occurs in the string, characters that do not occur have no
    entry, and two strings with the same characters in any order have the
    same map. *)
Theorem frequency_counts_occurrences (value : jsstring) :
  (forall ch,
     charFrequencyMap value !! ch
     = match occurrences ch value with
       | O => None
       | S n => Some (S n)
       end)
  /\ (forall other,
        Permutation (codePoints value) (codePoints other) ->
        charFrequencyMap value = charFrequencyMap other).
Proof.
  split; [apply charFrequencyMap_lookup|].
  intros other Hperm. apply map_eq. intros ch.
  rewrite !charFrequencyMap_lookup. unfold occurrences.
  rewrite (occurrences_permutation ch _ _ Hperm). reflexivity.
Qed.

Lemma size_count_char (m : gmap jsstring nat) (ch : jsstring) :
  (size m <= size (count_char m ch) <= S (size m))%nat.
Proof.
  unfold count_char. rewrite map_size_insert.
  destruct (m !! ch); cbn [id]; lia.
Qed.

Lemma size_fold_count_char (l : list jsstring) (m : gmap jsstring nat) :
  (size (fold_left count_char l m) <= length l + size m)%nat.
Proof.
  revert m. induction l as [|ch l IH]; intros m; cbn [fold_left length]; [lia|].
  specialize (IH (count_char m ch)). pose proof (size_count_char m ch). lia.
Qed.

Lemma surrogatePairs_bound (s : jsstring) :
  (surrogatePairs s <= length (codePoints s))%nat.
Proof.
  induction s as [|h|h l t IHt IHlt] using iterator_ind; [cbn; lia | cbn; lia |].
  rewrite codePoints_step, surrogatePairs_step.
  destruct (Char.is_high_surrogate h && Char.is_low_surrogate l); cbn [length]; lia.
Qed.

(** X4.  The numbers [analyze] reports bound each other: there are at most
    as many distinct characters as code points, at most as many code points
    as code units, and at most two code units per code point; no distinct
    character means the empty string. *)
Theorem analyze_counts_bounded (value : jsstring) :
  exists p,
    analyze (Str value) = Return p
    /\ (p_unique_characters p <= length (codePoints value) <= p_length p)%nat
    /\ (p_length p <= 2 * length (codePoints value))%nat
    /\ (p_unique_characters p = 0%nat <-> value = []).
Proof.
  eexists. split; [reflexivity|]. cbn [p_unique_characters p_length].
  pose proof (codePoints_units value) as Hu.
  pose proof (surrogatePairs_bound value) as Hs.
  pose proof (size_fold_count_char (codePoints value) ∅) as Hf.
  rewrite map_size_empty in Hf. fold (charFrequencyMap value) in Hf.
  split; [lia|]. split; [lia|]. split.
  - intros H0. apply map_size_empty_inv in H0.
    destruct value as [|c value]; [reflexivity|]. exfalso.
    pose proof (charFrequencyMap_lookup (c :: value)
                  (hd [] (codePoints (c :: value)))) as Hl.
    rewrite H0, lookup_empty in Hl. unfold occurrences in Hl.
    destruct (codePoints (c :: value)) as [|cp rest] eqn:Hcp.
    + pose proof (codePoints_concat (c :: value)) as Hc. rewrite Hcp in Hc. discriminate.
    + cbn [hd] in Hl. rewrite filter_cons_True in Hl by reflexivity. discriminate.
  - intros ->. reflexivity.
Qed.

Lemma isPalindrome_normal_form (value : jsstring) :
  isPalindrome value
  = string_eqb (palindrome_normal_form value) (rev (palindrome_normal_form value)).
Proof.
  unfold isPalindrome, palindrome_normal_form.
  rewrite replaceAll_space, join_rev_split. reflexivity.
Qed.

Lemma string_eqb_sym (a b : jsstring) : string_eqb a b = string_eqb b a.
Proof.
  apply eq_true_iff_eq. rewrite !string_eqb_eq. split; congruence.
Qed.

Lemma string_eqb_rev (a b : jsstring) : string_eqb (rev a) (rev b) = string_eqb a b.
Proof.
  apply eq_true_iff_eq. rewrite !string_eqb_eq. split; [|congruence].
  intros H. apply (f_equal (@rev Z)) in H. rewrite !rev_involutive in H. exact H.
Qed.

Lemma strip_whitespace_app (a b : jsstring) :
  strip_whitespace (a ++ b) = strip_whitespace a ++ strip_whitespace b.
Proof. unfold strip_whitespace. apply filter_app. Qed.

Lemma strip_whitespace_rev (s : jsstring) :
  strip_whitespace (rev s) = rev (strip_whitespace s).
Proof.
  induction s as [|c s IH]; [reflexivity|].
  cbn [rev]. rewrite strip_whitespace_app, IH.
  unfold strip_whitespace. rewrite !filter_cons, filter_nil.
  destruct (decide (Char.is_space c = false)); cbn [rev app];
    [reflexivity | apply app_nil_r].
Qed.

Lemma strip_whitespace_spaces (ws : jsstring) :
  Forall (fun c => Char.is_space c = true) ws -> strip_whitespace ws = [].
Proof.
  unfold strip_whitespace. induction 1 as [|c ws Hc _ IH]; [reflexivity|].
  rewrite filter_cons_False by congruence. exact IH.
Qed.

Lemma normal_form_rev (s : jsstring) :
  palindrome_normal_form (rev s) = rev (palindrome_normal_form s).
Proof.
  unfold palindrome_normal_form, toLowerCase.
  rewrite strip_whitespace_rev, map_rev. reflexivity.
Qed.

Lemma lower_idempotent (c : Z) : Char.lower (Char.lower c) = Char.lower c.
Proof.
  unfold Char.lower, Char.is_upper, Char.in_range.
  destruct (Z.leb_spec 65 c), (Z.leb_spec c 90); cbn [andb]; try reflexivity;
    try (destruct (Z.leb_spec 65 c), (Z.leb_spec c 90); cbn [andb]; (reflexivity || lia)).
  replace (c + 32 <=? 90) with false by (symmetry; apply Z.leb_gt; lia).
  rewrite andb_false_r. reflexivity.
Qed.

Lemma toLowerCase_idempotent (s : jsstring) :
  toLowerCase (toLowerCase s) = toLowerCase s.
Proof.
  unfold toLowerCase. rewrite map_map. apply map_ext. intros c. apply lower_idempotent.
Qed.

Lemma strip_whitespace_lower (s : jsstring) :
  strip_whitespace (toLowerCase s) = toLowerCase (strip_whitespace s).
Proof.
  unfold strip_whitespace, toLowerCase.
  induction s as [|c s IH]; [reflexivity|].
  cbn [map]. rewrite !filter_cons, IH, lower_space.
  destruct (decide (Char.is_space c = false)); reflexivity.
Qed.

(** X5.  The palindrome flag does not change when white space is put in or
    taken out anywhere.  For a string of Basic Latin characters (where
    lower-casing is the letter-by-letter mapping A-Z to a-z) it does not
    change either when the string is reversed or lower-cased, and such a
    string followed by its reversal is a palindrome. *)
Theorem isPalindrome_invariant (a b ws : jsstring) :
  Forall (fun c => Char.is_space c = true) ws ->
  isPalindrome (a ++ ws ++ b) = isPalindrome (a ++ b)
  /\ (basic_latin a ->
      isPalindrome (rev a) = isPalindrome a
      /\ isPalindrome (toLowerCase a) = isPalindrome a
      /\ isPalindrome (a ++ ws ++ rev a) = true).
Proof.
  intros Hws.
  assert (palindrome_normal_form (a ++ ws ++ b) = palindrome_normal_form (a ++ b)) as Hnf.
  { unfold palindrome_normal_form. rewrite !strip_whitespace_app.
    rewrite (strip_whitespace_spaces ws Hws). reflexivity. }
  rewrite !isPalindrome_normal_form. split; [rewrite Hnf; reflexivity|].
  intros _. split; [|split].
  - rewrite normal_form_rev, rev_involutive. apply string_eqb_sym.
  - unfold palindrome_normal_form.
    rewrite strip_whitespace_lower, toLowerCase_idempotent. reflexivity.
  - assert (palindrome_normal_form (a ++ ws ++ rev a)
            = palindrome_normal_form a ++ rev (palindrome_normal_form a)) as ->.
    { unfold palindrome_normal_form, toLowerCase.
      rewrite !strip_whitespace_app, (strip_whitespace_spaces ws Hws).
      cbn [app]. rewrite strip_whitespace_rev, map_app, map_rev. reflexivity. }
    apply string_eqb_eq. rewrite rev_app_distr, rev_involutive. reflexivity.
Qed.

Lemma isPalindrome_invariant_witness :
  Forall (fun c => Char.is_space c = true) (js "  ")
  /\ basic_latin (js "Never odd")
  /\ isPalindrome (js "Never odd" ++ js "  " ++ rev (js "Never odd")) = true.
Proof.
  assert (Forall (fun c => Char.is_space c = true) (js "  ")) as Hws
    by (repeat constructor).
  assert (basic_latin (js "Never odd")) as Hb
    by (repeat constructor; discriminate).
  split; [exact Hws|]. split; [exact Hb|].
  destruct (isPalindrome_invariant (js "Never odd") [] (js "  ") Hws) as [_ H].
  destruct (H Hb) as (_ & _ & H3). exact H3.
Defined.

Lemma land_255_range (x : Z) : 0 <= Z.land x 0xFF < 256.
Proof.
  change 0xFF with (Z.ones 8). rewrite Z.land_ones by lia.
  apply Z.mod_pos_bound. reflexivity.
Qed.

Lemma hex_digit_lower (d : Z) : 0 <= d < 16 -> is_hex_lower (Sha256.hex_digit d) = true.
Proof.
  intros Hd. unfold Sha256.hex_digit, is_hex_lower, Char.is_digit, Char.in_range.
  destruct (Z.ltb_spec d 10).
  - apply orb_true_iff. left. apply andb_true_iff. split; apply Z.leb_le; lia.
  - apply orb_true_iff. right. apply andb_true_iff. split; apply Z.leb_le; lia.
Qed.

Lemma hex_lower (bytes : list Z) :
  Forall (fun b => 0 <= b < 256) bytes ->
  Forall (fun c => is_hex_lower c = true) (Sha256.hex bytes).
Proof.
  unfold Sha256.hex. induction 1 as [|b bytes Hb _ IH]; [constructor|].
  cbn [flat_map app]. constructor; [|constructor; [|exact IH]].
  - apply hex_digit_lower. rewrite Z.shiftr_div_pow2 by lia.
    change (2 ^ 4) with 16. split; [apply Z.div_pos; lia|].
    apply Z.div_lt_upper_bound; lia.
  - apply hex_digit_lower. change 15 with (Z.ones 4). rewrite Z.land_ones by lia.
    apply Z.mod_pos_bound. reflexivity.
Qed.

Lemma be_bytes_range (count : nat) (x : Z) :
  Forall (fun b => 0 <= b < 256) (Sha256.be_bytes count x).
Proof.
  unfold Sha256.be_bytes. apply Forall_forall. intros b Hb.
  apply list_elem_of_In, in_map_iff in Hb as (i & <- & _). apply land_255_range.
Qed.

Lemma digest_range (msg : list Z) :
  Forall (fun b => 0 <= b < 256) (Sha256.digest msg).
Proof.
  unfold Sha256.digest.
  destruct (fold_left Sha256.compress _ _) as [[[[[[[a b] c] d] e] f] g] h].
  cbn [flat_map]. repeat (apply Forall_app; split); try apply be_bytes_range.
  constructor.
Qed.

(** X6.  The identifier is a string of 64 lower-case hexadecimal digits, for
    every value, and [analyze] reports it as [sha256_hash]. *)
Theorem sha256Hex_format (value : jsstring) :
  length (sha256Hex value) = 64%nat
  /\ Forall (fun c => is_hex_lower c = true) (sha256Hex value)
  /\ exists p, analyze (Str value) = Return p /\ p_sha256_hash p = sha256Hex value.
Proof.
  split; [apply sha256Hex_length|]. split.
  - apply hex_lower, digest_range.
  - eexists. split; reflexivity.
Qed.

(** ** Further properties of the parsers *)

Lemma blank_lower (s : jsstring) :
  Forall (fun c => Char.is_space c = true) (toLowerCase s)
  <-> Forall (fun c => Char.is_space c = true) s.
Proof.
  unfold toLowerCase. induction s as [|c s IH]; [split; constructor|].
  cbn [map]. split; intros H; inversion H as [|? ? Hc Hs]; subst;
    (constructor; [rewrite lower_space in *; exact Hc | apply IH, Hs]).
Qed.

Lemma trim_blank (s : jsstring) :
  trim s = [] <-> Forall (fun c => Char.is_space c = true) s.
Proof. split; [apply trim_nil | apply trim_all_space]. Qed.

Lemma toLowerCase_nil (s : jsstring) : toLowerCase s = [] <-> s = [].
Proof. destruct s; split; (reflexivity || discriminate). Qed.

(** X7.  Both declarations of the parser read a sentence through its
    lower-case form only: two sentences that differ in the case of their
    letters have the same outcome, fields and errors alike. *)
Theorem parse_case_insensitive (a b : jsstring) :
  toLowerCase a = toLowerCase b ->
  NlParser1.parseNaturalLanguage (Str a) = NlParser1.parseNaturalLanguage (Str b)
  /\ NlParser2.parseNaturalLanguage (Str a) = NlParser2.parseNaturalLanguage (Str b).
Proof.
  intros H. rewrite !parse1_unfold, !parse2_unfold, H. split.
  - rewrite (bool_decide_ext (trim a = []) (trim b = [])); [reflexivity|].
    rewrite !trim_blank, <- (blank_lower a), <- (blank_lower b), H. reflexivity.
  - rewrite (bool_decide_ext (a = []) (b = [])); [reflexivity|].
    rewrite <- (toLowerCase_nil a), <- (toLowerCase_nil b), H. reflexivity.
Qed.

Lemma parse_case_insensitive_witness :
  toLowerCase (js "Single WORD") = toLowerCase (js "SINGLE word")
  /\ NlParser1.parseNaturalLanguage (Str (js "Single WORD"))
     = NlParser1.parseNaturalLanguage (Str (js "SINGLE word")).
Proof.
  split; [reflexivity|].
  apply (parse_case_insensitive (js "Single WORD") (js "SINGLE word")). reflexivity.
Defined.

Lemma round_nonneg_lower (k z : Z) :
  k <= z -> k <= 1 -> Number.leb (Num k) (Number.round_nonneg z) = true.
Proof.
  intros Hk H1. unfold Number.round_nonneg.
  destruct (Z.ltb_spec z (2 ^ 53)) as [Hz|Hz]; [apply Z.leb_le, Hk|].
  cbv zeta.
  set (e := Z.log2 z - 52).
  match goal with |- context [Z.shiftl ?q e] => set (q' := q) end.
  destruct (2 ^ 1024 <=? Z.shiftl q' e); [reflexivity|].
  apply Z.leb_le.
  assert (0 < z) as Hpos by (pose proof (Z.pow_pos_nonneg 2 53); lia).
  assert (53 <= Z.log2 z) as Hlog by (apply Z.log2_le_pow2; lia).
  assert (0 <= e) as He by (unfold e; lia).
  assert (2 ^ e <= z) as Hpow.
  { transitivity (2 ^ Z.log2 z); [|apply Z.log2_spec, Hpos].
    apply Z.pow_le_mono_r; unfold e; lia. }
  assert (1 <= Z.shiftr z e) as Hq.
  { rewrite Z.shiftr_div_pow2 by exact He.
    apply Z.div_le_lower_bound; [apply Z.pow_pos_nonneg; lia | lia]. }
  assert (1 <= q') as Hq'.
  { unfold q'. destruct (_ || _); lia. }
  rewrite Z.shiftl_mul_pow2 by exact He.
  assert (0 < 2 ^ e) by (apply Z.pow_pos_nonneg; lia). nia.
Qed.

Lemma parseInt_add_lower (ds : jsstring) (k : Z) :
  decimal ds -> -1 <= k <= 1 ->
  Number.leb (Num k) (Number.add (Number.parseInt ds) k) = true.
Proof.
  intros Hds Hk. rewrite (parseInt_decimal ds Hds).
  pose proof (digits_value_nonneg ds Hds) as Hv.
  pose proof (round_nonneg_lower 0 (Number.digits_value ds) Hv ltac:(lia)) as Hr.
  destruct (Number.round_nonneg (Number.digits_value ds)) as [z|[|]|] eqn:Er;
    try discriminate; [|reflexivity].
  apply Z.leb_le in Hr. unfold Number.add, Number.of_Z.
  destruct (Z.ltb_spec (z + k) 0) as [Hneg|Hnn].
  - assert (z + k = -1) as -> by lia. assert (k = -1) as -> by lia. reflexivity.
  - apply round_nonneg_lower; lia.
Qed.

Lemma number_after_lower icase cs q k n :
  -1 <= k <= 1 ->
  Fields.number_after icase (Rules.cat [Regex.chars cs; Regex.Group 1 (Regex.PlusClass Regex.digit)]) q
    (fun m => Number.add m k) = Some n ->
  Number.leb (Num k) n = true.
Proof.
  intros Hk. unfold Fields.number_after.
  destruct (Regex.exec icase _ q) as [caps|] eqn:He; [|discriminate].
  intros [= <-]. apply exec_number in He as (ds & -> & Hds).
  apply parseInt_add_lower; assumption.
Qed.

Ltac split_ranges :=
  repeat (cbn [andb orb negb] in *;
          match goal with
          | H : context [?a <=? ?b] |- _ => destruct (Z.leb_spec a b)
          | |- context [?a <=? ?b] => destruct (Z.leb_spec a b)
          | H : context [?a =? ?b] |- _ => destruct (Z.eqb_spec a b)
          | |- context [?a =? ?b] => destruct (Z.eqb_spec a b)
          end);
  cbn [andb orb negb] in *; try discriminate; try reflexivity; try lia.

Lemma class_match_letter (x : Z) :
  Regex.class_match true [(97, 122)] x = true ->
  Char.is_lower (Char.lower x) = true.
Proof.
  intros H.
  unfold Regex.class_match, Regex.in_class, existsb, Char.lower, Char.upper,
    Char.is_lower, Char.is_upper, Char.in_range in *.
  split_ranges.
Qed.

Lemma class_match_word (x : Z) :
  Regex.class_match false Regex.word x = true -> Char.is_word x = true.
Proof.
  intros H.
  unfold Regex.class_match, Regex.in_class, Regex.word, existsb, Char.is_word,
    Char.is_lower, Char.is_upper, Char.is_digit, Char.in_range in *.
  split_ranges.
Qed.

Lemma fields1_ranges q :
  (word_count (Fields.fields1 q) = None \/ word_count (Fields.fields1 q) = Some (Num 1))
  /\ (is_palindrome (Fields.fields1 q) = None \/ is_palindrome (Fields.fields1 q) = Some true)
  /\ (forall n, min_length (Fields.fields1 q) = Some n -> Number.leb (Num 1) n = true)
  /\ (forall n, max_length (Fields.fields1 q) = Some n -> Number.leb (Num (-1)) n = true)
  /\ (forall c, contains_character (Fields.fields1 q) = Some c ->
        exists x, c = [x] /\ Char.is_lower x = true).
Proof.
  unfold Fields.fields1.
  cbn [word_count is_palindrome min_length max_length contains_character].
  split; [destruct (Regex.test _ _ _); auto|].
  split; [destruct (Regex.test _ _ _); auto|].
  split; [intros n; apply number_after_lower; lia|].
  split; [intros n; apply (number_after_lower true _ q (-1)); lia|].
  intros c. destruct (Regex.exec true NlParser1.contains q) as [caps|] eqn:He.
  - apply exec_contains1 in He as (x & -> & Hx). intros [= <-].
    exists (Char.lower x). split; [reflexivity | apply class_match_letter, Hx].
  - destruct (Regex.test _ _ _); intros [= <-]. exists 97. split; reflexivity.
Qed.

Lemma fields2_ranges q :
  (word_count (Fields.fields2 q) = None \/ word_count (Fields.fields2 q) = Some (Num 1))
  /\ (is_palindrome (Fields.fields2 q) = None \/ is_palindrome (Fields.fields2 q) = Some true)
  /\ (forall n, min_length (Fields.fields2 q) = Some n -> Number.leb (Num 1) n = true)
  /\ (forall n, max_length (Fields.fields2 q) = Some n -> Number.leb (Num (-1)) n = true)
  /\ (forall c, contains_character (Fields.fields2 q) = Some c ->
        exists x, c = [x] /\ Char.is_word x = true).
Proof.
  unfold Fields.fields2.
  cbn [word_count is_palindrome min_length max_length contains_character].
  split; [destruct (_ || _); auto|].
  split; [destruct (_ || _); auto|].
  split; [intros n; apply number_after_lower; lia|].
  split; [intros n; apply (number_after_lower false _ q (-1)); lia|].
  intros c. destruct (Regex.test false Rules.first_vowel q).
  - intros [= <-]. exists 97. split; reflexivity.
  - destruct (Regex.exec false NlParser2.contains q) as [caps|] eqn:He; [|discriminate].
    apply exec_contains2 in He as (x & -> & Hx). intros [= <-].
    exists x. split; [reflexivity | apply class_match_word, Hx].
Qed.

Lemma lower_is_word (x : Z) : Char.is_lower x = true -> Char.is_word x = true.
Proof. unfold Char.is_word. intros ->. reflexivity. Qed.

(** X8.  What a returned filter can hold, in both declarations:
    [word_count] is 1 when present, [is_palindrome] is never [false],
    [min_length] is at least 1 and [max_length] at least -1 (never NaN),
    and [contains_character] is one code unit, a lower-case letter in the
    first declaration and a word character in the second. *)
Theorem parsed_fields_ranges (sentence : jsstring) (fs : FilterSpec) :
  NlParser1.parseNaturalLanguage (Str sentence) = Return fs
  \/ NlParser2.parseNaturalLanguage (Str sentence) = Return fs ->
  (word_count fs = None \/ word_count fs = Some (Num 1))
  /\ (is_palindrome fs = None \/ is_palindrome fs = Some true)
  /\ (forall n, min_length fs = Some n -> Number.leb (Num 1) n = true)
  /\ (forall n, max_length fs = Some n -> Number.leb (Num (-1)) n = true)
  /\ (forall c, contains_character fs = Some c ->
        exists x, c = [x] /\ Char.is_word x = true
                  /\ (NlParser1.parseNaturalLanguage (Str sentence) = Return fs ->
                      Char.is_lower x = true)).
Proof.
  intros [H|H].
  - rewrite parse1_unfold in H.
    destruct (bool_decide _); [discriminate|].
    destruct (Parsed.no_keys _); [discriminate|].
    injection H as <-.
    destruct (fields1_ranges (toLowerCase sentence)) as (Hw & Hp & Hmin & Hmax & Hc).
    repeat (split; [assumption|]).
    intros c Hcc. destruct (Hc c Hcc) as (x & -> & Hx).
    exists x. auto using lower_is_word.
  - pose proof H as H2. rewrite parse2_unfold in H.
    destruct (bool_decide _); [discriminate|].
    destruct (Parsed.no_keys _); [discriminate|].
    injection H as <-.
    destruct (fields2_ranges (toLowerCase sentence)) as (Hw & Hp & Hmin & Hmax & Hc).
    repeat (split; [assumption|]).
    intros c Hcc. destruct (Hc c Hcc) as (x & -> & Hx).
    exists x. repeat split; [assumption|].
    intros H1. rewrite parse1_unfold in H1.
    destruct (bool_decide _); [discriminate|].
    destruct (Parsed.no_keys _); [discriminate|].
    assert (Fields.fields1 (toLowerCase sentence)
            = Fields.fields2 (toLowerCase sentence)) as H1' by congruence.
    destruct (fields1_ranges (toLowerCase sentence)) as (_ & _ & _ & _ & Hc1).
    rewrite H1' in Hc1. destruct (Hc1 _ Hcc) as (y & [= <-] & Hy). exact Hy.
Qed.

Lemma parsed_fields_ranges_witness :
  NlParser1.parseNaturalLanguage (Str (js "Shorter than 0 and containing Z"))
  = Return (mkFilterSpec None None None (Some (Num (-1))) (Some (js "z")))
  /\ (forall n, max_length (mkFilterSpec None None None (Some (Num (-1))) (Some (js "z")))
                = Some n -> Number.leb (Num (-1)) n = true).
Proof.
  assert (NlParser1.parseNaturalLanguage (Str (js "Shorter than 0 and containing Z"))
          = Return (mkFilterSpec None None None (Some (Num (-1))) (Some (js "z"))))
    as Hparse by (vm_compute; reflexivity).
  split; [exact Hparse|].
  destruct (parsed_fields_ranges (js "Shorter than 0 and containing Z") _
              (or_introl Hparse)) as (_ & _ & _ & Hmax & _).
  exact Hmax.
Defined.

(** ** Further properties of the list handlers *)

Section StoreFacts.
Import Store Query.

Lemma matches_empty doc : matches ∅ doc = true.
Proof. unfold matches. apply bool_decide_eq_true, map_Forall_empty. Qed.

(** A query holds when its condition under one path holds and the other
    conditions hold. *)
Lemma matches_insert (path : jsstring) (c : condition) (q : query) (doc : Document) :
  matches (<[path := c]> q) doc
  = holds c (lookup_path doc path) && matches (delete path q) doc.
Proof.
  apply eq_true_iff_eq. unfold matches.
  rewrite <- (insert_delete_eq q path c).
  rewrite andb_true_iff, !bool_decide_eq_true.
  rewrite map_Forall_insert by apply lookup_delete_eq.
  reflexivity.
Qed.

Lemma lookup_path_is_palindrome doc :
  lookup_path doc path_is_palindrome
  = Some (FBoolean (p_is_palindrome (doc_properties doc))).
Proof. reflexivity. Qed.

Lemma lookup_path_length doc :
  lookup_path doc path_length = Some (of_nat (p_length (doc_properties doc))).
Proof. reflexivity. Qed.

Lemma lookup_path_word_count doc :
  lookup_path doc path_word_count
  = Some (of_nat (p_word_count (doc_properties doc))).
Proof. reflexivity. Qed.

Lemma holds_exists_positive_eq (o : option nat) :
  holds exists_positive (of_nat <$> o)
  = match o with Some n => (0 <? n)%nat | None => false end.
Proof. destruct o as [[|n]|]; reflexivity. Qed.

Lemma lower_not_dot (x : Z) : x <> 46 -> Char.lower x <> 46.
Proof.
  unfold Char.lower, Char.is_upper, Char.in_range.
  destruct (Z.leb_spec 65 x), (Z.leb_spec x 90); cbn [andb]; lia.
Qed.

End StoreFacts.

Ltac paths_differ :=
  let H := fresh in
  intros H; apply (f_equal (fun s : jsstring => nth 11 s 0)) in H;
  vm_compute in H; discriminate.

Section ListFacts.
Import Store Query.

(** The query built from a filter selects a document exactly when the
    properties of the document satisfy the filter. *)
Lemma mongo_query_matches (fs : FilterSpec) (doc : Document) :
  (forall c, contains_character fs = Some c -> plain_key c) ->
  matches (Controller.mongo_query fs) doc = satisfies fs (doc_properties doc).
Proof.
  destruct fs as [w b mn mx c]. intros Hc.
  cbn [contains_character] in Hc.
  assert (match c with
          | Some c => exists x, c = [x] /\ Char.lower x <> 46
          | None => True
          end) as Hc'.
  { destruct c as [c|]; [|exact I].
    destruct (Hc c eq_refl) as (x & -> & _ & Hx & _). eauto using lower_not_dot. }
  clear Hc.
  unfold Controller.mongo_query, satisfies, assign_gte, assign_lte, operators_at.
  cbn [word_count is_palindrome min_length max_length contains_character].
  destruct c as [c|]; [destruct Hc' as (x & -> & Hx)|];
    destruct w as [w|], b as [b|], mn as [mn|], mx as [mx|];
    cbn [toLowerCase map length Nat.eqb];
    cbv zeta;
    rewrite ?lookup_insert_eq, ?lookup_insert_ne, ?lookup_empty by paths_differ;
    cbv beta iota; unfold no_operators; cbn [op_exists op_gt op_gte op_lte];
    repeat (rewrite matches_insert;
            rewrite ?delete_insert_eq, ?delete_insert_ne, ?delete_empty
              by paths_differ);
    rewrite ?matches_empty, ?lookup_path_is_palindrome, ?lookup_path_length,
      ?lookup_path_word_count, ?(lookup_path_frequency doc _ Hx),
      ?holds_exists_positive_eq;
    unfold holds, compare, number_of, of_nat;
    cbn [op_exists op_gt op_gte op_lte andb];
    rewrite ?andb_true_r; try reflexivity; try btauto.
Qed.

End ListFacts.

Section SortFacts.
Import Store Query.

Lemma insert_newest_perm d l : Permutation (insert_newest d l) (d :: l).
Proof.
  induction l as [|x l IH]; cbn [insert_newest]; [reflexivity|].
  destruct (doc_created_at x <? doc_created_at d); [reflexivity|].
  rewrite IH. apply perm_swap.
Qed.

Lemma sort_newest_first_perm l : Permutation (sort_newest_first l) l.
Proof.
  unfold sort_newest_first. induction l as [|x l IH]; cbn [fold_right]; [reflexivity|].
  rewrite insert_newest_perm, IH. reflexivity.
Qed.

Lemma insert_newest_sorted d l :
  StronglySorted newer_or_equal l -> StronglySorted newer_or_equal (insert_newest d l).
Proof.
  induction 1 as [|x l Hl IH Hx]; cbn [insert_newest].
  - constructor; constructor.
  - destruct (Z.ltb_spec (doc_created_at x) (doc_created_at d)) as [Hlt|Hge].
    + constructor; [constructor; assumption|].
      constructor; [unfold newer_or_equal; lia|].
      eapply Forall_impl; [exact Hx|]. unfold newer_or_equal. intros y Hy. cbv beta in *. lia.
    + constructor; [exact IH|].
      apply Forall_forall. intros y Hy.
      apply list_elem_of_In in Hy.
      apply (Permutation_in _ (insert_newest_perm d l)) in Hy as [<-|Hy].
      * exact Hge.
      * rewrite Forall_forall in Hx. apply Hx, list_elem_of_In, Hy.
Qed.

Lemma sort_newest_first_sorted l : StronglySorted newer_or_equal (sort_newest_first l).
Proof.
  unfold sort_newest_first. induction l as [|x l IH]; cbn [fold_right].
  - constructor.
  - apply insert_newest_sorted, IH.
Qed.

(** [find] returns the documents the query selects, newest first. *)
Lemma find_lists (store : list Document) (q : query) (keep : Document -> bool) :
  (forall d, matches q d = keep d) ->
  lists (JsonList 200 (find store q) (length (find store q))) store keep.
Proof.
  intros Hk. exists (find store q). split; [reflexivity|]. unfold find. split.
  - rewrite sort_newest_first_perm.
    rewrite (list_filter_iff (fun doc => matches q doc = true) (fun d => keep d = true));
      [reflexivity|].
    intros d. rewrite Hk. reflexivity.
  - apply sort_newest_first_sorted.
Qed.

Lemma is_word_plain (x : Z) : Char.is_word x = true -> plain_key [x].
Proof.
  intros H. exists x. split; [reflexivity|].
  unfold Char.is_word, Char.is_lower, Char.is_upper, Char.is_digit, Char.in_range in H.
  split; [split_ranges | split; intros ->; discriminate].
Qed.

Lemma valid_request_fields rq :
  valid_request rq = true ->
  well_formed (requested rq) /\ same_fields rq (requested rq).
Proof.
  destruct rq as [p mn mx wc ch]. unfold valid_request, numeric, well_formed, same_fields, requested.
  cbn [q_is_palindrome q_min_length q_max_length q_word_count q_contains_character
       word_count is_palindrome min_length max_length contains_character].
  rewrite !andb_true_iff. intros ((((Hp & Hmn) & Hmx) & Hwc) & Hch).
  assert (forall (o : option jsstring) n,
            match o with
            | Some s => negb (Number.isNaN (Number.parseInt s))
            | None => true
            end = true ->
            Number.parseInt <$> o = Some n -> Number.isNaN n = false) as Hnum.
  { intros [s|] n H; [|discriminate]. intros [= <-]. apply negb_true_iff, H. }
  split; [|split; [|auto]].
  - repeat split; eauto.
    intros c ->. apply Nat.eqb_eq, Hch.
  - destruct p as [s|]; [|reflexivity]. cbn.
    apply orb_true_iff in Hp as [Hp|Hp]; pose proof Hp as He;
      apply string_eqb_eq in He; subst s; reflexivity.
Qed.

Lemma build_query_valid rq :
  valid_request rq = true ->
  Controller.build_query rq = Continue (Controller.mongo_query (requested rq)).
Proof.
  intros H. destruct (valid_request_fields rq H) as [Hw Hs].
  apply queries_agree; assumption.
Qed.

End SortFacts.

(** X9.  For query-string parameters that pass the validation, and a
    Basic Latin character other than [.] and [$], [getAllStrings] answers 200 with
    exactly the stored documents whose properties satisfy every given
    filter, newest first, and [count] is their number. *)
Theorem getAllStrings_lists (store : list Document) (rq : ReqQuery) :
  valid_request rq = true ->
  (forall c, q_contains_character rq = Some c -> plain_key c) ->
  lists (Controller.getAllStrings store rq) store
    (fun d => satisfies (requested rq) (doc_properties d)).
Proof.
  intros Hv Hc. unfold Controller.getAllStrings.
  rewrite (build_query_valid rq Hv).
  apply find_lists. intros d. apply mongo_query_matches. exact Hc.
Qed.

Lemma getAllStrings_lists_witness :
  valid_request (mkReqQuery (Some (js "true")) (Some (js "3")) None None (Some (js "R")))
  = true
  /\ (forall c, q_contains_character
                  (mkReqQuery (Some (js "true")) (Some (js "3")) None None (Some (js "R")))
                = Some c -> plain_key c)
  /\ lists (Controller.getAllStrings []
              (mkReqQuery (Some (js "true")) (Some (js "3")) None None (Some (js "R"))))
       []
       (fun d => satisfies
                   (requested
                      (mkReqQuery (Some (js "true")) (Some (js "3")) None None
                         (Some (js "R"))))
                   (doc_properties d)).
Proof.
  assert (forall c, q_contains_character
                      (mkReqQuery (Some (js "true")) (Some (js "3")) None None
                         (Some (js "R")))
                    = Some c -> plain_key c) as Hc.
  { intros c [= <-]. exists 82. repeat split; (discriminate || lia). }
  assert (valid_request
            (mkReqQuery (Some (js "true")) (Some (js "3")) None None (Some (js "R")))
          = true) as Hv by reflexivity.
  split; [exact Hv|]. split; [exact Hc|].
  apply (getAllStrings_lists []
           (mkReqQuery (Some (js "true")) (Some (js "3")) None None (Some (js "R")))
           Hv Hc).
Defined.

(** X10.  A sentence of Basic Latin characters that a declaration of the
    parser accepts is answered with 200 and exactly the stored documents
    whose properties satisfy the parsed filter, newest first. *)
Theorem filterByNaturalLanguage_lists (store : list Document) (sentence : jsstring)
    (fs : FilterSpec) :
  basic_latin sentence ->
  (NlParser1.parseNaturalLanguage (Str sentence) = Return fs ->
   lists (Controller.filterByNaturalLanguage NlParser1.parseNaturalLanguage store
            (Some sentence))
     store (fun d => satisfies fs (doc_properties d)))
  /\ (NlParser2.parseNaturalLanguage (Str sentence) = Return fs ->
      lists (Controller.filterByNaturalLanguage NlParser2.parseNaturalLanguage store
               (Some sentence))
        store (fun d => satisfies fs (doc_properties d))).
Proof.
  intros _. split; intros H.
  - assert (forall c, contains_character fs = Some c -> plain_key c) as Hc.
    { pose proof H as H'. rewrite parse1_unfold in H'.
      destruct (bool_decide _); [discriminate|].
      destruct (Parsed.no_keys _); [discriminate|].
      assert (fs = Fields.fields1 (toLowerCase sentence)) as -> by congruence.
      destruct (fields1_ranges (toLowerCase sentence)) as (_ & _ & _ & _ & Hc).
      intros c Hcc. destruct (Hc c Hcc) as (x & -> & Hx).
      apply is_word_plain, lower_is_word, Hx. }
    unfold Controller.filterByNaturalLanguage.
    destruct sentence as [|c0 sentence]; [discriminate|].
    rewrite H. apply find_lists. intros d. apply mongo_query_matches, Hc.
  - assert (forall c, contains_character fs = Some c -> plain_key c) as Hc.
    { pose proof H as H'. rewrite parse2_unfold in H'.
      destruct (bool_decide _); [discriminate|].
      destruct (Parsed.no_keys _); [discriminate|].
      assert (fs = Fields.fields2 (toLowerCase sentence)) as -> by congruence.
      destruct (fields2_ranges (toLowerCase sentence)) as (_ & _ & _ & _ & Hc).
      intros c Hcc. destruct (Hc c Hcc) as (x & -> & Hx).
      apply is_word_plain, Hx. }
    unfold Controller.filterByNaturalLanguage.
    destruct sentence as [|c0 sentence]; [discriminate|].
    rewrite H. apply find_lists. intros d. apply mongo_query_matches, Hc.
Qed.

Lemma filterByNaturalLanguage_lists_witness :
  basic_latin (js "palindromic strings longer than 5")
  /\ NlParser1.parseNaturalLanguage (Str (js "palindromic strings longer than 5"))
     = Return (mkFilterSpec None (Some true) (Some (Num 6)) None None)
  /\ lists (Controller.filterByNaturalLanguage NlParser1.parseNaturalLanguage []
              (Some (js "palindromic strings longer than 5")))
       []
       (fun d => satisfies (mkFilterSpec None (Some true) (Some (Num 6)) None None)
                   (doc_properties d)).
Proof.
  assert (NlParser1.parseNaturalLanguage (Str (js "palindromic strings longer than 5"))
          = Return (mkFilterSpec None (Some true) (Some (Num 6)) None None)) as Hparse
    by (vm_compute; reflexivity).
  assert (basic_latin (js "palindromic strings longer than 5")) as Hb
    by (repeat constructor; discriminate).
  split; [exact Hb|]. split; [exact Hparse|].
  destruct (filterByNaturalLanguage_lists [] (js "palindromic strings longer than 5")
              (mkFilterSpec None (Some true) (Some (Num 6)) None None) Hb) as [H1 _].
  exact (H1 Hparse).
Defined.

Section Requests.
Import Express.

(** On string parameters the handlers are those of [Controller] and
    [ControllerEarly]. *)
Lemma getAllStrings_of_strings (store : list Document) (rq : ReqQuery) :
  RequestController.getAllStrings store (of_strings rq)
  = Controller.getAllStrings store rq
  /\ RequestControllerEarly.getAllStrings store (of_strings rq)
     = ControllerEarly.getAllStrings store rq.
Proof.
  destruct rq as [[p|] [mn|] [mx|] [wc|] [ch|]]; split; reflexivity.
Qed.

Lemma filterByNaturalLanguage_of_strings
    (parse : jsvalue -> outcome FilterSpec) (store : list Document)
    (q : option jsstring) :
  RequestController.filterByNaturalLanguage parse store (PString <$> q)
  = Controller.filterByNaturalLanguage parse store q
  /\ RequestControllerEarly.filterByNaturalLanguage parse store (PString <$> q)
     = ControllerEarly.filterByNaturalLanguage parse store q.
Proof. destruct q as [[|c s]|]; split; reflexivity. Qed.

End Requests.

Ltac refuse_or_go_on :=
  cbn [negb andb orb mbind step_bind Express.strict_eq Express.has_length_one
       Express.to_string];
  try solve [eauto
            | do 2 eexists; repeat split; reflexivity
            | do 4 eexists; split; [intros; split; reflexivity|]; auto].

(** X11.  What [getAllStrings] accepts, for any request the framework can
    hand over.  The first copy of the controller answers 200 when
    [is_palindrome] is the string "true" or "false", every numeric parameter
    converts to a string that [parseInt] reads a number from, and
    [contains_character] is a string of length 1 (each only if given).  Any
    other request is refused before the store is read, with 422 and an
    error message, or with 500 when a parameter does not convert to a
    string.  The third copy does the same with 400 for 422, except that it
    takes a [contains_character] that is no string but has length 1 (the
    array of a key given once with brackets), which the first copy
    refuses. *)
Theorem getAllStrings_validates (store : list Document) (rq : Express.Query) :
  match accepts true rq, accepts false rq with
  | true, true =>
      exists data data',
        RequestController.getAllStrings store rq = JsonList 200 data (length data)
        /\ RequestControllerEarly.getAllStrings store rq
           = JsonList 200 data' (length data')
  | false, true =>
      exists text data',
        Express.e_contains_character rq = Some (Express.POther true (Some text))
        /\ RequestController.getAllStrings store rq
           = JsonError 422 "contains_character must be a single character"
        /\ RequestControllerEarly.getAllStrings store rq
           = JsonList 200 data' (length data')
  | false, false =>
      exists status message status' message',
        (forall store',
           RequestController.getAllStrings store' rq = JsonError status message
           /\ RequestControllerEarly.getAllStrings store' rq
              = JsonError status' message')
        /\ (status = 422 \/ status = 500)%nat
        /\ (status' = 400 \/ status' = 500)%nat
  | true, false => False
  end.
Proof.
  destruct rq as [pal mn mx wc ch].
  unfold accepts, numeric_param, RequestController.getAllStrings,
    RequestControllerEarly.getAllStrings, RequestController.build_query,
    RequestControllerEarly.build_query.
  cbn [Express.e_is_palindrome Express.e_min_length Express.e_max_length
       Express.e_word_count Express.e_contains_character mbind step_bind].
  destruct pal as [[s|one text]|]; cbn [Express.strict_eq];
    [destruct (string_eqb s (js "true")), (string_eqb s (js "false"))| |];
    refuse_or_go_on;
    (destruct mn as [mn|];
     [destruct (Express.to_string mn) as [tmn|];
      [destruct (Number.isNaN (Number.parseInt tmn))|]|];
     refuse_or_go_on);
    (destruct mx as [mx|];
     [destruct (Express.to_string mx) as [tmx|];
      [destruct (Number.isNaN (Number.parseInt tmx))|]|];
     refuse_or_go_on);
    (destruct wc as [wc|];
     [destruct (Express.to_string wc) as [twc|];
      [destruct (Number.isNaN (Number.parseInt twc))|]|];
     refuse_or_go_on);
    (destruct ch as [[c|[|] [t|]]|]; cbn [Express.has_length_one];
     [destruct (length c =? 1)%nat| | | | |];
     refuse_or_go_on).
Qed.

(** A key given once with brackets: the array of one string is refused by
    the first copy and taken by the third, which looks the string up as it
    is. *)
Example getAllStrings_array_of_one (store : list Document) :
  RequestController.getAllStrings store
    (Express.mkQuery None None None None (Some (Express.array [js "A"])))
  = JsonError 422 "contains_character must be a single character"
  /\ RequestControllerEarly.getAllStrings store
       (Express.mkQuery None None None None (Some (Express.array [js "A"])))
     = ControllerEarly.getAllStrings store (only_contains (js "A")).
Proof. split; reflexivity. Qed.

(** X12.  When [filterByNaturalLanguage] sends 500, with a store that
    answers: it is the error of the parser's guard, "Query must be a
    non-empty string".  With the first declaration of the parser that is for
    a query that is no string (a key given several times) or a string, not
    empty, of white space alone; with the second declaration for a query
    that is no string, and for no string at all. *)
Theorem filter_server_error (store : list Document) (q : option Express.param)
    (message : string) :
  (RequestController.filterByNaturalLanguage NlParser1.parseNaturalLanguage store q
   = JsonError 500 message
   <-> message = "Query must be a non-empty string"%string
       /\ ((exists length_is_one text, q = Some (Express.POther length_is_one text))
           \/ (exists s, q = Some (Express.PString s) /\ s <> []
                          /\ Forall (fun c => Char.is_space c = true) s)))
  /\ (RequestController.filterByNaturalLanguage NlParser2.parseNaturalLanguage store q
      = JsonError 500 message
      <-> message = "Query must be a non-empty string"%string
          /\ exists length_is_one text, q = Some (Express.POther length_is_one text)).
Proof.
  unfold RequestController.filterByNaturalLanguage.
  destruct q as [[[|c s]|one text]|]; cbn [Express.falsy Express.to_value].
  - split; (split; [discriminate|]).
    + intros (_ & [(b & t & [=]) | (s & [= <-] & Hs & _)]). congruence.
    + intros (_ & b & t & [=]).
  - rewrite parse1_unfold, parse2_unfold.
    rewrite (bool_decide_eq_false_2 (c :: s = [])) by discriminate.
    split.
    + destruct (bool_decide (trim (c :: s) = [])) eqn:Hb.
      * apply bool_decide_eq_true in Hb. apply trim_blank in Hb.
        cbn. split.
        -- intros [= <-]. split; [reflexivity|]. right. exists (c :: s). auto.
        -- intros (-> & _). reflexivity.
      * apply bool_decide_eq_false in Hb. rewrite trim_blank in Hb.
        destruct (Parsed.no_keys _); cbn;
          (split; [discriminate|];
           intros (_ & [(b & t & [=]) | (s' & [= <-] & _ & Hs)]); contradiction).
    + destruct (Parsed.no_keys _); cbn;
        (split; [discriminate | intros (_ & b & t & [=])]).
  - cbn. split; (split; [intros [= <-]; split; [reflexivity|]; eauto
                        | intros (-> & _); reflexivity]).
  - split; (split; [discriminate|]).
    + intros (_ & [(b & t & [=]) | (s & [=] & _)]).
    + intros (_ & b & t & [=]).
Qed.

Section Bounds.
Import Store Query.

Lemma mongo_query_length (fs : FilterSpec) (n m : number) :
  min_length fs = Some n -> max_length fs = Some m ->
  Controller.mongo_query fs !! path_length
  = Some (Operators (mkOperators None None (Some n) (Some m))).
Proof.
  destruct fs as [w b mn mx c]. cbn [min_length max_length]. intros -> ->.
  unfold Controller.mongo_query, assign_gte, assign_lte, operators_at.
  cbn [word_count is_palindrome min_length max_length contains_character].
  destruct c as [c|]; [destruct (length (toLowerCase c) =? 1)%nat|];
    destruct w as [w|], b as [b|];
    cbv zeta;
    rewrite ?lookup_insert_eq, ?lookup_insert_ne, ?lookup_empty by paths_differ;
    cbv beta iota; unfold no_operators; cbn [op_exists op_gt op_gte op_lte];
    rewrite ?lookup_insert_eq, ?lookup_insert_ne, ?lookup_empty by paths_differ;
    reflexivity.
Qed.

Lemma empty_range (n m l : number) :
  Number.ltb m n = true -> Number.leb n l && Number.leb l m = false.
Proof.
  destruct n as [n|[|]|], m as [m|[|]|], l as [l|[|]|]; cbn; try reflexivity;
    try discriminate.
  - intros H%Z.ltb_lt. apply andb_false_iff.
    destruct (Z.leb_spec n l); [right; apply Z.leb_gt; lia | left; reflexivity].
  - intros _. apply andb_false_r.
Qed.

Lemma find_empty_range (store : list Document) (fs : FilterSpec) (n m : number) :
  min_length fs = Some n -> max_length fs = Some m -> Number.ltb m n = true ->
  find store (Controller.mongo_query fs) = [].
Proof.
  intros Hn Hm Hlt. unfold find.
  assert (filter (fun doc => matches (Controller.mongo_query fs) doc = true) store = [])
    as ->; [|reflexivity].
  induction store as [|d store IH]; [reflexivity|].
  rewrite filter_cons_False; [exact IH|].
  unfold matches. rewrite bool_decide_eq_true. intros Hall.
  specialize (Hall _ _ (mongo_query_length fs n m Hn Hm)). cbv beta in Hall.
  rewrite lookup_path_length in Hall.
  unfold holds, compare, number_of, of_nat in Hall.
  cbn [op_exists op_gt op_gte op_lte andb] in Hall.
  rewrite (empty_range n m _ Hlt) in Hall. discriminate.
Qed.

End Bounds.

(** X13.  Bounds that exclude each other are no error: when the upper
    bound on the length is below the lower bound, both list handlers answer
    200 with no document, whatever the store holds and whatever the other
    filters are. *)
Theorem contradictory_bounds (store : list Document) :
  (forall rq smin smax,
     valid_request rq = true ->
     q_min_length rq = Some smin -> q_max_length rq = Some smax ->
     Number.ltb (Number.parseInt smax) (Number.parseInt smin) = true ->
     Controller.getAllStrings store rq = JsonList 200 [] 0)
  /\ (forall parse sentence fs n m,
        parse (Str sentence) = Return fs -> sentence <> [] ->
        min_length fs = Some n -> max_length fs = Some m ->
        Number.ltb m n = true ->
        Controller.filterByNaturalLanguage parse store (Some sentence)
        = JsonList 200 [] 0).
Proof.
  split.
  - intros rq smin smax Hv Hmin Hmax Hlt. unfold Controller.getAllStrings.
    rewrite (build_query_valid rq Hv).
    rewrite (find_empty_range store (requested rq) (Number.parseInt smin)
               (Number.parseInt smax)); [reflexivity | | | exact Hlt];
      unfold requested; cbn [min_length max_length]; [rewrite Hmin | rewrite Hmax];
      reflexivity.
  - intros parse sentence fs n m Hp Hne Hn Hm Hlt.
    unfold Controller.filterByNaturalLanguage.
    destruct sentence as [|c s]; [congruence|].
    rewrite Hp, (find_empty_range store fs n m Hn Hm Hlt). reflexivity.
Qed.

Lemma contradictory_bounds_witness :
  NlParser2.parseNaturalLanguage (Str (js "longer than 9 but shorter than 4"))
  = Return (mkFilterSpec None None (Some (Num 10)) (Some (Num 3)) None)
  /\ Controller.filterByNaturalLanguage NlParser2.parseNaturalLanguage []
       (Some (js "longer than 9 but shorter than 4"))
     = JsonList 200 [] 0.
Proof.
  assert (NlParser2.parseNaturalLanguage (Str (js "longer than 9 but shorter than 4"))
          = Return (mkFilterSpec None None (Some (Num 10)) (Some (Num 3)) None))
    as Hparse by (vm_compute; reflexivity).
  split; [exact Hparse|].
  destruct (contradictory_bounds []) as [_ H].
  apply (H NlParser2.parseNaturalLanguage (js "longer than 9 but shorter than 4")
           (mkFilterSpec None None (Some (Num 10)) (Some (Num 3)) None)
           (Num 10) (Num 3) Hparse);
    [discriminate | reflexivity | reflexivity | reflexivity].
Defined.

Lemma trimStart_spaces (ws t : jsstring) :
  Forall (fun c => Char.is_space c = true) ws -> trimStart (ws ++ t) = trimStart t.
Proof.
  induction 1 as [|c ws Hc _ IH]; [reflexivity|].
  cbn [app trimStart]. rewrite Hc. exact IH.
Qed.

Lemma take_digits_app (ds rest : jsstring) :
  Forall (fun c => Char.is_digit c = true) ds -> no_digit_ahead rest ->
  Number.take_digits (ds ++ rest) = ds.
Proof.
  intros Hds Hrest. induction Hds as [|c ds Hc _ IH]; cbn [app Number.take_digits].
  - destruct rest as [|r rest]; [reflexivity|].
    cbn [Number.take_digits]. cbn in Hrest. rewrite Hrest. reflexivity.
  - rewrite Hc, IH. reflexivity.
Qed.

(** [parseInt] skips leading white space and stops at the first character
    that is no digit. *)
Lemma parseInt_lenient (ws ds rest : jsstring) :
  Forall (fun c => Char.is_space c = true) ws -> decimal ds -> no_digit_ahead rest ->
  Number.parseInt (ws ++ ds ++ rest) = Number.parseInt ds.
Proof.
  intros Hws Hds Hrest. rewrite (parseInt_decimal ds Hds).
  destruct Hds as [Hne Hds]. destruct ds as [|c ds]; [congruence|].
  pose proof (take_digits_app (c :: ds) rest Hds Hrest) as Htake.
  inversion Hds as [|? ? Hc _]; subst.
  unfold Number.parseInt. rewrite (trimStart_spaces ws _ Hws).
  cbn [app trimStart]. rewrite (digit_not_space c Hc).
  assert (((c =? 45) = false) /\ ((c =? 43) = false)) as [-> ->].
  { unfold Char.is_digit, Char.in_range in Hc.
    apply andb_true_iff in Hc as [?%Z.leb_le ?%Z.leb_le].
    split; apply Z.eqb_neq; lia. }
  cbn [orb]. change (c :: ds ++ rest) with ((c :: ds) ++ rest).
  rewrite Htake. reflexivity.
Qed.

(** X14.  The numeric parameters of [getAllStrings] are read by
    [parseInt]: white space before the digits and anything after them is
    ignored, so such a parameter is accepted and filters like the number
    alone. *)
Theorem numeric_parameters_lenient (store : list Document)
    (p mn mx wc ch : option jsstring) (ws ds rest : jsstring) :
  Forall (fun c => Char.is_space c = true) ws -> decimal ds -> no_digit_ahead rest ->
  Controller.getAllStrings store (mkReqQuery p (Some (ws ++ ds ++ rest)) mx wc ch)
  = Controller.getAllStrings store (mkReqQuery p (Some ds) mx wc ch)
  /\ Controller.getAllStrings store (mkReqQuery p mn (Some (ws ++ ds ++ rest)) wc ch)
     = Controller.getAllStrings store (mkReqQuery p mn (Some ds) wc ch)
  /\ Controller.getAllStrings store (mkReqQuery p mn mx (Some (ws ++ ds ++ rest)) ch)
     = Controller.getAllStrings store (mkReqQuery p mn mx (Some ds) ch)
  /\ Number.isNaN (Number.parseInt (ws ++ ds ++ rest)) = false.
Proof.
  intros Hws Hds Hrest.
  pose proof (parseInt_lenient ws ds rest Hws Hds Hrest) as Hparse.
  unfold Controller.getAllStrings, Controller.build_query.
  cbn [q_is_palindrome q_min_length q_max_length q_word_count q_contains_character].
  rewrite Hparse. repeat split.
  rewrite (parseInt_decimal ds Hds). apply round_nonneg_not_NaN.
Qed.

Lemma numeric_parameters_lenient_witness :
  Forall (fun c => Char.is_space c = true) (js " ")
  /\ decimal (js "12") /\ no_digit_ahead (js "px")
  /\ Controller.getAllStrings [] (mkReqQuery None (Some (js " " ++ js "12" ++ js "px")) None None None)
     = Controller.getAllStrings [] (mkReqQuery None (Some (js "12")) None None None).
Proof.
  assert (Forall (fun c => Char.is_space c = true) (js " ")) as Hws
    by (repeat constructor).
  assert (decimal (js "12")) as Hds by (split; [discriminate | repeat constructor]).
  assert (no_digit_ahead (js "px")) as Hrest by reflexivity.
  split; [exact Hws|]. split; [exact Hds|]. split; [exact Hrest|].
  apply (numeric_parameters_lenient [] None None None None None
           (js " ") (js "12") (js "px") Hws Hds Hrest).
Defined.

(** ** Properties of the item handlers *)

Section CollectionFacts.
Import Collection.


Lemma findById_None store id :
  findById store id = None <-> ~ In id (map doc_id store).
Proof.
  unfold findById. induction store as [|d store IH]; cbn [List.find map In].
  - tauto.
  - destruct (string_eqb (doc_id d) id) eqn:He.
    + apply string_eqb_eq in He. split; [discriminate | tauto].
    + assert (doc_id d <> id) by (intros Hd; apply string_eqb_eq in Hd; congruence).
      tauto.
Qed.

Lemma findById_app store doc id :
  findById (store ++ [doc]) id
  = match findById store id with
    | Some d => Some d
    | None => if string_eqb (doc_id doc) id then Some doc else None
    end.
Proof.
  unfold findById. induction store as [|d store IH]; cbn [List.find app].
  - reflexivity.
  - destruct (string_eqb (doc_id d) id); [reflexivity | exact IH].
Qed.

Lemma string_eqb_refl (s : jsstring) : string_eqb s s = true.
Proof. apply string_eqb_eq. reflexivity. Qed.

Lemma string_eqb_neq (a b : jsstring) : a <> b -> string_eqb a b = false.
Proof.
  intros H. destruct (string_eqb a b) eqn:He; [|reflexivity].
  apply string_eqb_eq in He. contradiction.
Qed.

Lemma remove_ids id store x :
  In x (map doc_id (remove id store)) -> In x (map doc_id store).
Proof.
  induction store as [|d store IH]; cbn [remove map In]; [tauto|].
  destruct (string_eqb (doc_id d) id); cbn [map In]; tauto.
Qed.

Lemma remove_NoDup id store :
  NoDup (map doc_id store) ->
  NoDup (map doc_id (remove id store)) /\ ~ In id (map doc_id (remove id store)).
Proof.
  induction store as [|d store IH]; cbn [remove map]; intros Hnd.
  - split; [constructor | intros []].
  - apply NoDup_cons in Hnd as [Hd Hrest]. rewrite list_elem_of_In in Hd.
    destruct (string_eqb (doc_id d) id) eqn:He.
    + apply string_eqb_eq in He. subst id. split; assumption.
    + destruct (IH Hrest) as [IH1 IH2]. cbn [map]. split.
      * apply NoDup_cons. split; [|exact IH1].
        rewrite list_elem_of_In. intros Hin. apply Hd, (remove_ids id), Hin.
      * intros [Hh|Ht]; [|auto].
        rewrite <- Hh, string_eqb_refl in He. discriminate.
Qed.


Lemma findById_remove_ne id id' store :
  id' <> id -> findById (remove id store) id' = findById store id'.
Proof.
  intros Hne. unfold findById.
  induction store as [|d store IH]; cbn [remove List.find]; [reflexivity|].
  destruct (string_eqb (doc_id d) id) eqn:He.
  - apply string_eqb_eq in He.
    rewrite (string_eqb_neq (doc_id d) id') by congruence. reflexivity.
  - cbn [List.find]. destruct (string_eqb (doc_id d) id'); [reflexivity | exact IH].
Qed.

Lemma remove_length id store d :
  findById store id = Some d -> length store = S (length (remove id store)).
Proof.
  unfold findById. induction store as [|x store IH]; cbn [List.find remove]; [discriminate|].
  destruct (string_eqb (doc_id x) id); [reflexivity|].
  intros H. cbn [length]. f_equal. apply IH, H.
Qed.

(** [createString] on a string: a conflict when the identifier is taken;
    else the empty string is refused by the schema and any other string is
    appended as its analysed document. *)
Lemma createString_Str store value now :
  Controller.createString store (Str value) now
  = match findById store (sha256Hex value) with
    | Some _ => (ItemConflict 409 "String already exists" (sha256Hex value), store)
    | None =>
        match value, stored_document value now with
        | _ :: _, Some doc => (ItemJson 201 doc, store ++ [doc])
        | _, _ => (ItemInvalid 500 "value", store)
        end
    end.
Proof. destruct value; reflexivity. Qed.

Lemma stored_document_fields value now :
  exists doc, stored_document value now = Some doc
              /\ doc_id doc = sha256Hex value /\ doc_value doc = value
              /\ analyze (Str value) = Return (doc_properties doc)
              /\ doc_created_at doc = now.
Proof. eexists. repeat split. Qed.

Lemma deleteString_Some store raw :
  Controller.deleteString store (Some raw)
  = match findById store (sha256Hex raw) with
    | Some _ => (ItemEmpty 204, remove (sha256Hex raw) store)
    | None => (ItemError 404 "String not found", store)
    end.
Proof.
  unfold Controller.deleteString, findByIdAndDelete.
  destruct (findById store (sha256Hex raw)); reflexivity.
Qed.




End CollectionFacts.



(** X16.  A string is stored once: after [createString] on a string that is
    not empty, [createString] on the same string answers 409 with the digest
    of the string as [id], at any later time, and leaves the collection as
    it is. *)
Theorem create_twice_conflicts (store : list Document) (value : jsstring)
    (now later : Z) :
  value <> [] ->
  Controller.createString
    (snd (Controller.createString store (Str value) now)) (Str value) later
  = (ItemConflict 409 "String already exists" (sha256Hex value),
     snd (Controller.createString store (Str value) now)).
Proof.
  intros Hne.
  rewrite (createString_Str (snd _)), (createString_Str store).
  destruct (Collection.findById store (sha256Hex value)) as [d|] eqn:Hf.
  - cbn [snd]. rewrite Hf. reflexivity.
  - destruct value as [|c value]; [congruence|].
    destruct (stored_document_fields (c :: value) now) as (doc & -> & Hid & _).
    cbn [snd]. rewrite findById_app, Hf, Hid, string_eqb_refl. reflexivity.
Qed.

Lemma create_twice_conflicts_witness :
  js "abc" <> []
  /\ Controller.createString
       (snd (Controller.createString [] (Str (js "abc")) 7)) (Str (js "abc")) 8
     = (ItemConflict 409 "String already exists" (sha256Hex (js "abc")),
        snd (Controller.createString [] (Str (js "abc")) 7)).
Proof.
  assert (js "abc" <> []) as Hne by discriminate.
  split; [exact Hne|].
  apply (create_twice_conflicts [] (js "abc") 7 8 Hne).
Defined.

(** X17.  In a collection without duplicate identifiers, after
    [deleteString] has answered 204 for a string, one document is gone,
    [getStringByValue] and a second [deleteString] on it answer 404, and
    [createString] on it, when it is not the empty string, answers 201
    again. *)
Theorem delete_then_get (store store' : list Document) (value : jsstring) (now : Z) :
  NoDup (map doc_id store) ->
  Controller.deleteString store (Some value) = (ItemEmpty 204, store') ->
  length store = S (length store')
  /\ Controller.getStringByValue store' (Some value) = ItemError 404 "String not found"
  /\ Controller.deleteString store' (Some value)
     = (ItemError 404 "String not found", store')
  /\ (value <> [] ->
      exists doc, Controller.createString store' (Str value) now
                  = (ItemJson 201 doc, store' ++ [doc])).
Proof.
  intros Hnd. rewrite deleteString_Some.
  destruct (Collection.findById store (sha256Hex value)) as [d|] eqn:Hf; [|discriminate].
  intros [= <-].
  destruct (remove_NoDup (sha256Hex value) store Hnd) as [_ Hnot].
  apply findById_None in Hnot.
  split; [apply (remove_length _ _ _ Hf)|].
  unfold Controller.getStringByValue.
  rewrite deleteString_Some, createString_Str, Hnot.
  split; [reflexivity|]. split; [reflexivity|].
  intros Hne. destruct value as [|c value]; [congruence|].
  destruct (stored_document_fields (c :: value) now) as (doc & -> & _). eauto.
Qed.

Lemma delete_then_get_witness :
  NoDup (map doc_id (snd (Controller.createString [] (Str (js "abc")) 7)))
  /\ Controller.deleteString (snd (Controller.createString [] (Str (js "abc")) 7))
       (Some (js "abc"))
     = (ItemEmpty 204, [])
  /\ Controller.getStringByValue [] (Some (js "abc")) = ItemError 404 "String not found"
  /\ js "abc" <> []
  /\ exists doc, Controller.createString [] (Str (js "abc")) 8
                 = (ItemJson 201 doc, [] ++ [doc]).
Proof.
  assert (NoDup (map doc_id (snd (Controller.createString [] (Str (js "abc")) 7))))
    as Hnd by apply NoDup_singleton.
  assert (Controller.deleteString (snd (Controller.createString [] (Str (js "abc")) 7))
            (Some (js "abc"))
          = (ItemEmpty 204, [])) as Hdel by (vm_compute; reflexivity).
  assert (js "abc" <> []) as Hne by discriminate.
  split; [exact Hnd|]. split; [exact Hdel|].
  destruct (delete_then_get _ [] (js "abc") 8 Hnd Hdel) as (_ & H & _ & Hc).
  split; [exact H|]. split; [exact Hne | exact (Hc Hne)].
Defined.



(** X19.  Frame: creating or deleting one string does not change what
    [getStringByValue] answers for a string with another digest. *)
Theorem other_strings_untouched (store : list Document) (value other : jsstring)
    (now : Z) :
  sha256Hex other <> sha256Hex value ->
  Controller.getStringByValue
    (snd (Controller.createString store (Str value) now)) (Some other)
  = Controller.getStringByValue store (Some other)
  /\ Controller.getStringByValue
       (snd (Controller.deleteString store (Some value))) (Some other)
     = Controller.getStringByValue store (Some other).
Proof.
  intros Hne. unfold Controller.getStringByValue.
  rewrite createString_Str, deleteString_Some.
  destruct (Collection.findById store (sha256Hex value)) as [d|] eqn:Hf; cbn [snd].
  - split; [reflexivity|]. rewrite findById_remove_ne by exact Hne. reflexivity.
  - split; [|reflexivity].
    destruct value as [|c value]; [reflexivity|].
    destruct (stored_document_fields (c :: value) now) as (doc & -> & Hid & _).
    cbn [snd]. rewrite findById_app, Hid.
    rewrite (string_eqb_neq (sha256Hex (c :: value)) (sha256Hex other)) by congruence.
    destruct (Collection.findById store (sha256Hex other)); reflexivity.
Qed.

Lemma other_strings_untouched_witness :
  sha256Hex (js "b") <> sha256Hex (js "a")
  /\ Controller.getStringByValue
       (snd (Controller.createString [] (Str (js "a")) 1)) (Some (js "b"))
     = Controller.getStringByValue [] (Some (js "b")).
Proof.
  assert (sha256Hex (js "b") <> sha256Hex (js "a")) as Hne
    by (intros H; vm_compute in H; discriminate).
  split; [exact Hne|].
  apply (other_strings_untouched [] (js "a") (js "b") 1 Hne).
Defined.




(** ** The declarations of the parser, side by side *)

Section CaseFlag.
Import Regex Rules.

Lemma toLowerCase_lowered (s : jsstring) : lowered (toLowerCase s).
Proof.
  unfold lowered, toLowerCase. induction s as [|c s IH]; cbn [map]; constructor;
    [|exact IH].
  unfold Char.lower, Char.is_upper, Char.in_range. split_ranges.
Qed.

Lemma chr_match_lowered (c x : Z) :
  Char.is_upper c = false -> Char.is_upper x = false ->
  chr_match true c x = chr_match false c x.
Proof.
  unfold chr_match, canon, Char.upper, Char.is_upper, Char.is_lower, Char.in_range.
  intros Hc Hx. split_ranges.
Qed.

Lemma rmatch_chars_flag {A} cs prev s caps (k : @cont A) :
  lowered cs -> lowered s ->
  rmatch true (chars cs) prev s caps k = rmatch false (chars cs) prev s caps k.
Proof.
  intros Hcs. revert prev s. induction Hcs as [|c cs Hc _ IH]; intros prev s Hs;
    cbn [chars fold_right rmatch]; [reflexivity|].
  destruct Hs as [|x s Hx Hs]; [reflexivity|].
  rewrite (chr_match_lowered c x Hc Hx).
  destruct (chr_match false c x); [|reflexivity].
  apply IH, Hs.
Qed.

Lemma rmatch_chars_ext {A} icase cs prev s caps (k k' : @cont A) :
  (forall p s' c, lowered s' -> k p s' c = k' p s' c) -> lowered s ->
  rmatch icase (chars cs) prev s caps k = rmatch icase (chars cs) prev s caps k'.
Proof.
  intros Hk. revert prev s. induction cs as [|c cs IH]; intros prev s Hs;
    cbn [chars fold_right rmatch]; [apply Hk, Hs|].
  destruct Hs as [|x s Hx Hs]; [reflexivity|].
  destruct (chr_match icase c x); [|reflexivity].
  apply IH, Hs.
Qed.

Lemma star_digit_flag {A} prev s caps (k : @cont A) :
  star true digit prev s caps k = star false digit prev s caps k.
Proof.
  revert prev. induction s as [|x s IH]; intros prev; cbn [star]; [reflexivity|].
  rewrite !class_match_digit. destruct (Char.is_digit x); [|reflexivity].
  rewrite IH. reflexivity.
Qed.

(** On a string without upper-case letters the [i] flag of the number
    rules changes nothing. *)
Lemma match_here_number_flag cs prev s :
  lowered cs -> lowered s ->
  match_here true (cat [chars cs; Group 1 (PlusClass digit)]) prev s
  = match_here false (cat [chars cs; Group 1 (PlusClass digit)]) prev s.
Proof.
  intros Hcs Hs. unfold match_here. cbn [cat fold_right]. rewrite !rmatch_Seq.
  rewrite (rmatch_chars_flag cs prev s _ _ Hcs Hs).
  apply rmatch_chars_ext; [|exact Hs].
  intros p s' c _. cbn [rmatch].
  destruct s' as [|x s']; [reflexivity|].
  rewrite !class_match_digit. destruct (Char.is_digit x); [|reflexivity].
  apply star_digit_flag.
Qed.

Lemma exec_number_flag cs s :
  lowered cs -> lowered s ->
  exec true (cat [chars cs; Group 1 (PlusClass digit)]) s
  = exec false (cat [chars cs; Group 1 (PlusClass digit)]) s.
Proof.
  intros Hcs Hs. unfold exec. generalize (@None Z) as prev.
  induction Hs as [|x s Hx Hs IH]; intros prev; cbn [exec_from].
  - rewrite (match_here_number_flag cs prev [] Hcs); [reflexivity | constructor].
  - rewrite (match_here_number_flag cs prev (x :: s) Hcs) by (constructor; assumption).
    destruct (match_here false _ prev (x :: s)) as [[[c p] t]|]; [reflexivity|].
    apply IH.
Qed.

Lemma fields_bounds_agree (q : jsstring) :
  lowered q ->
  min_length (Fields.fields1 q) = min_length (Fields.fields2 q)
  /\ max_length (Fields.fields1 q) = max_length (Fields.fields2 q).
Proof.
  intros Hq. unfold Fields.fields1, Fields.fields2, Fields.number_after.
  cbn [min_length max_length].
  unfold longer_than, shorter_than, str.
  rewrite !exec_number_flag; try exact Hq; [split; reflexivity | |];
    apply Forall_forall; intros c Hc; apply list_elem_of_In in Hc;
    vm_compute in Hc; intuition (subst; reflexivity).
Qed.

End CaseFlag.

(** X21.  The two declarations of the parser read the length bounds alike:
    for a sentence both accept, [min_length] and [max_length] are the same
    in both filters (the [i] flag of the first declaration makes no
    difference after [toLowerCase]). *)
Theorem declarations_agree_on_bounds (sentence : jsstring) (fs1 fs2 : FilterSpec) :
  NlParser1.parseNaturalLanguage (Str sentence) = Return fs1 ->
  NlParser2.parseNaturalLanguage (Str sentence) = Return fs2 ->
  min_length fs1 = min_length fs2 /\ max_length fs1 = max_length fs2.
Proof.
  rewrite parse1_unfold, parse2_unfold.
  destruct (bool_decide (trim sentence = [])); [discriminate|].
  destruct (bool_decide (sentence = [])); [discriminate|].
  destruct (Parsed.no_keys (Fields.fields1 _)); [discriminate|].
  destruct (Parsed.no_keys (Fields.fields2 _)); [discriminate|].
  intros H1 H2.
  assert (fs1 = Fields.fields1 (toLowerCase sentence)) as -> by congruence.
  assert (fs2 = Fields.fields2 (toLowerCase sentence)) as -> by congruence.
  apply fields_bounds_agree, toLowerCase_lowered.
Qed.

Lemma declarations_agree_on_bounds_witness :
  NlParser1.parseNaturalLanguage (Str (js "Strings LONGER than 12 or so"))
  = Return (mkFilterSpec None None (Some (Num 13)) None None)
  /\ NlParser2.parseNaturalLanguage (Str (js "Strings LONGER than 12 or so"))
     = Return (mkFilterSpec None None (Some (Num 13)) None None)
  /\ min_length (mkFilterSpec None None (Some (Num 13)) None None)
     = min_length (mkFilterSpec None None (Some (Num 13)) None None).
Proof.
  assert (NlParser1.parseNaturalLanguage (Str (js "Strings LONGER than 12 or so"))
          = Return (mkFilterSpec None None (Some (Num 13)) None None)) as H1
    by (vm_compute; reflexivity).
  assert (NlParser2.parseNaturalLanguage (Str (js "Strings LONGER than 12 or so"))
          = Return (mkFilterSpec None None (Some (Num 13)) None None)) as H2
    by (vm_compute; reflexivity).
  split; [exact H1|]. split; [exact H2|].
  apply (declarations_agree_on_bounds (js "Strings LONGER than 12 or so") _ _ H1 H2).
Defined.

(** ** The keyword rules *)

Section KeywordRules.
Import Regex Rules.

(** A match at some position is found by the search. *)
Lemma exec_from_found icase r prev pre rest :
  match_here icase r (last_of prev pre) rest <> None ->
  exec_from icase r prev (pre ++ rest) <> None.
Proof.
  revert prev. induction pre as [|x pre IH]; intros prev H.
  - cbn [app]. cbn [last_of fold_left] in H.
    destruct (match_here icase r prev rest) as [[[c p] t]|] eqn:Hm; [|congruence].
    rewrite (exec_from_here _ _ _ _ _ _ _ Hm). discriminate.
  - change ((x :: pre) ++ rest) with (x :: pre ++ rest). cbn [exec_from].
    destruct (match_here icase r prev (x :: pre ++ rest)) as [[[c p] t]|];
      [discriminate|].
    apply IH. exact H.
Qed.

Lemma test_found icase r pre rest :
  match_here icase r (last_of None pre) rest <> None ->
  test icase r (pre ++ rest) = true.
Proof.
  intros H. apply (exec_from_found icase r None pre rest) in H.
  unfold test, exec. destruct (exec_from icase r None (pre ++ rest)); congruence.
Qed.

Ltac keyword_match :=
  match goal with
  | Hp : is_word_at ?p = false, Hq : is_word_at (head ?post) = false |- _ =>
      unfold match_here; cbn -[Char.is_word head is_word_at];
      rewrite ?Hp; cbn -[Char.is_word head is_word_at];
      rewrite ?Hq; cbn -[Char.is_word head is_word_at];
      discriminate
  end.

Lemma single_word_found1 p kw post :
  is_word_at p = false -> is_word_at (head post) = false ->
  In kw single_word_phrases ->
  match_here false NlParser1.single_word p (kw ++ post) <> None.
Proof.
  intros Hp Hq Hkw. unfold single_word_phrases in Hkw. cbn [In] in Hkw.
  destruct Hkw as [<- | [<- | [<- | [<- | [<- | []]]]]]; keyword_match.
Qed.

Lemma single_word_found2 p kw post :
  is_word_at p = false -> is_word_at (head post) = false ->
  In kw single_word_phrases ->
  match_here false NlParser2.single_word p (kw ++ post) <> None
  \/ match_here false NlParser2.one_word p (kw ++ post) <> None.
Proof.
  intros Hp Hq Hkw. unfold single_word_phrases in Hkw. cbn [In] in Hkw.
  destruct Hkw as [<- | [<- | [<- | [<- | [<- | []]]]]];
    [left | left | left | right | right]; keyword_match.
Qed.

Lemma palindrome_found1 p kw post :
  is_word_at p = false -> is_word_at (head post) = false ->
  In kw palindrome_phrases ->
  match_here false NlParser1.palindrome p (kw ++ post) <> None.
Proof.
  intros Hp Hq Hkw. unfold palindrome_phrases in Hkw. cbn [In] in Hkw.
  destruct Hkw as [<- | [<- | []]]; keyword_match.
Qed.

Lemma palindrome_found2 p kw post :
  is_word_at p = false -> is_word_at (head post) = false ->
  In kw palindrome_phrases ->
  match_here false NlParser2.palindrome p (kw ++ post) <> None.
Proof.
  intros Hp Hq Hkw. unfold palindrome_phrases in Hkw. cbn [In] in Hkw.
  destruct Hkw as [<- | [<- | []]]; keyword_match.
Qed.

Lemma phrase_not_blank (kw : jsstring) :
  In kw single_word_phrases \/ In kw palindrome_phrases ->
  exists x, In x kw /\ Char.is_space x = false.
Proof.
  unfold single_word_phrases, palindrome_phrases. cbn [In].
  intros [H|H];
    repeat (destruct H as [<-|H]; [eexists; split; [left; reflexivity | reflexivity]|]);
    destruct H.
Qed.

Lemma keyword_sentence (sentence pre kw post : jsstring) :
  toLowerCase sentence = pre ++ kw ++ post ->
  In kw single_word_phrases \/ In kw palindrome_phrases ->
  (exists x, In x (toLowerCase sentence) /\ Char.is_space x = false)
  /\ toLowerCase sentence <> [].
Proof.
  intros Hq Hkw. destruct (phrase_not_blank kw Hkw) as (x & Hx & Hs).
  assert (In x (toLowerCase sentence)) as Hin.
  { rewrite Hq. apply in_or_app. right. apply in_or_app. left. exact Hx. }
  split; [eauto|]. intros Hnil. rewrite Hnil in Hin. destruct Hin.
Qed.

End KeywordRules.

(** X22.  The keyword rules.  A sentence of Basic Latin characters whose
    lower-case form holds
    "single word", "single-word", "singleword", "one word" or "one-word" as
    a word of its own (no letter, digit or underscore next to it) is
    accepted by both declarations with [word_count = 1]; one that holds
    "palindrome" or "palindromic" so is accepted with
    [is_palindrome = true], whatever else the sentence says. *)
Theorem keyword_rules (sentence pre kw post : jsstring) :
  basic_latin sentence ->
  toLowerCase sentence = pre ++ kw ++ post ->
  stands_alone pre post ->
  (In kw single_word_phrases ->
   exists fs1 fs2,
     NlParser1.parseNaturalLanguage (Str sentence) = Return fs1
     /\ NlParser2.parseNaturalLanguage (Str sentence) = Return fs2
     /\ word_count fs1 = Some (Num 1) /\ word_count fs2 = Some (Num 1))
  /\ (In kw palindrome_phrases ->
      exists fs1 fs2,
        NlParser1.parseNaturalLanguage (Str sentence) = Return fs1
        /\ NlParser2.parseNaturalLanguage (Str sentence) = Return fs2
        /\ is_palindrome fs1 = Some true /\ is_palindrome fs2 = Some true).
Proof.
  intros _ Hs [Hp Hq].
  split; intros Hkw.
  - destruct (keyword_sentence sentence pre kw post Hs (or_introl Hkw))
      as ((x & Hx & Hsp) & Hne).
    assert (Regex.test false NlParser1.single_word (toLowerCase sentence) = true)
      as H1 by (rewrite Hs; apply test_found, single_word_found1; assumption).
    assert (Regex.test false NlParser2.single_word (toLowerCase sentence)
            || Regex.test false NlParser2.one_word (toLowerCase sentence) = true)
      as H2.
    { rewrite Hs. apply orb_true_iff.
      destruct (single_word_found2 _ kw _ Hp Hq Hkw) as [H|H];
        [left | right]; apply test_found, H. }
    exists (Fields.fields1 (toLowerCase sentence)),
      (Fields.fields2 (toLowerCase sentence)).
    assert (word_count (Fields.fields1 (toLowerCase sentence)) = Some (Num 1))
      as W1 by (unfold Fields.fields1; cbn [word_count]; rewrite H1; reflexivity).
    assert (word_count (Fields.fields2 (toLowerCase sentence)) = Some (Num 1))
      as W2 by (unfold Fields.fields2; cbn [word_count]; rewrite H2; reflexivity).
    split; [|split; [|split; assumption]].
    + apply (parse1_returns _ x Hx Hsp). unfold Parsed.no_keys. rewrite W1. reflexivity.
    + apply (parse2_returns _ Hne). unfold Parsed.no_keys. rewrite W2. reflexivity.
  - destruct (keyword_sentence sentence pre kw post Hs (or_intror Hkw))
      as ((x & Hx & Hsp) & Hne).
    assert (Regex.test false NlParser1.palindrome (toLowerCase sentence) = true)
      as H1 by (rewrite Hs; apply test_found, palindrome_found1; assumption).
    assert (Regex.test false NlParser2.palindrome (toLowerCase sentence) = true)
      as H2 by (rewrite Hs; apply test_found, palindrome_found2; assumption).
    exists (Fields.fields1 (toLowerCase sentence)),
      (Fields.fields2 (toLowerCase sentence)).
    assert (is_palindrome (Fields.fields1 (toLowerCase sentence)) = Some true)
      as W1 by (unfold Fields.fields1; cbn [is_palindrome]; rewrite H1; reflexivity).
    assert (is_palindrome (Fields.fields2 (toLowerCase sentence)) = Some true)
      as W2 by (unfold Fields.fields2; cbn [is_palindrome]; rewrite H2; reflexivity).
    split; [|split; [|split; assumption]].
    + apply (parse1_returns _ x Hx Hsp). unfold Parsed.no_keys.
      rewrite W1. destruct (word_count _); reflexivity.
    + apply (parse2_returns _ Hne). unfold Parsed.no_keys.
      rewrite W2. destruct (word_count _); reflexivity.
Qed.

Lemma keyword_rules_witness :
  basic_latin (js "All strings that are NOT Palindromic, please")
  /\ toLowerCase (js "All strings that are NOT Palindromic, please")
  = js "all strings that are not " ++ js "palindromic" ++ js ", please"
  /\ stands_alone (js "all strings that are not ") (js ", please")
  /\ In (js "palindromic") palindrome_phrases
  /\ exists fs1 fs2,
       NlParser1.parseNaturalLanguage
         (Str (js "All strings that are NOT Palindromic, please")) = Return fs1
       /\ NlParser2.parseNaturalLanguage
            (Str (js "All strings that are NOT Palindromic, please")) = Return fs2
       /\ is_palindrome fs1 = Some true /\ is_palindrome fs2 = Some true.
Proof.
  assert (toLowerCase (js "All strings that are NOT Palindromic, please")
          = js "all strings that are not " ++ js "palindromic" ++ js ", please") as Hs
    by reflexivity.
  assert (stands_alone (js "all strings that are not ") (js ", please")) as Ha
    by (split; reflexivity).
  assert (In (js "palindromic") palindrome_phrases) as Hkw
    by (right; left; reflexivity).
  assert (basic_latin (js "All strings that are NOT Palindromic, please")) as Hb
    by (repeat constructor; discriminate).
  split; [exact Hb|]. split; [exact Hs|]. split; [exact Ha|]. split; [exact Hkw|].
  destruct (keyword_rules (js "All strings that are NOT Palindromic, please")
              (js "all strings that are not ") (js "palindromic")
              (js ", please") Hb Hs Ha) as [_ H].
  exact (H Hkw).
Defined.
